(** * scadr: the multiview software renderer

    A shallow embedding of the rendering core of scadr
    (src/views/orthographicCamera.ts, src/views/raytracer.ts,
    src/views/outlineView.ts, src/views/multiview.ts) and of the text
    mesh decoder (src/stl.ts), with the properties the specification
    states about them.

    Number models.  The TypeScript code computes with JavaScript
    numbers, which are binary64.  The geometry code is embedded twice.

    Over the real numbers [R] (modules [Camera], [Raytracer],
    [OutlineView], [Multiview]): [+ - * /], [Math.sqrt], [Math.exp],
    [Math.min], [Math.max] and [Math.abs] are the exact real operations,
    and [Infinity] is a separate constructor where the code uses it.
    Rounding, overflow, NaN and signed zeros are outside that model, so
    it speaks of meshes, cameras and rays with finite coordinates; it
    carries the properties that do not turn on the last bit of a
    result: which pixels are written, which neighbours are compared,
    which edges are paired, and inequalities that are not strict.

    Over binary64 (modules [Binary64], [Binary64Outline] and
    [Binary64Bounds]): the same functions with the rounded operations
    of the primitive floating-point numbers, a comparison with NaN being
    false, [Math.min] and [Math.max] returning NaN for NaN, and
    [Infinity] a value.  It carries the properties that turn on what a
    test of the code answers (hit or null, zero or not, which end point
    of an edge comes first), and the inputs on which a statement of the
    specification fails because of rounding, overflow or NaN.

    The text decoder, whose behaviour on malformed literals is the point
    of interest, has its own number type with an explicit NaN, and reads
    a buffer of ASCII bytes; the module finder reads a text of ASCII
    characters. *)

From Stdlib Require Import Reals Lra Lia ZArith List String Ascii Bool Psatz.
From Stdlib Require Floats.
Import ListNotations.

(* ================================================================== *)
(** ** JavaScript numbers as reals *)
(* ================================================================== *)

Module JS.
Open Scope R_scope.

(** Comparison operators, as booleans. *)
Definition ltb (a b : R) : bool := if Rlt_dec a b then true else false.
Definition gtb (a b : R) : bool := ltb b a.
Definition leb (a b : R) : bool := if Rle_dec a b then true else false.
Definition geb (a b : R) : bool := leb b a.
Definition eqb (a b : R) : bool := if Req_dec_T a b then true else false.

(** A number that may be [Infinity]. *)
Inductive ExtR : Type :=
| Fin (r : R)
| Infinity.

(** [a < b] where [b] may be [Infinity]. *)
Definition ltb_ext (a : R) (b : ExtR) : bool :=
  match b with
  | Fin r => ltb a r
  | Infinity => true
  end.

(** [Math.floor]. *)
Definition floor (a : R) : Z := Int_part a.

(** [Math.round]: the nearest integer, halves towards +Infinity. *)
Definition round (a : R) : Z := floor (a + 0.5).

(** [Math.trunc], and the remainder operator [%] (sign of the dividend). *)
Definition trunc (a : R) : Z :=
  if Rle_dec 0 a then floor a else (- floor (- a))%Z.
Definition rem (a m : R) : R := a - m * IZR (trunc (a / m)).
End JS.

Declare Scope js_scope.
Delimit Scope js_scope with js.
Infix "<?" := JS.ltb (at level 70, no associativity) : js_scope.
Infix ">?" := JS.gtb (at level 70, no associativity) : js_scope.
Infix "<=?" := JS.leb (at level 70, no associativity) : js_scope.
Infix ">=?" := JS.geb (at level 70, no associativity) : js_scope.
Infix "=?" := JS.eqb (at level 70, no associativity) : js_scope.

(* ================================================================== *)
(** ** src/stl.ts: the triangle type *)
(* ================================================================== *)

Section TriangleType.
Variable num : Type.

(** [[number, number, number]] *)
Definition Triple : Type := (num * num * num)%type.

Record Triangle : Type := mkTriangle {
  normal : Triple;
  vertices : Triple * Triple * Triple
}.

(** [triangle.vertices[i]] for [i] in 0..2. *)
Definition vertex (t : Triangle) (i : nat) : Triple :=
  let '(a, b, c) := vertices t in
  match i with
  | O => a
  | S O => b
  | _ => c
  end.

Record STLModel : Type := mkModel {
  modelTriangles : list Triangle;
  modelName : option string
}.
End TriangleType.

Arguments mkTriangle {num} _ _.
Arguments normal {num} _.
Arguments vertices {num} _.
Arguments vertex {num} _ _.
Arguments mkModel {num} _ _.
Arguments modelTriangles {num} _.
Arguments modelName {num} _.

(* ================================================================== *)
(** ** src/views/orthographicCamera.ts *)
(* ================================================================== *)

Module Camera.
Open Scope R_scope.
Open Scope js_scope.

Record Vector3 : Type := vec3 { vx : R; vy : R; vz : R }.

Record Ray : Type := mkRay { origin : Vector3; direction : Vector3 }.

Record OrthographicCamera : Type := mkCamera {
  position : Vector3;
  target : Vector3;
  up : Vector3;
  cam_left : R;
  cam_right : R;
  cam_bottom : R;
  cam_top : R;
  near : R;
  far : R
}.

Definition createOrthographicCamera
  (position target up : Vector3) (width height scale : R) : OrthographicCamera :=
  let halfWidth := width / 2 * scale in
  let halfHeight := height / 2 * scale in
  {| position := position;
     target := target;
     up := up;
     cam_left := - halfWidth;
     cam_right := halfWidth;
     cam_bottom := - halfHeight;
     cam_top := halfHeight;
     near := 0.1;
     far := 1000 |}.

Definition add (a b : Vector3) : Vector3 :=
  vec3 (vx a + vx b) (vy a + vy b) (vz a + vz b).

Definition subtract (a b : Vector3) : Vector3 :=
  vec3 (vx a - vx b) (vy a - vy b) (vz a - vz b).

Definition multiply (v : Vector3) (scalar : R) : Vector3 :=
  vec3 (vx v * scalar) (vy v * scalar) (vz v * scalar).

Definition dot (a b : Vector3) : R :=
  vx a * vx b + vy a * vy b + vz a * vz b.

Definition cross (a b : Vector3) : Vector3 :=
  vec3 (vy a * vz b - vz a * vy b)
       (vz a * vx b - vx a * vz b)
       (vx a * vy b - vy a * vx b).

Definition length (v : Vector3) : R :=
  sqrt (vx v * vx v + vy v * vy v + vz v * vz v).

Definition normalize (v : Vector3) : Vector3 :=
  let len := length v in
  if len =? 0 then vec3 0 0 0
  else multiply v (1 / len).

(** The camera basis [getRayForPixel] derives: forward, right, up. *)
Definition cameraForward (camera : OrthographicCamera) : Vector3 :=
  normalize (subtract (target camera) (position camera)).
Definition cameraRight (camera : OrthographicCamera) : Vector3 :=
  normalize (cross (cameraForward camera) (up camera)).
Definition cameraUp (camera : OrthographicCamera) : Vector3 :=
  cross (cameraRight camera) (cameraForward camera).

Definition getRayForPixel
  (camera : OrthographicCamera) (pixelX pixelY imageWidth imageHeight : R) : Ray :=
  let u := pixelX / imageWidth in
  let v := pixelY / imageHeight in
  let worldX := cam_left camera + u * (cam_right camera - cam_left camera) in
  let worldY := cam_bottom camera + v * (cam_top camera - cam_bottom camera) in
  let forward := cameraForward camera in
  let right := cameraRight camera in
  let up := cameraUp camera in
  let rayOrigin :=
    vec3 (vx (position camera) + worldX * vx right + worldY * vx up)
         (vy (position camera) + worldX * vy right + worldY * vy up)
         (vz (position camera) + worldX * vz right + worldY * vz up) in
  {| origin := rayOrigin; direction := forward |}.
End Camera.

(* ================================================================== *)
(** ** src/views/raytracer.ts *)
(* ================================================================== *)

Module Raytracer.
Import Camera.
Open Scope R_scope.
Open Scope js_scope.

Record Material : Type := mkMaterial {
  color : Vector3;
  ambient : R;
  diffuse : R
}.

Record RayHit : Type := mkHit {
  point : Vector3;
  hitNormal : Vector3;
  distance : R;
  material : Material
}.

Record Scene : Type := mkScene {
  triangles : list (Triangle R);
  lightPosition : Vector3;
  lightColor : Vector3;
  ambientLight : Vector3;
  backgroundColor : Vector3;
  fogColor : Vector3;
  fogDensity : R
}.

Definition createScene (triangles : list (Triangle R)) : Scene :=
  {| triangles := triangles;
     lightPosition := vec3 10 10 10;
     lightColor := vec3 1 1 1;
     ambientLight := vec3 0.3 0.3 0.3;
     backgroundColor := vec3 1 1 0.8;
     fogColor := vec3 0.9 0.9 0.7;
     fogDensity := 0.005 |}.

Definition multiplyVectors (a b : Vector3) : Vector3 :=
  vec3 (vx a * vx b) (vy a * vy b) (vz a * vz b).

Definition clampColor (c : Vector3) : Vector3 :=
  vec3 (Rmin 1 (Rmax 0 (vx c)))
       (Rmin 1 (Rmax 0 (vy c)))
       (Rmin 1 (Rmax 0 (vz c))).

(** [{ x: v[0], y: v[1], z: v[2] }] *)
Definition toVector (v : Triple R) : Vector3 :=
  let '(a, b, c) := v in vec3 a b c.

Definition min3 (a b c : R) : R := Rmin (Rmin a b) c.
Definition max3 (a b c : R) : R := Rmax (Rmax a b) c.

(** The bounding-box test at the head of [intersectRayTriangle]:
    [true] when the function returns [null] before the
    Moeller-Trumbore computation. *)
Definition boundsReject (ray : Ray) (triangle : Triangle R) : bool :=
  let v0 := toVector (vertex triangle 0) in
  let v1 := toVector (vertex triangle 1) in
  let v2 := toVector (vertex triangle 2) in
  let minX := min3 (vx v0) (vx v1) (vx v2) in
  let maxX := max3 (vx v0) (vx v1) (vx v2) in
  let minY := min3 (vy v0) (vy v1) (vy v2) in
  let maxY := max3 (vy v0) (vy v1) (vy v2) in
  let minZ := min3 (vz v0) (vz v1) (vz v2) in
  let maxZ := max3 (vz v0) (vz v1) (vz v2) in
  let o := origin ray in
  let d := direction ray in
  if (vx o <? minX - 1) || (vx o >? maxX + 1) ||
     (vy o <? minY - 1) || (vy o >? maxY + 1) ||
     (vz o <? minZ - 1) || (vz o >? maxZ + 1)
  then
    ((vx d >? 0) && (vx o >? maxX)) ||
    ((vx d <? 0) && (vx o <? minX)) ||
    ((vy d >? 0) && (vy o >? maxY)) ||
    ((vy d <? 0) && (vy o <? minY)) ||
    ((vz d >? 0) && (vz o >? maxZ)) ||
    ((vz d <? 0) && (vz o <? minZ))
  else false.

(** The determinant [a] of the Moeller-Trumbore system. *)
Definition determinant (ray : Ray) (triangle : Triangle R) : R :=
  let v0 := toVector (vertex triangle 0) in
  let v1 := toVector (vertex triangle 1) in
  let v2 := toVector (vertex triangle 2) in
  let edge1 := subtract v1 v0 in
  let edge2 := subtract v2 v0 in
  let h := cross (direction ray) edge2 in
  dot edge1 h.

(** The rest of [intersectRayTriangle], from [edge1] on. *)
Definition mollerTrumbore (ray : Ray) (triangle : Triangle R) : option RayHit :=
  let v0 := toVector (vertex triangle 0) in
  let v1 := toVector (vertex triangle 1) in
  let v2 := toVector (vertex triangle 2) in
  let edge1 := subtract v1 v0 in
  let edge2 := subtract v2 v0 in
  let h := cross (direction ray) edge2 in
  let a := dot edge1 h in
  if (a >? -0.00001) && (a <? 0.00001) then None
  else
    let f := 1 / a in
    let s := subtract (origin ray) v0 in
    let u := f * dot s h in
    if (u <? 0) || (u >? 1) then None
    else
      let q := cross s edge1 in
      let v := f * dot (direction ray) q in
      if (v <? 0) || (u + v >? 1) then None
      else
        let t := f * dot edge2 q in
        if t >? 0.00001 then
          let point := add (origin ray) (multiply (direction ray) t) in
          let normal := normalize (toVector (normal triangle)) in
          let material :=
            {| color := vec3 0.3 0.8 0.3; ambient := 0.3; diffuse := 0.7 |} in
          Some {| point := point; hitNormal := normal;
                  distance := t; material := material |}
        else None.

Definition intersectRayTriangle (ray : Ray) (triangle : Triangle R) : option RayHit :=
  if boundsReject ray triangle then None
  else mollerTrumbore ray triangle.

(** The loop of [castRay] over the triangles still to scan, with the
    two loop variables; [break] returns the hit at hand.  The
    per-triangle test is a parameter, [intersectRayTriangle] in
    [castRay]. *)
Section Scan.
Variable intersect : Ray -> Triangle R -> option RayHit.

Fixpoint scanFrom (ray : Ray) (rest : list (Triangle R))
  (closestHit : option RayHit) (closestDistance : JS.ExtR) : option RayHit :=
  match rest with
  | [] => closestHit
  | triangle :: rest' =>
      match intersect ray triangle with
      | Some hit =>
          if JS.ltb_ext (distance hit) closestDistance then
            if distance hit <? 0.001 then Some hit
            else scanFrom ray rest' (Some hit) (JS.Fin (distance hit))
          else scanFrom ray rest' closestHit closestDistance
      | None => scanFrom ray rest' closestHit closestDistance
      end
  end.
End Scan.

Definition castRay (ray : Ray) (scene : Scene) : option RayHit :=
  scanFrom intersectRayTriangle ray (triangles scene) None JS.Infinity.

(** The same scan with the Moeller-Trumbore test alone, without the
    bounding-box rejection. *)
Definition castRayPlain (ray : Ray) (scene : Scene) : option RayHit :=
  scanFrom mollerTrumbore ray (triangles scene) None JS.Infinity.

(** The terms of [calculateLighting]. *)
Definition ambientTerm (hit : RayHit) (scene : Scene) : Vector3 :=
  multiplyVectors (color (material hit)) (ambientLight scene).

Definition diffuseTerm (hit : RayHit) (scene : Scene) : Vector3 :=
  let lightDirection := normalize (subtract (lightPosition scene) (point hit)) in
  let diffuseIntensity :=
    Rmax 0 (dot (hitNormal hit) lightDirection) * diffuse (material hit) in
  multiply (multiplyVectors (color (material hit)) (lightColor scene)) diffuseIntensity.

(** [fogFactor], and the weight [1 - fogFactor] of the fog colour. *)
Definition fogFactor (scene : Scene) (hit : RayHit) : R :=
  exp (- fogDensity scene * distance hit).
Definition fogWeight (scene : Scene) (hit : RayHit) : R :=
  1 - fogFactor scene hit.

(** [calculateLighting] up to, and not including, [clampColor]. *)
Definition blendFog (hit : RayHit) (scene : Scene) (rayDirection : Vector3) : Vector3 :=
  let ambient := ambientTerm hit scene in
  let diffuse := diffuseTerm hit scene in
  let finalColor := add ambient diffuse in
  let fogFactor := fogFactor scene hit in
  add (multiply finalColor fogFactor) (multiply (fogColor scene) (1 - fogFactor)).

Definition calculateLighting (hit : RayHit) (scene : Scene) (rayDirection : Vector3) : Vector3 :=
  clampColor (blendFog hit scene rayDirection).

(** The scene with another fog density. *)
Definition withFogDensity (scene : Scene) (density : R) : Scene :=
  {| triangles := triangles scene;
     lightPosition := lightPosition scene;
     lightColor := lightColor scene;
     ambientLight := ambientLight scene;
     backgroundColor := backgroundColor scene;
     fogColor := fogColor scene;
     fogDensity := density |}.
End Raytracer.

(* ================================================================== *)
(** ** src/views/outlineView.ts *)
(* ================================================================== *)

Module OutlineView.
Import Camera Raytracer.
Open Scope R_scope.
Open Scope js_scope.

Record OutlineResult : Type := mkOutline {
  isOutline : bool;
  depth : JS.ExtR
}.

Definition depthThreshold : R := 0.1.
Definition normalThreshold : R := 0.8.

(** The four neighbours, in the order the code lists them:
    right, left, down, up. *)
Definition neighbors (pixelX pixelY : R) : list (R * R) :=
  [ (pixelX + 1, pixelY); (pixelX - 1, pixelY);
    (pixelX, pixelY + 1); (pixelX, pixelY - 1) ].

Definition outOfBounds (imageWidth imageHeight : R) (n : R * R) : bool :=
  (fst n <? 0) || (fst n >=? imageWidth) ||
  (snd n <? 0) || (snd n >=? imageHeight).

(** The [for] loop of [detectOutline] over the neighbours left. *)
Fixpoint scanNeighbors (hit : RayHit) (scene : Scene)
  (imageWidth imageHeight : R) (getRayForPixel : R -> R -> Ray)
  (ns : list (R * R)) : OutlineResult :=
  match ns with
  | [] => {| isOutline := false; depth := JS.Fin (distance hit) |}
  | neighbor :: ns' =>
      if outOfBounds imageWidth imageHeight neighbor
      then scanNeighbors hit scene imageWidth imageHeight getRayForPixel ns'
      else
        let neighborRay := getRayForPixel (fst neighbor) (snd neighbor) in
        match castRay neighborRay scene with
        | None => {| isOutline := true; depth := JS.Fin (distance hit) |}
        | Some neighborHit =>
            let depthDiff := Rabs (distance hit - distance neighborHit) in
            if depthDiff >? depthThreshold
            then {| isOutline := true; depth := JS.Fin (distance hit) |}
            else
              let normalSimilarity := dot (hitNormal hit) (hitNormal neighborHit) in
              if normalSimilarity <? normalThreshold
              then {| isOutline := true; depth := JS.Fin (distance hit) |}
              else scanNeighbors hit scene imageWidth imageHeight getRayForPixel ns'
        end
  end.

Definition detectOutline (ray : Ray) (scene : Scene)
  (pixelX pixelY imageWidth imageHeight : R)
  (getRayForPixel : R -> R -> Ray) : OutlineResult :=
  match castRay ray scene with
  | None => {| isOutline := false; depth := JS.Infinity |}
  | Some hit =>
      scanNeighbors hit scene imageWidth imageHeight getRayForPixel
        (neighbors pixelX pixelY)
  end.

(** *** Silhouette detection *)

(** The edge key.  The code builds the string
    [first[0],first[1],first[2]-second[0],second[1],second[2]]; the
    decimal form of a number determines the number, so two keys are
    the same string exactly when the six numbers agree, and the key is
    kept here as the ordered pair of triples. *)
Definition EdgeKey : Type := (Triple R * Triple R)%type.

Definition createEdgeKey (v1 v2 : Triple R) : EdgeKey :=
  let '(a0, a1, a2) := v1 in
  let '(b0, b1, b2) := v2 in
  if (a0 <? b0) ||
     ((a0 =? b0) && (a1 <? b1)) ||
     ((a0 =? b0) && (a1 =? b1) && (a2 <? b2))
  then (v1, v2) else (v2, v1).

Definition triple_eqb (p q : Triple R) : bool :=
  let '(a0, a1, a2) := p in
  let '(b0, b1, b2) := q in
  (a0 =? b0) && (a1 =? b1) && (a2 =? b2).

Definition key_eqb (k1 k2 : EdgeKey) : bool :=
  triple_eqb (fst k1) (fst k2) && triple_eqb (snd k1) (snd k2).

(** [Map<string, number[]>], in insertion order. *)
Definition EdgeMap : Type := list (EdgeKey * list nat).

(** [if (!edges.has(k)) edges.set(k, []); edges.get(k).push(triIndex)] *)
Fixpoint pushEdge (edges : EdgeMap) (k : EdgeKey) (triIndex : nat) : EdgeMap :=
  match edges with
  | [] => [(k, [triIndex])]
  | (k', l) :: edges' =>
      if key_eqb k' k then (k', l ++ [triIndex]) :: edges'
      else (k', l) :: pushEdge edges' k triIndex
  end.

(** The key of edge [i] of a triangle: from vertex [i] to vertex [(i + 1) % 3]. *)
Definition edgeKey (triangle : Triangle R) (i : nat) : EdgeKey :=
  createEdgeKey (vertex triangle i) (vertex triangle ((i + 1) mod 3)).

(** The body of the first [forEach]: the three edges of one triangle. *)
Definition addTriangleEdges (edges : EdgeMap) (triangle : Triangle R) (triIndex : nat)
  : EdgeMap :=
  fold_left (fun es i => pushEdge es (edgeKey triangle i) triIndex) [0; 1; 2]%nat edges.

(** The first [forEach], from index [triIndex] on. *)
Fixpoint buildEdgesFrom (triIndex : nat) (ts : list (Triangle R)) (edges : EdgeMap)
  : EdgeMap :=
  match ts with
  | [] => edges
  | triangle :: ts' =>
      buildEdgesFrom (S triIndex) ts' (addTriangleEdges edges triangle triIndex)
  end.

Definition buildEdges (triangles : list (Triangle R)) : EdgeMap :=
  buildEdgesFrom 0 triangles [].

(** [dot(normal, viewDirection) < 0] *)
Definition facing (viewDirection : Vector3) (triangle : Triangle R) : bool :=
  dot (toVector (normal triangle)) viewDirection <? 0.

(** [array[i] = true]; an index past the end cannot occur here, the
    map holding indices of [triangles] only. *)
Fixpoint setTrue (flags : list bool) (i : nat) : list bool :=
  match flags, i with
  | [], _ => []
  | _ :: flags', O => true :: flags'
  | b :: flags', S i' => b :: setTrue flags' i'
  end.

(** The body of the second [forEach]. *)
Definition markEdge (triangles : list (Triangle R)) (viewDirection : Vector3)
  (isSilhouette : list bool) (entry : EdgeKey * list nat) : list bool :=
  match snd entry with
  | [tri1Index; tri2Index] =>
      match nth_error triangles tri1Index, nth_error triangles tri2Index with
      | Some tri1, Some tri2 =>
          let facing1 := facing viewDirection tri1 in
          let facing2 := facing viewDirection tri2 in
          if negb (Bool.eqb facing1 facing2)
          then setTrue (setTrue isSilhouette tri1Index) tri2Index
          else isSilhouette
      | _, _ => isSilhouette
      end
  | _ => isSilhouette
  end.

Definition detectSilhouette (triangles : list (Triangle R)) (viewDirection : Vector3)
  : list bool :=
  let isSilhouette := repeat false (List.length triangles) in
  let edges := buildEdges triangles in
  fold_left (markEdge triangles viewDirection) edges isSilhouette.
End OutlineView.

(* ================================================================== *)
(** ** The canvas (the part of node-canvas the compositor uses) *)
(* ================================================================== *)

Module Canvas.
Open Scope Z_scope.

(** One pixel: red, green, blue, alpha, each 0..255. *)
Definition Pixel : Type := (Z * Z * Z * Z)%type.

(** A raster of [canvasWidth] x [canvasHeight] RGBA pixels,
    8 bits per channel. *)
Record Canvas : Type := mkCanvas {
  canvasWidth : Z;
  canvasHeight : Z;
  canvasPixel : Z -> Z -> Pixel
}.

(** [createCanvas(width, height)]: transparent black. *)
Definition createCanvas (width height : Z) : Canvas :=
  {| canvasWidth := width;
     canvasHeight := height;
     canvasPixel := fun _ _ => (0, 0, 0, 0) |}.

(** [ImageData]: [data] is a [Uint8ClampedArray] of
    [4 * width * height] bytes, row-major. *)
Record ImageData : Type := mkImageData {
  imageWidth : Z;
  imageHeight : Z;
  data : Z -> Z
}.

Definition createImageData (width height : Z) : ImageData :=
  {| imageWidth := width; imageHeight := height; data := fun _ => 0 |}.

Definition clamp8 (v : Z) : Z := Z.max 0 (Z.min 255 v).

(** [data[index] = v]: clamped to a byte; a store past the end of a
    typed array is ignored. *)
Definition store (img : ImageData) (index v : Z) : ImageData :=
  if (0 <=? index) && (index <? 4 * imageWidth img * imageHeight img)
  then {| imageWidth := imageWidth img;
          imageHeight := imageHeight img;
          data := fun i => if i =? index then clamp8 v else data img i |}
  else img.

Definition imagePixel (img : ImageData) (x y : Z) : Pixel :=
  let i := (y * imageWidth img + x) * 4 in
  (data img i, data img (i + 1), data img (i + 2), data img (i + 3)).

Definition inRect (x y w h px py : Z) : bool :=
  (x <=? px) && (px <? x + w) && (y <=? py) && (py <? y + h).

(** [ctx.putImageData(img, dx, dy)] *)
Definition putImageData (c : Canvas) (img : ImageData) (dx dy : Z) : Canvas :=
  {| canvasWidth := canvasWidth c;
     canvasHeight := canvasHeight c;
     canvasPixel := fun px py =>
       if inRect dx dy (imageWidth img) (imageHeight img) px py
       then imagePixel img (px - dx) (py - dy)
       else canvasPixel c px py |}.

(** [ctx.fillRect(x, y, w, h)] with [fillStyle = '#000000']. *)
Definition fillRectBlack (c : Canvas) (x y w h : Z) : Canvas :=
  {| canvasWidth := canvasWidth c;
     canvasHeight := canvasHeight c;
     canvasPixel := fun px py =>
       if inRect x y w h px py then (0, 0, 0, 255)
       else canvasPixel c px py |}.
End Canvas.

(* ================================================================== *)
(** ** src/views/multiview.ts *)
(* ================================================================== *)

Record MultiviewOptions : Type := mkOptions {
  width : Z;
  height : Z;
  outputPath : string
}.

(** What [fs.writeFile(options.outputPath, canvas.toBuffer('image/png'))]
    leaves behind: the path, and the raster the PNG encodes. *)
Record ImageFile : Type := mkImageFile {
  filePath : string;
  image : Canvas.Canvas
}.

(** What the two versions of multiview.ts share. *)
Module MultiviewCommon.
Import Camera Raytracer OutlineView Canvas.
Open Scope R_scope.
Open Scope js_scope.

Record View : Type := mkView {
  viewName : string;
  viewPosition : Vector3;
  viewTarget : Vector3;
  viewUp : Vector3;
  canvasX : Z;
  canvasY : Z
}.

Record Bounds : Type := mkBounds { bmin : Vector3; bmax : Vector3 }.

(** One step of the inner loop of [calculateBounds]. *)
Definition growBounds (b : Bounds) (v : Triple R) : Bounds :=
  let '(x, y, z) := v in
  {| bmin := vec3 (Rmin (vx (bmin b)) x) (Rmin (vy (bmin b)) y) (Rmin (vz (bmin b)) z);
     bmax := vec3 (Rmax (vx (bmax b)) x) (Rmax (vy (bmax b)) y) (Rmax (vz (bmax b)) z) |}.

Definition triangleVertices (t : Triangle R) : list (Triple R) :=
  [vertex t 0; vertex t 1; vertex t 2].

(** [calculateBounds].  The code starts from [Infinity] and
    [-Infinity]; as [Math.min(Infinity, x)] and
    [Math.max(-Infinity, x)] are [x], the fold starts here from the
    first vertex. *)
Definition calculateBounds (triangles : list (Triangle R)) : Bounds :=
  match triangles with
  | [] => {| bmin := vec3 (-1) (-1) (-1); bmax := vec3 1 1 1 |}
  | first :: _ =>
      fold_left growBounds (flat_map triangleVertices triangles)
        {| bmin := toVector (vertex first 0); bmax := toVector (vertex first 0) |}
  end.

(** [for (let i = 0; i < limit; i += step)]: the values of [i]. *)
Definition steps (limit step : Z) : list Z :=
  map (fun k => (Z.of_nat k * step)%Z)
      (seq 0 (Z.to_nat ((limit + step - 1) / step))).

(** [for (let d = 0; d < step && base + d < limit; d++)]: the values
    of [d]. *)
Definition blockOffsets (base step limit : Z) : list Z :=
  filter (fun d => (base + d <? limit)%Z) (map Z.of_nat (seq 0 (Z.to_nat step))).

(** The four stores of one pixel. *)
Definition storePixel (img : ImageData) (px py : Z) (color : Vector3) : ImageData :=
  let pixelIndex := ((py * imageWidth img + px) * 4)%Z in
  let img := store img pixelIndex (JS.round (vx color * 255)) in
  let img := store img (pixelIndex + 1) (JS.round (vy color * 255)) in
  let img := store img (pixelIndex + 2) (JS.round (vz color * 255)) in
  store img (pixelIndex + 3) 255.

(** The block of [step] x [step] pixels of one sample. *)
Definition fillBlock (img : ImageData) (x y step : Z) (color : Vector3) : ImageData :=
  fold_left
    (fun img dy =>
       fold_left
         (fun img dx => storePixel img (x + dx) (y + dy) color)
         (blockOffsets x step (imageWidth img)) img)
    (blockOffsets y step (imageHeight img)) img.

Definition step : Z := 2.

(** [renderView], for a given way of colouring one sample. *)
Definition renderViewWith
  (sample : Scene -> OrthographicCamera -> Z -> Z -> Z -> Z -> Vector3)
  (ctx : Canvas) (scene : Scene) (camera : OrthographicCamera)
  (width height offsetX offsetY : Z) : Canvas :=
  let imageData := createImageData width height in
  let imageData :=
    fold_left
      (fun img y =>
         fold_left
           (fun img x => fillBlock img x y step (sample scene camera x y width height))
           (steps width step) img)
      (steps height step) imageData in
  putImageData ctx imageData offsetX offsetY.

(** The loop over the views. *)
Definition renderViews
  (sample : Scene -> OrthographicCamera -> Z -> Z -> Z -> Z -> Vector3)
  (ctx : Canvas) (scene : Scene) (views : list View)
  (viewWidth viewHeight : Z) (scale : R) : Canvas :=
  fold_left
    (fun ctx view =>
       let camera :=
         createOrthographicCamera (viewPosition view) (viewTarget view) (viewUp view)
           (IZR viewWidth) (IZR viewHeight) scale in
       renderViewWith sample ctx scene camera viewWidth viewHeight
         (canvasX view) (canvasY view))
    views ctx.

Definition boundsCenter (bounds : Bounds) : Vector3 :=
  vec3 ((vx (bmin bounds) + vx (bmax bounds)) / 2)
       ((vy (bmin bounds) + vy (bmax bounds)) / 2)
       ((vz (bmin bounds) + vz (bmax bounds)) / 2).

Definition maxDimension (bounds : Bounds) : R :=
  max3 (vx (bmax bounds) - vx (bmin bounds))
       (vy (bmax bounds) - vy (bmin bounds))
       (vz (bmax bounds) - vz (bmin bounds)).
End MultiviewCommon.

(** src/views/multiview.ts, the version with outlines, the
    world-space grid and the borders. *)
Module Multiview.
Import Camera Raytracer OutlineView Canvas MultiviewCommon.
Open Scope R_scope.
Open Scope js_scope.

Definition viewWidth : Z := 1600.
Definition viewHeight : Z := 1200.

Definition getBackgroundColorWorldSpace (ray : Ray) (baseColor : Vector3) : Vector3 :=
  let gridSize := 1 in
  let lineWidth := 0.05 in
  if Rabs (vz (direction ray)) <? 0.001 then baseColor
  else
    let t := - vz (origin ray) / vz (direction ray) in
    if t <? 0 then baseColor
    else
      let ix := vx (origin ray) + t * vx (direction ray) in
      let iy := vy (origin ray) + t * vy (direction ray) in
      let x := Rabs (JS.rem ix gridSize) in
      let y := Rabs (JS.rem iy gridSize) in
      let onGridX := (x <? lineWidth) || (x >? gridSize - lineWidth) in
      let onGridY := (y <? lineWidth) || (y >? gridSize - lineWidth) in
      if onGridX || onGridY
      then vec3 (vx baseColor * 0.85) (vy baseColor * 0.85) (vz baseColor * 0.85)
      else baseColor.

(** The colour of the sample at [(x, y)]: the body of the pixel loop
    of [renderView] up to the block fill. *)
Definition sample (scene : Scene) (camera : OrthographicCamera)
  (x y width height : Z) : Vector3 :=
  let ray := getRayForPixel camera (IZR x) (IZR y) (IZR width) (IZR height) in
  match castRay ray scene with
  | Some hit =>
      let outline :=
        detectOutline ray scene (IZR x) (IZR y) (IZR width) (IZR height)
          (fun px py => getRayForPixel camera px py (IZR width) (IZR height)) in
      if isOutline outline then vec3 0 0 0
      else calculateLighting hit scene (direction ray)
  | None => getBackgroundColorWorldSpace ray (backgroundColor scene)
  end.

Definition renderView := renderViewWith sample.

Definition drawViewBorders (ctx : Canvas) (viewWidth viewHeight : Z) : Canvas :=
  let borderThickness := 8%Z in
  let centerX := viewWidth in
  let ctx := fillRectBlack ctx (centerX - borderThickness / 2) 0
               borderThickness (viewHeight * 2) in
  let centerY := viewHeight in
  let ctx := fillRectBlack ctx 0 (centerY - borderThickness / 2)
               (viewWidth * 2) borderThickness in
  let totalWidth := (viewWidth * 2)%Z in
  let totalHeight := (viewHeight * 2)%Z in
  let ctx := fillRectBlack ctx 0 0 totalWidth borderThickness in
  let ctx := fillRectBlack ctx 0 (totalHeight - borderThickness)
               totalWidth borderThickness in
  let ctx := fillRectBlack ctx 0 0 borderThickness totalHeight in
  fillRectBlack ctx (totalWidth - borderThickness) 0 borderThickness totalHeight.

Definition views (center : Vector3) (maxDimension : R) : list View :=
  [ {| viewName := "top";
       viewPosition := vec3 (vx center) (vy center) (vz center + maxDimension * 2);
       viewTarget := center;
       viewUp := vec3 0 1 0;
       canvasX := 0; canvasY := 0 |};
    {| viewName := "perspective";
       viewPosition := vec3 (vx center + maxDimension * 1.5)
                            (vy center + maxDimension * 1.5)
                            (vz center + maxDimension * 2.0);
       viewTarget := center;
       viewUp := vec3 0 1 0;
       canvasX := viewWidth; canvasY := 0 |};
    {| viewName := "side";
       viewPosition := vec3 (vx center - maxDimension * 2) (vy center) (vz center);
       viewTarget := center;
       viewUp := vec3 0 0 1;
       canvasX := 0; canvasY := viewHeight |};
    {| viewName := "front";
       viewPosition := vec3 (vx center) (vy center - maxDimension * 2) (vz center);
       viewTarget := center;
       viewUp := vec3 0 0 1;
       canvasX := viewWidth; canvasY := viewHeight |} ].

Definition generateMultiview (models : list (STLModel R)) (options : MultiviewOptions)
  : ImageFile :=
  let totalWidth := (viewWidth * 2)%Z in
  let totalHeight := (viewHeight * 2)%Z in
  let ctx := createCanvas totalWidth totalHeight in
  let allTriangles := flat_map modelTriangles models in
  let scene := createScene allTriangles in
  let bounds := calculateBounds allTriangles in
  let center := boundsCenter bounds in
  let maxDimension := maxDimension bounds in
  let scale := maxDimension / IZR (Z.min viewWidth viewHeight) * 2.0 in
  let ctx := renderViews sample ctx scene (views center maxDimension)
               viewWidth viewHeight scale in
  let ctx := drawViewBorders ctx viewWidth viewHeight in
  {| filePath := outputPath options; image := ctx |}.
End Multiview.

(** src/views/multiview.ts, the version without outlines and
    borders, with the grid in pixel space. *)
Module MultiviewPlain.
Import Camera Raytracer Canvas MultiviewCommon.
Open Scope R_scope.
Open Scope js_scope.

Definition viewWidth : Z := 400.
Definition viewHeight : Z := 300.

Definition getBackgroundColor (x y width height : Z) (baseColor : Vector3) : Vector3 :=
  let gridSize := 40%Z in
  let lineWidth := 1%Z in
  let onGridX := (Z.rem x gridSize <? lineWidth)%Z in
  let onGridY := (Z.rem y gridSize <? lineWidth)%Z in
  if onGridX || onGridY
  then vec3 (vx baseColor * 0.9) (vy baseColor * 0.9) (vz baseColor * 0.9)
  else baseColor.

Definition sample (scene : Scene) (camera : OrthographicCamera)
  (x y width height : Z) : Vector3 :=
  let ray := getRayForPixel camera (IZR x) (IZR y) (IZR width) (IZR height) in
  match castRay ray scene with
  | Some hit => calculateLighting hit scene (direction ray)
  | None => getBackgroundColor x y width height (backgroundColor scene)
  end.

Definition renderView := renderViewWith sample.

Definition views (center : Vector3) (maxDimension : R) : list View :=
  [ {| viewName := "top";
       viewPosition := vec3 (vx center) (vy center) (vz center + maxDimension * 2);
       viewTarget := center;
       viewUp := vec3 0 1 0;
       canvasX := 0; canvasY := 0 |};
    {| viewName := "perspective";
       viewPosition := vec3 (vx center + maxDimension * 1.5)
                            (vy center + maxDimension * 1.5)
                            (vz center + maxDimension * 1.5);
       viewTarget := center;
       viewUp := vec3 0 0 1;
       canvasX := viewWidth; canvasY := 0 |};
    {| viewName := "side";
       viewPosition := vec3 (vx center - maxDimension * 2) (vy center) (vz center);
       viewTarget := center;
       viewUp := vec3 0 0 1;
       canvasX := 0; canvasY := viewHeight |};
    {| viewName := "front";
       viewPosition := vec3 (vx center) (vy center - maxDimension * 2) (vz center);
       viewTarget := center;
       viewUp := vec3 0 0 1;
       canvasX := viewWidth; canvasY := viewHeight |} ].

Definition generateMultiview (models : list (STLModel R)) (options : MultiviewOptions)
  : ImageFile :=
  let totalWidth := (viewWidth * 2)%Z in
  let totalHeight := (viewHeight * 2)%Z in
  let ctx := createCanvas totalWidth totalHeight in
  let allTriangles := flat_map modelTriangles models in
  let scene := createScene allTriangles in
  let bounds := calculateBounds allTriangles in
  let center := boundsCenter bounds in
  let maxDimension := maxDimension bounds in
  let scale := maxDimension / IZR (Z.min viewWidth viewHeight) * 1.2 in
  let ctx := renderViews sample ctx scene (views center maxDimension)
               viewWidth viewHeight scale in
  {| filePath := outputPath options; image := ctx |}.
End MultiviewPlain.

(* ================================================================== *)
(** ** src/stl.ts: the text decoder *)
(* ================================================================== *)

Module Stl.
Open Scope string_scope.

(** The numbers [parseFloat] yields: NaN, an infinity, or the decimal
    [(-1)^negative * mantissa * 10^exponent] (the value before it is
    rounded to binary64). *)
Inductive Number : Type :=
| NaN
| Inf (negative : bool)
| Dec (negative : bool) (mantissa : N) (exponent : Z).

(** What a call leaves: a value, or a thrown [TypeError]. *)
Inductive Outcome (A : Type) : Type :=
| Return (a : A)
| ThrowTypeError.
Arguments Return {A} _.
Arguments ThrowTypeError {A}.

(** *** The string operations of the JavaScript runtime *)

(** White space of the ASCII range, as [\s] and [trim] see it:
    tab, line feed, vertical tab, form feed, carriage return, space. *)
Definition isSpace (c : ascii) : bool :=
  let n := N_of_ascii c in
  ((9 <=? n) && (n <=? 13) || (n =? 32))%N.

(** [s.split('\n')] *)
Fixpoint splitLines (s : string) : list string :=
  match s with
  | EmptyString => [EmptyString]
  | String c s' =>
      if Ascii.eqb c "010"%char then EmptyString :: splitLines s'
      else
        match splitLines s' with
        | l :: ls => String c l :: ls
        | [] => [String c EmptyString]
        end
  end.

Fixpoint trimStart (s : string) : string :=
  match s with
  | EmptyString => EmptyString
  | String c s' => if isSpace c then trimStart s' else s
  end.

Fixpoint trimEnd (s : string) : string :=
  match s with
  | EmptyString => EmptyString
  | String c s' =>
      match trimEnd s' with
      | EmptyString => if isSpace c then EmptyString else String c EmptyString
      | r => String c r
      end
  end.

(** [s.trim()] *)
Definition trim (s : string) : string := trimEnd (trimStart s).

(** [s.split(/\s+/)]; [inRun] says that the character before was
    white space. *)
Fixpoint splitRuns (inRun : bool) (s : string) : list string :=
  match s with
  | EmptyString => [EmptyString]
  | String c s' =>
      if isSpace c then
        if inRun then splitRuns true s'
        else EmptyString :: splitRuns true s'
      else
        match splitRuns false s' with
        | l :: ls => String c l :: ls
        | [] => [String c EmptyString]
        end
  end.

Definition splitWhitespace (s : string) : list string := splitRuns false s.

(** [s.startsWith(p)] *)
Definition startsWith (p s : string) : bool := String.prefix p s.

(** [parts.slice(n)] *)
Definition slice (n : nat) (parts : list string) : list string := skipn n parts.

(** *** [parseFloat] *)

Definition digitOf (c : ascii) : option N :=
  let n := N_of_ascii c in
  if ((48 <=? n) && (n <=? 57))%N then Some (n - 48)%N else None.

(** The longest run of digits at the head of [s], read on top of
    [acc]: the value, the number of digits, the rest. *)
Fixpoint readDigits (s : string) (acc : N) (count : nat) : N * nat * string :=
  match s with
  | EmptyString => (acc, count, s)
  | String c s' =>
      match digitOf c with
      | Some d => readDigits s' (acc * 10 + d)%N (S count)
      | None => (acc, count, s)
      end
  end.

Definition readSign (s : string) : bool * string :=
  match s with
  | String "-" s' => (true, s')
  | String "+" s' => (false, s')
  | _ => (false, s)
  end.

(** The exponent part at the head of [s], if there is one, and the
    rest. *)
Definition readExponent (s : string) : Z * string :=
  match s with
  | String c s' =>
      if Ascii.eqb c "e"%char || Ascii.eqb c "E"%char then
        let (neg, s'') := readSign s' in
        let '(v, n, rest) := readDigits s'' 0%N 0%nat in
        match n with
        | O => (0%Z, s)
        | _ => ((if neg then - Z.of_N v else Z.of_N v)%Z, rest)
        end
      else (0%Z, s)
  | EmptyString => (0%Z, s)
  end.

(** The longest prefix of [s] that is a decimal literal, after
    leading white space: its value, and the rest of [s]. *)
Definition scanFloat (s : string) : Number * string :=
  let s0 := trimStart s in
  let (neg, s1) := readSign s0 in
  if startsWith "Infinity" s1 then (Inf neg, substring 8 (String.length s1 - 8) s1)
  else
    let '(ip, ni, s2) := readDigits s1 0%N 0%nat in
    let '(m, nf, s3) :=
      match s2 with
      | String "." s2' => readDigits s2' ip 0%nat
      | _ => (ip, 0%nat, s2)
      end in
    match (ni + nf)%nat with
    | O => (NaN, s)
    | _ =>
        let (e, s4) := readExponent s3 in
        (Dec neg m (e - Z.of_nat nf)%Z, s4)
    end.

(** [parseFloat(x)]; [None] is [undefined], which reads as NaN. *)
Definition parseFloat (x : option string) : Number :=
  match x with
  | None => NaN
  | Some s => fst (scanFloat s)
  end.

(** A field is a floating-point literal when [parseFloat] reads a
    number from all of it. *)
Definition isFloatLiteral (s : string) : bool :=
  match scanFloat s with
  | (NaN, _) => false
  | (_, EmptyString) => true
  | _ => false
  end.

(** *** [parseASCIISTL] *)

(** [[parseFloat(parts[0]), parseFloat(parts[1]), parseFloat(parts[2])]] *)
Definition readTriple (parts : list string) : Triple Number :=
  (parseFloat (nth_error parts 0),
   parseFloat (nth_error parts 1),
   parseFloat (nth_error parts 2)).

Definition isFacet (line : string) : bool := startsWith "facet normal" line.

(** The first loop: the index of the first line that starts a facet,
    from index [i] on, or the number of lines. *)
Fixpoint skipHeader (lines : list string) (i : nat) : nat :=
  match lines with
  | [] => i
  | line :: lines' => if isFacet line then i else skipHeader lines' (S i)
  end.

(** The second loop, [while (i < lines.length)], with its loop
    variables; [fuel] bounds the number of iterations, and [None] is
    a run that used it up. *)
Fixpoint parseFacets (fuel : nat) (lines : list string) (i : nat)
  (triangles : list (Triangle Number))
  : option (Outcome (list (Triangle Number))) :=
  match nth_error lines i with
  | None => Some (Return triangles)
  | Some line =>
      match fuel with
      | O => None
      | S fuel' =>
          if isFacet line then
            let normalParts := slice 2 (splitWhitespace line) in
            let normal := readTriple normalParts in
            let i := (i + 2)%nat in
            match nth_error lines i,
                  nth_error lines (i + 1),
                  nth_error lines (i + 2) with
            | Some l0, Some l1, Some l2 =>
                let vertices :=
                  (readTriple (slice 1 (splitWhitespace l0)),
                   readTriple (slice 1 (splitWhitespace l1)),
                   readTriple (slice 1 (splitWhitespace l2))) in
                parseFacets fuel' lines (i + 3 + 2)
                  (triangles ++ [mkTriangle normal vertices])
            | _, _, _ => Some ThrowTypeError
            end
          else parseFacets fuel' lines (i + 1) triangles
      end
  end.

(** [parseASCIISTL]; the buffer is its text. *)
Definition parseASCIISTL (buffer : string)
  : option (Outcome (STLModel Number)) :=
  let lines := map trim (splitLines buffer) in
  let i := skipHeader lines 0 in
  match parseFacets (List.length lines) lines i [] with
  | Some (Return triangles) => Some (Return (mkModel triangles None))
  | Some ThrowTypeError => Some ThrowTypeError
  | None => None
  end.
End Stl.

(* ================================================================== *)
(** ** Inputs to try the definitions on *)
(* ================================================================== *)

Module Examples.
Import Camera Raytracer.
Open Scope R_scope.

(** A scene to try the detector on: one triangle in the plane z = 0,
    seen from above by parallel rays. *)
Definition floorTriangle : Triangle R :=
  mkTriangle (0, 0, 1) ((0, 0, 0), (10, 0, 0), (0, 10, 0)).


End Examples.

(* ================================================================== *)
(** ** The vocabulary of the specification *)
(* ================================================================== *)

Module Spec.
Import Camera Raytracer.
Open Scope R_scope.
Open Scope js_scope.



End Spec.

(** *** Edges and their triangles *)

Module EdgeSpec.
Import Camera Raytracer OutlineView.

(** The edge occurrences of a mesh: for each triangle, from index
    [triIndex] on, its three edges, each with the index of the
    triangle. *)
Definition edgeSlots (triIndex : nat) (t : Triangle R) : list (EdgeKey * nat) :=
  map (fun e => (edgeKey t e, triIndex)) [0; 1; 2]%nat.

Fixpoint occurrencesFrom (triIndex : nat) (ts : list (Triangle R))
  : list (EdgeKey * nat) :=
  match ts with
  | [] => []
  | t :: ts' => edgeSlots triIndex t ++ occurrencesFrom (S triIndex) ts'
  end.

(** The indices of the triangles that own the occurrences of the edge
    [k] among [occs], one entry for each occurrence. *)
Definition ownersIn (k : EdgeKey) (occs : list (EdgeKey * nat)) : list nat :=
  map snd (filter (fun o => key_eqb (fst o) k) occs).

Definition owners (k : EdgeKey) (ts : list (Triangle R)) : list nat :=
  ownersIn k (occurrencesFrom 0 ts).

(** The triangles [j1] and [j2] of the mesh face the view direction
    differently. *)
Definition disagree (viewDirection : Vector3) (ts : list (Triangle R)) (j1 j2 : nat)
  : Prop :=
  exists t1 t2,
    nth_error ts j1 = Some t1 /\ nth_error ts j2 = Some t2 /\
    facing viewDirection t1 <> facing viewDirection t2.

(** The triangle [t] has an edge that occurs exactly twice in the
    mesh, in triangles that face the view direction differently. *)
Definition onTwiceOccurringEdge (viewDirection : Vector3) (ts : list (Triangle R))
  (t : Triangle R) : Prop :=
  exists e j1 j2,
    (e < 3)%nat /\ owners (edgeKey t e) ts = [j1; j2] /\
    disagree viewDirection ts j1 j2.

(** The value of the map at a key: the list of its entry, or no
    index when the key has no entry. *)
Fixpoint lookup (k : EdgeKey) (edges : EdgeMap) : list nat :=
  match edges with
  | [] => []
  | (k', l) :: edges' => if key_eqb k' k then l else lookup k edges'
  end.

(** No key has two entries. *)
Definition distinctKeys (edges : EdgeMap) : Prop := NoDup (map fst edges).

(** The second pass sets the flag of [i] for the list [l] of an entry:
    [l] has two indices, [i] is one of them, and the two triangles face
    the view direction differently. *)
Definition fires (viewDirection : Vector3) (ts : list (Triangle R)) (l : list nat)
  (i : nat) : Prop :=
  exists j1 j2,
    l = [j1; j2] /\ disagree viewDirection ts j1 j2 /\ (i = j1 \/ i = j2).

(** A triangle on the plane z = 0, and the view from above. *)
Definition proper : Triangle R :=
  mkTriangle (0, 0, 1) ((0, 0, 0), (1, 0, 0), (0, 1, 0)).
Definition fromAbove : Vector3 := vec3 0 0 (-1).
End EdgeSpec.

(** *** Text meshes, record by record *)

Module StlSpec.
Import Stl.
Open Scope string_scope.

(** The seven lines of a facet record, as the decoder steps over them:
    the [facet normal] line, the loop opening, three vertex lines, and
    the two closing lines. *)
Record FacetText : Type := mkFacetText {
  facetLine : string;
  loopLine : string;
  vertexLine0 : string;
  vertexLine1 : string;
  vertexLine2 : string;
  endloopLine : string;
  endfacetLine : string
}.

Definition recordLines (r : FacetText) : list string :=
  [facetLine r; loopLine r; vertexLine0 r; vertexLine1 r; vertexLine2 r;
   endloopLine r; endfacetLine r].

(** The triangle of a record: [parseFloat] of the fields after
    [facet normal], and of the fields after the first of each vertex
    line. *)
Definition recordTriangle (r : FacetText) : Triangle Number :=
  mkTriangle
    (readTriple (slice 2 (splitWhitespace (facetLine r))))
    (readTriple (slice 1 (splitWhitespace (vertexLine0 r))),
     readTriple (slice 1 (splitWhitespace (vertexLine1 r))),
     readTriple (slice 1 (splitWhitespace (vertexLine2 r)))).

Definition notFacet (line : string) : Prop := isFacet line = false.
Definition opensFacet (r : FacetText) : Prop := isFacet (facetLine r) = true.

Definition newline : string := String "010"%char EmptyString.

(** A mesh of one facet with two malformed literals: [abc] in the
    normal, [x.5] in the last vertex. *)
Definition badFacet : FacetText :=
  {| facetLine := "facet normal 0 0 abc";
     loopLine := "outer loop";
     vertexLine0 := "vertex 0 0 0";
     vertexLine1 := "vertex 1.5e2 -0.25 0";
     vertexLine2 := "vertex 0 x.5 0";
     endloopLine := "endloop";
     endfacetLine := "endfacet" |}.

Definition badLiteralMesh : string :=
  String.concat newline
    [ "solid t";
      "facet normal 0 0 abc";
      "  outer loop";
      "    vertex 0 0 0";
      "    vertex 1.5e2 -0.25 0";
      "    vertex 0 x.5 0";
      "  endloop";
      "endfacet";
      "endsolid t";
      "" ].
End StlSpec.

(* ================================================================== *)
(** ** src/views/raytracer.ts: the grid test *)
(* ================================================================== *)

Module RaytracerPlane.
Import Camera Raytracer.
Open Scope R_scope.
Open Scope js_scope.

Definition isOnGrid (point : Vector3) : bool :=
  let gridSize := 1 in
  let lineWidth := 0.05 in
  let x := Rabs (JS.rem (vx point) gridSize) in
  let y := Rabs (JS.rem (vy point) gridSize) in
  (x <? lineWidth) || (x >? gridSize - lineWidth) ||
  (y <? lineWidth) || (y >? gridSize - lineWidth).

(** A number is within 0.05 of an integer. *)
Definition nearInteger (a : R) : Prop := exists n : Z, Rabs (a - IZR n) < 0.05.
End RaytracerPlane.

(** *** The ground grid *)

Module GridSpec.
Import Camera Raytracer.
Open Scope R_scope.

(** Where a ray meets the plane z = 0: the parameter along the ray, and
    the x and y coordinates of the point. *)
Definition groundParameter (ray : Ray) : R :=
  - vz (origin ray) / vz (direction ray).
Definition groundX (ray : Ray) : R :=
  vx (origin ray) + groundParameter ray * vx (direction ray).
Definition groundY (ray : Ray) : R :=
  vy (origin ray) + groundParameter ray * vy (direction ray).

(** The colour of a grid line over a base colour. *)
Definition darkened (baseColor : Vector3) : Vector3 :=
  vec3 (vx baseColor * 0.85) (vy baseColor * 0.85) (vz baseColor * 0.85).
End GridSpec.

(** *** Outlines *)

Module OutlineSpec.
Import Camera Raytracer OutlineView EdgeSpec.
Open Scope R_scope.


(** The number of indices the map holds. *)
Definition indexCount (edges : EdgeMap) : nat :=
  List.length (List.concat (map snd edges)).

(** Two triangles over the edge from (0,0,0) to (1,0,0), one facing
    up and one facing down. *)
Definition lower : Triangle R :=
  mkTriangle (0, 0, -1) ((0, 0, 0), (1, 0, 0), (0, -1, 0)).
Definition foldMesh : list (Triangle R) := [proper; lower].
End OutlineSpec.

(** *** The picture *)

Module PictureSpec.
Import Camera Raytracer Canvas MultiviewCommon.
Open Scope R_scope.

(** The pixel at column [x] and row [y] is a pixel of the image. *)
Definition inImage (img : ImageData) (x y : Z) : Prop :=
  (0 <= x < imageWidth img /\ 0 <= y < imageHeight img)%Z.

(** The pixel [renderView] stores for a colour. *)
Definition pixelOf (color : Vector3) : Pixel :=
  (clamp8 (JS.round (vx color * 255)),
   clamp8 (JS.round (vy color * 255)),
   clamp8 (JS.round (vz color * 255)),
   255%Z).

(** The corner of the block of two by two pixels a pixel is in. *)
Definition blockOf (p : Z) : Z := (2 * (p / 2))%Z.

Definition black : Pixel := (0, 0, 0, 255)%Z.

(** A pixel of the canvas is on one of the bars: the two bars through
    the middle, 4 pixels to each side, or the frame of 8 pixels. *)
Definition onBars (viewWidth viewHeight x y : Z) : Prop :=
  (0 <= x < 2 * viewWidth /\ 0 <= y < 2 * viewHeight /\
   (viewWidth - 4 <= x < viewWidth + 4 \/
    viewHeight - 4 <= y < viewHeight + 4 \/
    x < 8 \/ 2 * viewWidth - 8 <= x \/
    y < 8 \/ 2 * viewHeight - 8 <= y))%Z.
End PictureSpec.

(** *** The four views of the picture *)

Module ViewSpec.
Import Camera Raytracer Canvas MultiviewCommon PictureSpec.
Open Scope R_scope.

(** The scene, the views and the scale [generateMultiview] derives
    from the models. *)
Definition multiviewScene (models : list (STLModel R)) : Scene :=
  createScene (flat_map modelTriangles models).

Definition multiviewViews (models : list (STLModel R)) : list View :=
  let bounds := calculateBounds (flat_map modelTriangles models) in
  Multiview.views (boundsCenter bounds) (maxDimension bounds).

Definition multiviewScale (models : list (STLModel R)) : R :=
  maxDimension (calculateBounds (flat_map modelTriangles models))
  / IZR (Z.min Multiview.viewWidth Multiview.viewHeight) * 2.0.

Definition viewCamera (models : list (STLModel R)) (view : View) : OrthographicCamera :=
  createOrthographicCamera (viewPosition view) (viewTarget view) (viewUp view)
    (IZR Multiview.viewWidth) (IZR Multiview.viewHeight) (multiviewScale models).

(** The pixel of the canvas at [(x, y)], as the view [view] paints
    it. *)
Definition tilePixel (models : list (STLModel R)) (view : View) (x y : Z) : Pixel :=
  pixelOf
    (Multiview.sample (multiviewScene models) (viewCamera models view)
       (blockOf (x - canvasX view)) (blockOf (y - canvasY view))
       Multiview.viewWidth Multiview.viewHeight).

(** The pixel [(x, y)] of the canvas is in the quarter of the
    view. *)
Definition inQuarter (view : View) (x y : Z) : Prop :=
  (canvasX view <= x < canvasX view + Multiview.viewWidth /\
   canvasY view <= y < canvasY view + Multiview.viewHeight)%Z.
End ViewSpec.

(* ================================================================== *)
(** ** src/stl.ts: the binary decoder and the choice of decoder *)
(* ================================================================== *)

Module StlBinary.
Import Stl.
Open Scope string_scope.

(** What a call leaves: a value, or a thrown error. *)
Inductive ErrorKind : Type :=
| TypeError
| RangeError.

Inductive Completion (A : Type) : Type :=
| Normal (a : A)
| Throw (e : ErrorKind).
Arguments Normal {A} _.
Arguments Throw {A} _.

Definition bind {A B : Type} (c : Completion A) (k : A -> Completion B)
  : Completion B :=
  match c with
  | Normal a => k a
  | Throw e => Throw e
  end.

Notation "x <- c ;; k" := (bind c (fun x => k))
  (at level 61, c at next level, right associativity).

(** The byte of a buffer at an index, if the buffer is that long.  A
    buffer is kept as the string of its bytes. *)
Definition byteAt (buffer : string) (i : nat) : option N :=
  option_map N_of_ascii (nth_error (list_ascii_of_string buffer) i).

(** [buffer.readUInt32LE(offset)]: a [RangeError] when the four bytes
    are not all there. *)
Definition readUInt32LE (buffer : string) (offset : nat) : Completion N :=
  match byteAt buffer offset, byteAt buffer (offset + 1),
        byteAt buffer (offset + 2), byteAt buffer (offset + 3) with
  | Some b0, Some b1, Some b2, Some b3 =>
      Normal (b0 + 256 * b1 + 65536 * b2 + 16777216 * b3)%N
  | _, _, _, _ => Throw RangeError
  end.

(** The number a 32-bit pattern stands for as an IEEE 754 single: the
    sign in bit 31, the exponent in bits 23 to 30, the fraction in
    bits 0 to 22.  A binary fraction [m * 2^e] with [e < 0] is the decimal
    [m * 5^(-e) * 10^e]. *)
Definition float32Value (bits : N) : Number :=
  let negative := (2147483648 <=? bits)%N in
  let e := ((bits / 8388608) mod 256)%N in
  let m := (bits mod 8388608)%N in
  if (e =? 255)%N then
    if (m =? 0)%N then Inf negative else NaN
  else if (e =? 0)%N then Dec negative (m * 5 ^ 149)%N (-149)%Z
  else if (150 <=? e)%N then Dec negative ((8388608 + m) * 2 ^ (e - 150))%N 0%Z
  else Dec negative ((8388608 + m) * 5 ^ (150 - e))%N (Z.of_N e - 150)%Z.

(** [buffer.readFloatLE(offset)] *)
Definition readFloatLE (buffer : string) (offset : nat) : Completion Number :=
  bits <- readUInt32LE buffer offset ;;
  Normal (float32Value bits).

(** Three floats in a row. *)
Definition readVector (buffer : string) (offset : nat) : Completion (Triple Number) :=
  a <- readFloatLE buffer offset ;;
  b <- readFloatLE buffer (offset + 4) ;;
  c <- readFloatLE buffer (offset + 8) ;;
  Normal (a, b, c).

(** The loop of [parseBinarySTL], with [count] triangles still to
    read. *)
Fixpoint readTriangles (count : nat) (buffer : string) (offset : nat)
  (triangles : list (Triangle Number)) : Completion (list (Triangle Number)) :=
  match count with
  | O => Normal triangles
  | S count' =>
      normal <- readVector buffer offset ;;
      let offset := (offset + 12)%nat in
      v0 <- readVector buffer offset ;;
      v1 <- readVector buffer (offset + 12) ;;
      v2 <- readVector buffer (offset + 24) ;;
      let offset := (offset + 36)%nat in
      let offset := (offset + 2)%nat in
      readTriangles count' buffer offset
        (triangles ++ [mkTriangle normal (v0, v1, v2)])
  end.

Definition parseBinarySTL (buffer : string) : Completion (STLModel Number) :=
  let offset := 80%nat in
  numTriangles <- readUInt32LE buffer offset ;;
  let offset := (offset + 4)%nat in
  triangles <- readTriangles (N.to_nat numTriangles) buffer offset [] ;;
  Normal (mkModel triangles None).

(** [buffer.toString('ascii', 0, 5)]: the first five bytes, each
    without its highest bit. *)
Fixpoint toAscii (s : string) : string :=
  match s with
  | EmptyString => EmptyString
  | String c s' => String (ascii_of_N (N.land (N_of_ascii c) 127)) (toAscii s')
  end.

(** [parseSTL], from the bytes of the file on. *)
Definition parseSTL (buffer : string) : option (Completion (STLModel Number)) :=
  let header := toAscii (substring 0 5 buffer) in
  if String.eqb header "solid" then
    match parseASCIISTL buffer with
    | Some (Return model) => Some (Normal model)
    | Some ThrowTypeError => Some (Throw TypeError)
    | None => None
    end
  else Some (parseBinarySTL buffer).
End StlBinary.

(** *** The layout of a binary mesh *)

Module BinarySpec.
Import Stl StlBinary.

(** The four bytes of a 32-bit pattern, the lowest first. *)
Definition le32 (n : N) : list ascii :=
  [ ascii_of_N (n mod 256);
    ascii_of_N ((n / 256) mod 256);
    ascii_of_N ((n / 65536) mod 256);
    ascii_of_N ((n / 16777216) mod 256) ].

(** A record of a binary mesh: the twelve 32-bit patterns of the
    normal and the three vertices, and the two attribute bytes. *)
Record BinaryFacet : Type := mkBinaryFacet {
  normalBits : N * N * N;
  vertexBits : (N * N * N) * (N * N * N) * (N * N * N);
  attribute : ascii * ascii
}.

Definition vectorBytes (v : N * N * N) : list ascii :=
  let '(a, b, c) := v in le32 a ++ le32 b ++ le32 c.

Definition facetBytes (f : BinaryFacet) : list ascii :=
  let '(v0, v1, v2) := vertexBits f in
  vectorBytes (normalBits f) ++ vectorBytes v0 ++ vectorBytes v1 ++ vectorBytes v2
  ++ [fst (attribute f); snd (attribute f)].

Definition vectorValue (v : N * N * N) : Triple Number :=
  let '(a, b, c) := v in (float32Value a, float32Value b, float32Value c).

Definition facetTriangle (f : BinaryFacet) : Triangle Number :=
  let '(v0, v1, v2) := vertexBits f in
  mkTriangle (vectorValue (normalBits f))
    (vectorValue v0, vectorValue v1, vectorValue v2).

(** Every pattern of the record is one of 32 bits. *)
Definition fits32 (v : N * N * N) : Prop :=
  let '(a, b, c) := v in (a < 4294967296 /\ b < 4294967296 /\ c < 4294967296)%N.

Definition facetFits (f : BinaryFacet) : Prop :=
  let '(v0, v1, v2) := vertexBits f in
  fits32 (normalBits f) /\ fits32 v0 /\ fits32 v1 /\ fits32 v2.

(** The bytes of a binary mesh: a header, the count, the records, and
    whatever follows. *)
Definition binaryMesh (header : list ascii) (facets : list BinaryFacet)
  (rest : list ascii) : string :=
  string_of_list_ascii
    (header ++ le32 (N.of_nat (List.length facets))
     ++ flat_map facetBytes facets ++ rest).

(** A facet with the corners (0,0,0), (1,0,0), (0,1,0) and the
    normal (0,0,1). *)
Definition unitFacet : BinaryFacet :=
  {| normalBits := (0, 0, 1065353216)%N;
     vertexBits := ((0, 0, 0), (1065353216, 0, 0), (0, 1065353216, 0))%N;
     attribute := (zero, zero) |}.

Definition blankHeader : list ascii := repeat " "%char 80.
End BinarySpec.

(** *** Text meshes: line ends, and binary meshes read as text *)

Module TextSpec.
Import Stl StlSpec StlBinary BinarySpec.
Open Scope string_scope.

Fixpoint hasNewline (s : string) : bool :=
  match s with
  | EmptyString => false
  | String c s' => Ascii.eqb c "010"%char || hasNewline s'
  end.

(** A line: a string with no line feed in it. *)
Definition oneLine (line : string) : Prop := hasNewline line = false.

Definition lineFeed : string := String "010"%char EmptyString.
Definition carriageReturnLineFeed : string :=
  String "013"%char (String "010"%char EmptyString).

(** A buffer of bytes below 128: its UTF-8 text has one character for
    each byte, of the same code. *)
Definition asciiText (buffer : string) : Prop :=
  Forall (fun c => (N_of_ascii c < 128)%N) (list_ascii_of_string buffer).

(** A header of 80 bytes that starts with [solid]. *)
Definition solidHeader : list ascii :=
  list_ascii_of_string "solid" ++ repeat " "%char 75.

(** A facet with the corners (0,0,0), (2,0,0), (0,2,0) and the
    normal (0,0,2); the pattern of 2 is 0x40000000. *)
Definition twoFacet : BinaryFacet :=
  {| normalBits := (0, 0, 1073741824)%N;
     vertexBits := ((0, 0, 0), (1073741824, 0, 0), (0, 1073741824, 0))%N;
     attribute := (zero, zero) |}.

(** A text mesh cut off after the first vertex of its second facet. *)
Definition cutMesh : list string :=
  [ "solid t";
    "facet normal 0 0 1";
    "  outer loop";
    "    vertex 0 0 0";
    "    vertex 1 0 0";
    "    vertex 0 1 0";
    "  endloop";
    "endfacet";
    "facet normal 0 0 1";
    "  outer loop";
    "    vertex 0 0 0" ].

Definition wholeFacet : FacetText :=
  {| facetLine := "facet normal 0 0 1";
     loopLine := "outer loop";
     vertexLine0 := "vertex 0 0 0";
     vertexLine1 := "vertex 1 0 0";
     vertexLine2 := "vertex 0 1 0";
     endloopLine := "endloop";
     endfacetLine := "endfacet" |}.
End TextSpec.

(* ================================================================== *)
(** ** src/modules.ts and the naming conventions of src/types.ts *)
(* ================================================================== *)

Module Modules.
Open Scope string_scope.

(** The keys of [conventions], and the values of [options.convention]. *)
Inductive ConventionType : Type :=
| pascal
| all
| underscore.

Inductive ConventionOption : Type :=
| auto
| named (convention : ConventionType).

(** *** The three regular expressions

    [/^module ([A-Z]\w+)/gm], [/^module (\w+)/gm] and
    [/^module ([^_]\w+)/gm], on a text of ASCII characters. *)

Definition inRange (lo hi : N) (c : ascii) : bool :=
  ((lo <=? N_of_ascii c) && (N_of_ascii c <=? hi))%N.

(** [[A-Z]] *)
Definition isUpper (c : ascii) : bool := inRange 65 90 c.

(** [\w]: a letter, a digit or the underscore. *)
Definition isWord (c : ascii) : bool :=
  inRange 97 122 c || inRange 65 90 c || inRange 48 57 c || Ascii.eqb c "_"%char.

(** [[^_]] *)
Definition notUnderscore (c : ascii) : bool := negb (Ascii.eqb c "_"%char).

(** The characters after which [^] matches under the [m] flag. *)
Definition isLineTerminator (c : ascii) : bool :=
  Ascii.eqb c "010"%char || Ascii.eqb c "013"%char.

(** The longest run of word characters at the start of a text: what a
    greedy [\w+] takes when the expression ends after it. *)
Fixpoint wordRun (s : string) : string :=
  match s with
  | EmptyString => EmptyString
  | String c s' => if isWord c then String c (wordRun s') else EmptyString
  end.

Definition nonEmpty (w : string) : option string :=
  match w with
  | EmptyString => None
  | _ => Some w
  end.

(** One character of a class and then [\w+]. *)
Definition classThenWord (class : ascii -> bool) (s : string) : option string :=
  match s with
  | EmptyString => None
  | String a s' =>
      if class a then option_map (String a) (nonEmpty (wordRun s')) else None
  end.

(** The group of each expression, matched at the start of a text. *)
Definition group (convention : ConventionType) (s : string) : option string :=
  match convention with
  | pascal => classThenWord isUpper s
  | all => nonEmpty (wordRun s)
  | underscore => classThenWord notUnderscore s
  end.

(** What is left of a text after a literal at its start. *)
Fixpoint stripPrefix (p s : string) : option string :=
  match p, s with
  | EmptyString, _ => Some s
  | String a p', String b s' => if Ascii.eqb a b then stripPrefix p' s' else None
  | String _ _, EmptyString => None
  end.

(** A match of [module (...)] at the start of a text: its group. *)
Definition matchAt (convention : ConventionType) (s : string) : option string :=
  match stripPrefix "module " s with
  | Some r => group convention r
  | None => None
  end.

(** [[...fileContent.matchAll(rgx)].map(g => g[1])]: the text is gone
    through from left to right; a match is tried where a line starts,
    and the search for the next match goes on after the end of the match,
    [skip] being the number of characters of the match still to pass. *)
Fixpoint matchAllFrom (convention : ConventionType) (lineStart : bool) (skip : nat)
  (s : string) : list string :=
  match s with
  | EmptyString => []
  | String a s' =>
      match skip with
      | S k => matchAllFrom convention (isLineTerminator a) k s'
      | O =>
          if lineStart then
            match matchAt convention s with
            | Some name =>
                name :: matchAllFrom convention (isLineTerminator a)
                          (String.length "module " + String.length name - 1) s'
            | None => matchAllFrom convention (isLineTerminator a) 0 s'
            end
          else matchAllFrom convention (isLineTerminator a) 0 s'
      end
  end.

Definition findModules (fileContent : string) (rgx : ConventionType) : list string :=
  matchAllFrom rgx true 0 fileContent.

(** [getPartsToRender], from the content of the file on. *)
Definition getPartsToRender (fileContent : string) (convention : ConventionOption)
  : list string :=
  match convention with
  | auto =>
      let allModules := findModules fileContent all in
      let pascalModules := findModules fileContent pascal in
      let underscore := findModules fileContent underscore in
      if (0 <? List.length pascalModules)%nat
         && (List.length pascalModules <? List.length allModules)%nat
      then pascalModules
      else if (0 <? List.length underscore)%nat
              && (List.length underscore <? List.length allModules)%nat
      then underscore
      else allModules
  | named c => findModules fileContent c
  end.
End Modules.

(** *** Files of module declarations *)

Module ModulesSpec.
Import Modules.
Open Scope string_scope.

Fixpoint allWord (s : string) : bool :=
  match s with
  | EmptyString => true
  | String c s' => isWord c && allWord s'
  end.

(** What a name found under a convention looks like. *)
Definition nameShape (convention : ConventionType) (name : string) : Prop :=
  match convention with
  | pascal =>
      exists a w, name = String a w /\ isUpper a = true /\ w <> "" /\ allWord w = true
  | all => name <> "" /\ allWord name = true
  | underscore =>
      exists a w, name = String a w /\ a <> "_"%char /\ w <> "" /\ allWord w = true
  end.

Fixpoint hasLineTerminator (s : string) : bool :=
  match s with
  | EmptyString => false
  | String c s' => isLineTerminator c || hasLineTerminator s'
  end.

(** A text that does not go on with a word character. *)
Definition stops (s : string) : bool :=
  match s with
  | EmptyString => true
  | String c _ => negb (isWord c)
  end.

(** The lines of a file: a declaration [module name...] at the start of
    the line, or a line that does not start with [module ]. *)
Inductive Line : Type :=
| Declaration (name rest : string)
| Other (text : string).

Definition lineText (l : Line) : string :=
  match l with
  | Declaration name rest => "module " ++ name ++ rest
  | Other text => text
  end.

Definition wellFormed (l : Line) : Prop :=
  match l with
  | Declaration name rest =>
      name <> "" /\ allWord name = true /\
      stops rest = true /\ hasLineTerminator rest = false
  | Other text =>
      stripPrefix "module " text = None /\ hasLineTerminator text = false
  end.

Definition declared (l : Line) : list string :=
  match l with
  | Declaration name _ => [name]
  | Other _ => []
  end.

Definition fileOf (lines : list Line) : string :=
  String.concat (String "010"%char EmptyString) (map lineText lines).

(** The names a convention takes: all of them; those of two characters
    or more that start with a capital letter; those of two characters or
    more that do not start with an underscore. *)
Definition accepts (convention : ConventionType) (name : string) : bool :=
  match convention, name with
  | all, _ => true
  | pascal, String a (String _ _) => isUpper a
  | underscore, String a (String _ _) => notUnderscore a
  | _, _ => false
  end.

(** The choice of [getPartsToRender] among the declared names. *)
Definition chosen (convention : ConventionOption) (names : list string) : list string :=
  match convention with
  | named c => filter (accepts c) names
  | auto =>
      let p := filter (accepts pascal) names in
      let u := filter (accepts underscore) names in
      if (0 <? List.length p)%nat && (List.length p <? List.length names)%nat then p
      else if (0 <? List.length u)%nat && (List.length u <? List.length names)%nat then u
      else names
  end.

(** A file to try the conventions on. *)
Definition demoFile : list Line :=
  [ Other "$fn = 360;";
    Declaration "demo" "() {";
    Other "  Alpha();";
    Other "}";
    Declaration "Alpha" "() { sphere(1); }";
    Declaration "_beta" "() { cube(1); }";
    Other "  module Inner() {}";
    Declaration "B" "();" ].
End ModulesSpec.

(* ================================================================== *)
(** ** The geometry code over binary64 numbers *)
(* ================================================================== *)

(** The same functions of orthographicCamera.ts and raytracer.ts with
    the numbers the code computes with: every [+ - * /] and [Math.sqrt]
    is the rounded operation of IEEE 754 binary64, a comparison with
    NaN is false, and [Infinity], NaN and the two zeros are values.
    [Math.exp], which the language leaves to the implementation, is a
    parameter. *)

Module Binary64.
Import PrimFloat.
#[local] Set Warnings "-inexact-float".
#[local] Open Scope float_scope.

Record Vector3 : Type := vec3 { vx : float; vy : float; vz : float }.

Record Ray : Type := mkRay { origin : Vector3; direction : Vector3 }.

Record OrthographicCamera : Type := mkCamera {
  position : Vector3;
  target : Vector3;
  up : Vector3;
  cam_left : float;
  cam_right : float;
  cam_bottom : float;
  cam_top : float;
  near : float;
  far : float
}.

Definition createOrthographicCamera
  (position target up : Vector3) (width height scale : float) : OrthographicCamera :=
  let halfWidth := width / 2 * scale in
  let halfHeight := height / 2 * scale in
  {| position := position;
     target := target;
     up := up;
     cam_left := - halfWidth;
     cam_right := halfWidth;
     cam_bottom := - halfHeight;
     cam_top := halfHeight;
     near := 0.1;
     far := 1000 |}.

Definition add (a b : Vector3) : Vector3 :=
  vec3 (vx a + vx b) (vy a + vy b) (vz a + vz b).

Definition subtract (a b : Vector3) : Vector3 :=
  vec3 (vx a - vx b) (vy a - vy b) (vz a - vz b).

Definition multiply (v : Vector3) (scalar : float) : Vector3 :=
  vec3 (vx v * scalar) (vy v * scalar) (vz v * scalar).

Definition dot (a b : Vector3) : float :=
  vx a * vx b + vy a * vy b + vz a * vz b.

Definition cross (a b : Vector3) : Vector3 :=
  vec3 (vy a * vz b - vz a * vy b)
       (vz a * vx b - vx a * vz b)
       (vx a * vy b - vy a * vx b).

Definition length (v : Vector3) : float :=
  sqrt (vx v * vx v + vy v * vy v + vz v * vz v).

Definition normalize (v : Vector3) : Vector3 :=
  let len := length v in
  if len =? 0 then vec3 0 0 0
  else multiply v (1 / len).

(** The camera basis [getRayForPixel] derives: forward, right, up. *)
Definition cameraForward (camera : OrthographicCamera) : Vector3 :=
  normalize (subtract (target camera) (position camera)).
Definition cameraRight (camera : OrthographicCamera) : Vector3 :=
  normalize (cross (cameraForward camera) (up camera)).
Definition cameraUp (camera : OrthographicCamera) : Vector3 :=
  cross (cameraRight camera) (cameraForward camera).

Definition getRayForPixel
  (camera : OrthographicCamera) (pixelX pixelY imageWidth imageHeight : float) : Ray :=
  let u := pixelX / imageWidth in
  let v := pixelY / imageHeight in
  let worldX := cam_left camera + u * (cam_right camera - cam_left camera) in
  let worldY := cam_bottom camera + v * (cam_top camera - cam_bottom camera) in
  let forward := cameraForward camera in
  let right := cameraRight camera in
  let up := cameraUp camera in
  let rayOrigin :=
    vec3 (vx (position camera) + worldX * vx right + worldY * vx up)
         (vy (position camera) + worldX * vy right + worldY * vy up)
         (vz (position camera) + worldX * vz right + worldY * vz up) in
  {| origin := rayOrigin; direction := forward |}.

(** [Math.min] and [Math.max] of two numbers: NaN when one of them is
    NaN, and -0 below +0. *)
Definition Math_min (a b : float) : float :=
  if is_nan a || is_nan b then nan
  else if a <? b then a
  else if b <? a then b
  else if is_zero a && get_sign b then b
  else a.

Definition Math_max (a b : float) : float :=
  if is_nan a || is_nan b then nan
  else if a <? b then b
  else if b <? a then a
  else if is_zero a && get_sign a then b
  else a.

(** [Math.min(a, b, c)] and [Math.max(a, b, c)] *)
Definition min3 (a b c : float) : float := Math_min (Math_min a b) c.
Definition max3 (a b c : float) : float := Math_max (Math_max a b) c.

Record Material : Type := mkMaterial {
  color : Vector3;
  ambient : float;
  diffuse : float
}.

Record RayHit : Type := mkHit {
  point : Vector3;
  hitNormal : Vector3;
  distance : float;
  material : Material
}.

Record Scene : Type := mkScene {
  triangles : list (Triangle float);
  lightPosition : Vector3;
  lightColor : Vector3;
  ambientLight : Vector3;
  backgroundColor : Vector3;
  fogColor : Vector3;
  fogDensity : float
}.

Definition createScene (triangles : list (Triangle float)) : Scene :=
  {| triangles := triangles;
     lightPosition := vec3 10 10 10;
     lightColor := vec3 1 1 1;
     ambientLight := vec3 0.3 0.3 0.3;
     backgroundColor := vec3 1 1 0.8;
     fogColor := vec3 0.9 0.9 0.7;
     fogDensity := 0.005 |}.

Definition multiplyVectors (a b : Vector3) : Vector3 :=
  vec3 (vx a * vx b) (vy a * vy b) (vz a * vz b).

Definition clampColor (c : Vector3) : Vector3 :=
  vec3 (Math_min 1 (Math_max 0 (vx c)))
       (Math_min 1 (Math_max 0 (vy c)))
       (Math_min 1 (Math_max 0 (vz c))).

(** [{ x: v[0], y: v[1], z: v[2] }] *)
Definition toVector (v : Triple float) : Vector3 :=
  let '(a, b, c) := v in vec3 a b c.

(** The bounding-box test at the head of [intersectRayTriangle]:
    [true] when the function returns [null] before the
    Moeller-Trumbore computation. *)
Definition boundsReject (ray : Ray) (triangle : Triangle float) : bool :=
  let v0 := toVector (vertex triangle 0) in
  let v1 := toVector (vertex triangle 1) in
  let v2 := toVector (vertex triangle 2) in
  let minX := min3 (vx v0) (vx v1) (vx v2) in
  let maxX := max3 (vx v0) (vx v1) (vx v2) in
  let minY := min3 (vy v0) (vy v1) (vy v2) in
  let maxY := max3 (vy v0) (vy v1) (vy v2) in
  let minZ := min3 (vz v0) (vz v1) (vz v2) in
  let maxZ := max3 (vz v0) (vz v1) (vz v2) in
  let o := origin ray in
  let d := direction ray in
  if (vx o <? minX - 1) || (maxX + 1 <? vx o) ||
     (vy o <? minY - 1) || (maxY + 1 <? vy o) ||
     (vz o <? minZ - 1) || (maxZ + 1 <? vz o)
  then
    ((0 <? vx d) && (maxX <? vx o)) ||
    ((vx d <? 0) && (vx o <? minX)) ||
    ((0 <? vy d) && (maxY <? vy o)) ||
    ((vy d <? 0) && (vy o <? minY)) ||
    ((0 <? vz d) && (maxZ <? vz o)) ||
    ((vz d <? 0) && (vz o <? minZ))
  else false.

(** The determinant [a] of the Moeller-Trumbore system, as the code
    computes it. *)
Definition determinant (ray : Ray) (triangle : Triangle float) : float :=
  let v0 := toVector (vertex triangle 0) in
  let v1 := toVector (vertex triangle 1) in
  let v2 := toVector (vertex triangle 2) in
  let edge1 := subtract v1 v0 in
  let edge2 := subtract v2 v0 in
  let h := cross (direction ray) edge2 in
  dot edge1 h.

(** The rest of [intersectRayTriangle], from [edge1] on; [x > y] is
    written [y <? x]. *)
Definition mollerTrumbore (ray : Ray) (triangle : Triangle float) : option RayHit :=
  let v0 := toVector (vertex triangle 0) in
  let v1 := toVector (vertex triangle 1) in
  let v2 := toVector (vertex triangle 2) in
  let edge1 := subtract v1 v0 in
  let edge2 := subtract v2 v0 in
  let h := cross (direction ray) edge2 in
  let a := dot edge1 h in
  if (-0.00001 <? a) && (a <? 0.00001) then None
  else
    let f := 1 / a in
    let s := subtract (origin ray) v0 in
    let u := f * dot s h in
    if (u <? 0) || (1 <? u) then None
    else
      let q := cross s edge1 in
      let v := f * dot (direction ray) q in
      if (v <? 0) || (1 <? u + v) then None
      else
        let t := f * dot edge2 q in
        if 0.00001 <? t then
          let point := add (origin ray) (multiply (direction ray) t) in
          let normal := normalize (toVector (normal triangle)) in
          let material :=
            {| color := vec3 0.3 0.8 0.3; ambient := 0.3; diffuse := 0.7 |} in
          Some {| point := point; hitNormal := normal;
                  distance := t; material := material |}
        else None.

Definition intersectRayTriangle (ray : Ray) (triangle : Triangle float) : option RayHit :=
  if boundsReject ray triangle then None
  else mollerTrumbore ray triangle.

(** The loop of [castRay] over the triangles still to scan, with the
    two loop variables; [break] returns the hit at hand.  The
    per-triangle test is a parameter, [intersectRayTriangle] in
    [castRay]. *)
Section Scan.
Variable intersect : Ray -> Triangle float -> option RayHit.

Fixpoint scanFrom (ray : Ray) (rest : list (Triangle float))
  (closestHit : option RayHit) (closestDistance : float) : option RayHit :=
  match rest with
  | [] => closestHit
  | triangle :: rest' =>
      match intersect ray triangle with
      | Some hit =>
          if distance hit <? closestDistance then
            if distance hit <? 0.001 then Some hit
            else scanFrom ray rest' (Some hit) (distance hit)
          else scanFrom ray rest' closestHit closestDistance
      | None => scanFrom ray rest' closestHit closestDistance
      end
  end.
End Scan.

Definition castRay (ray : Ray) (scene : Scene) : option RayHit :=
  scanFrom intersectRayTriangle ray (triangles scene) None infinity.

(** The same scan with the Moeller-Trumbore test alone, without the
    bounding-box rejection. *)
Definition castRayPlain (ray : Ray) (scene : Scene) : option RayHit :=
  scanFrom mollerTrumbore ray (triangles scene) None infinity.

(** [calculateLighting]; [Math_exp] stands for [Math.exp]. *)
Section Lighting.
Variable Math_exp : float -> float.

Definition fogFactor (scene : Scene) (hit : RayHit) : float :=
  Math_exp (- fogDensity scene * distance hit).

(** The weight [1 - fogFactor] of the fog colour. *)
Definition fogWeight (scene : Scene) (hit : RayHit) : float :=
  1 - fogFactor scene hit.

Definition calculateLighting (hit : RayHit) (scene : Scene) (rayDirection : Vector3)
  : Vector3 :=
  let ambient := multiplyVectors (color (material hit)) (ambientLight scene) in
  let lightDirection := normalize (subtract (lightPosition scene) (point hit)) in
  let diffuseIntensity :=
    Math_max 0 (dot (hitNormal hit) lightDirection) * diffuse (material hit) in
  let diffuse :=
    multiply (multiplyVectors (color (material hit)) (lightColor scene))
             diffuseIntensity in
  let finalColor := add ambient diffuse in
  let fogFactor := fogFactor scene hit in
  let finalColor :=
    add (multiply finalColor fogFactor) (multiply (fogColor scene) (1 - fogFactor)) in
  clampColor finalColor.
End Lighting.

(** The scene with another fog density. *)
Definition withFogDensity (scene : Scene) (density : float) : Scene :=
  {| triangles := triangles scene;
     lightPosition := lightPosition scene;
     lightColor := lightColor scene;
     ambientLight := ambientLight scene;
     backgroundColor := backgroundColor scene;
     fogColor := fogColor scene;
     fogDensity := density |}.
End Binary64.

(** *** The order of binary64 numbers *)

Module FloatOrder.
Import SpecFloat.

(** The place in the order of a number that is not NaN: its sign class,
    then its exponent and its mantissa (negated for a negative number).
    The two zeros have the same place. *)
Definition rank (x : spec_float) : Z * Z * Z :=
  match x with
  | S754_nan => (0, 0, 0)
  | S754_infinity true => (-2, 0, 0)
  | S754_infinity false => (2, 0, 0)
  | S754_zero _ => (0, 0, 0)
  | S754_finite true m e => (-1, - e, - Zpos m)
  | S754_finite false m e => (1, e, Zpos m)
  end%Z.

Definition below (p q : Z * Z * Z) : Prop :=
  let '(a1, a2, a3) := p in
  let '(b1, b2, b3) := q in
  (a1 < b1 \/ (a1 = b1 /\ (a2 < b2 \/ (a2 = b2 /\ a3 < b3))))%Z.

Definition isNumber (x : spec_float) : Prop := x <> S754_nan.

(** The place of a binary64 number, and its being a number. *)
Definition place (x : PrimFloat.float) : Z * Z * Z := rank (FloatOps.Prim2SF x).
Definition number (x : PrimFloat.float) : Prop := isNumber (FloatOps.Prim2SF x).
End FloatOrder.

(** *** What [castRay] scans, over binary64 numbers *)

Module Binary64Spec.
Import PrimFloat.
Import Binary64.
#[local] Set Warnings "-inexact-float".
#[local] Open Scope float_scope.

(** The intersections of a ray with the triangles of [ts], in the
    order of [ts]. *)
Definition hitsOf (ray : Ray) (ts : list (Triangle float)) : list RayHit :=
  flat_map
    (fun t => match intersectRayTriangle ray t with
              | Some hit => [hit]
              | None => []
              end)
    ts.

(** The triangles a scan examines: those of [ts] up to and including
    the first whose hit is accepted (it is closer than [closest], the
    closest distance so far) and is under 0.001. *)
Fixpoint scannedFrom (ray : Ray) (ts : list (Triangle float)) (closest : float)
  : list (Triangle float) :=
  match ts with
  | [] => []
  | t :: ts' =>
      match intersectRayTriangle ray t with
      | Some hit =>
          if distance hit <? closest then
            if distance hit <? 0.001 then [t]
            else t :: scannedFrom ray ts' (distance hit)
          else t :: scannedFrom ray ts' closest
      | None => t :: scannedFrom ray ts' closest
      end
  end.

Definition scanned (ray : Ray) (ts : list (Triangle float)) : list (Triangle float) :=
  scannedFrom ray ts infinity.

(** The loop variables of [castRay] go together: the distance is that
    of the hit, or [Infinity] when there is none. *)
Definition inStep (closestHit : option RayHit) (closestDistance : float) : Prop :=
  match closestHit with
  | None => closestDistance = infinity
  | Some c => closestDistance = distance c
  end.

(** [hit] is the first of the hits [hs] at the least distance: it is
    nearer than every hit before it, and no hit after it is nearer. *)
Definition firstNearest (hit : RayHit) (hs : list RayHit) : Prop :=
  exists before after,
    hs = before ++ hit :: after /\
    (forall h, In h before -> (distance hit <? distance h) = true) /\
    (forall h, In h after -> (distance h <? distance hit) = false).

(** A thin plate at depth [z] under the plane z = 0, and a ray that
    looks down on it from that plane. *)
Definition plate (z : float) : Triangle float :=
  mkTriangle (0, 0, 1) ((0, 0, - z), (1, 0, - z), (0, 1, - z)).

Definition probe : Ray :=
  {| origin := vec3 0.25 0.25 0; direction := vec3 0 0 (-1) |}.

(** A triangle with corners at 1e100, and a ray that looks down on it
    from the height 1e109: the distance of the hit overflows. *)
Definition hugeTriangle : Triangle float :=
  mkTriangle (0, 0, 1) ((0, 0, 0), (1e100, 0, 0), (0, 1e100, 0)).

Definition farRay : Ray :=
  {| origin := vec3 1 1 1e109; direction := vec3 0 0 (-1) |}.

(** A channel of a colour: a number from 0 to 1, or NaN. *)
Definition unitOrNaN (c : float) : Prop :=
  is_nan c = true \/ ((0 <=? c) = true /\ (c <=? 1) = true).
End Binary64Spec.

(** *** The same points as reals and as binary64 numbers *)

Module Exact.
Import PrimFloat.
#[local] Set Warnings "-inexact-float".
#[local] Open Scope float_scope.

(** The binary64 number nearest to an integer: the integer itself when
    it is under 2^53 in magnitude. *)
Definition ofZ (z : Z) : float :=
  FloatOps.SF2Prim (SpecFloat.binary_normalize FloatOps.prec FloatOps.emax z 0 false).

Definition ZPoint : Type := (Z * Z * Z)%type.

Definition realVector (p : ZPoint) : Camera.Vector3 :=
  let '(x, y, z) := p in Camera.vec3 (IZR x) (IZR y) (IZR z).
Definition floatVector (p : ZPoint) : Binary64.Vector3 :=
  let '(x, y, z) := p in Binary64.vec3 (ofZ x) (ofZ y) (ofZ z).

Definition realTriple (p : ZPoint) : Triple R :=
  let '(x, y, z) := p in (IZR x, IZR y, IZR z).
Definition floatTriple (p : ZPoint) : Triple float :=
  let '(x, y, z) := p in (ofZ x, ofZ y, ofZ z).

(** A triangle and a ray given by integer points: the corners of the
    triangle (its normal field is left at (0,0,1)), the origin and the
    direction of the ray. *)
Definition realTriangle (t : ZPoint * ZPoint * ZPoint) : Triangle R :=
  let '(a, b, c) := t in
  mkTriangle (0%R, 0%R, 1%R) (realTriple a, realTriple b, realTriple c).
Definition floatTriangle (t : ZPoint * ZPoint * ZPoint) : Triangle float :=
  let '(a, b, c) := t in
  mkTriangle (0, 0, 1) (floatTriple a, floatTriple b, floatTriple c).

Definition realRay (r : ZPoint * ZPoint) : Camera.Ray :=
  Camera.mkRay (realVector (fst r)) (realVector (snd r)).
Definition floatRay (r : ZPoint * ZPoint) : Binary64.Ray :=
  Binary64.mkRay (floatVector (fst r)) (floatVector (snd r)).

(** A triangle, and a ray in its plane: the direction is minus the sum
    of the two edges at the first corner, the origin the first corner
    plus a quarter of each of the two edges. *)
Definition slantTriangle : ZPoint * ZPoint * ZPoint :=
  ((419632, -1677256, -654480),
   (697388, 840788, 1674564),
   (1938108, -21844, 667356))%Z.

Definition slantRay : ZPoint * ZPoint :=
  ((868690, -633892, 258240), (-1796232, -4173456, -3650880))%Z.



(** A camera that looks along its up vector, from the origin to
    (3,5,7), and one that looks down the z axis with the z axis as its up
    vector. *)
Definition slantCamera : Binary64.OrthographicCamera :=
  Binary64.createOrthographicCamera
    (Binary64.vec3 0 0 0) (Binary64.vec3 3 5 7) (Binary64.vec3 3 5 7) 400 300 0.01.

Definition axisCamera : Binary64.OrthographicCamera :=
  Binary64.createOrthographicCamera
    (Binary64.vec3 0 0 5) (Binary64.vec3 0 0 0) (Binary64.vec3 0 0 1) 400 300 0.01.

End Exact.

(* ================================================================== *)
(** ** src/views/outlineView.ts: the silhouette over binary64 numbers *)
(* ================================================================== *)

(** [detectSilhouette] and [createEdgeKey] with the numbers the code
    has.  A coordinate of a mesh can be NaN, an infinity or -0 (the
    decoders return them), a comparison with NaN is false, and the
    facing test is the rounded dot product. *)

Module Binary64Outline.
Import PrimFloat.
Import Binary64.
#[local] Open Scope float_scope.

(** The text of a number in a template literal.  The decimal form of a
    number determines the number, but for -0, which prints as [0] (and
    NaN prints as [NaN]); the text is kept here as the number, with 0
    for -0, so that two numbers have the same text exactly when these
    are the same. *)
Definition text (x : float) : float := if is_zero x then 0 else x.

Definition textOf (v : Triple float) : Triple float :=
  let '(a, b, c) := v in (text a, text b, text c).

(** The edge key.  The code builds the string
    [first[0],first[1],first[2]-second[0],second[1],second[2]]: two
    keys are the same string exactly when the six texts agree, and the
    key is kept here as the ordered pair of the triples of texts. *)
Definition EdgeKey : Type := (Triple float * Triple float)%type.

(** The test of [createEdgeKey]: [v1] comes first. *)
Definition comesFirst (v1 v2 : Triple float) : bool :=
  let '(a0, a1, a2) := v1 in
  let '(b0, b1, b2) := v2 in
  (a0 <? b0) ||
  ((a0 =? b0) && (a1 <? b1)) ||
  ((a0 =? b0) && (a1 =? b1) && (a2 <? b2)).

Definition createEdgeKey (v1 v2 : Triple float) : EdgeKey :=
  if comesFirst v1 v2 then (textOf v1, textOf v2) else (textOf v2, textOf v1).

(** Two keys are the same string. *)
Definition triple_eqb (p q : Triple float) : bool :=
  let '(a0, a1, a2) := p in
  let '(b0, b1, b2) := q in
  Leibniz.eqb a0 b0 && Leibniz.eqb a1 b1 && Leibniz.eqb a2 b2.

Definition key_eqb (k1 k2 : EdgeKey) : bool :=
  triple_eqb (fst k1) (fst k2) && triple_eqb (snd k1) (snd k2).

(** [Map<string, number[]>], in insertion order. *)
Definition EdgeMap : Type := list (EdgeKey * list nat).

(** [if (!edges.has(k)) edges.set(k, []); edges.get(k).push(triIndex)] *)
Fixpoint pushEdge (edges : EdgeMap) (k : EdgeKey) (triIndex : nat) : EdgeMap :=
  match edges with
  | [] => [(k, [triIndex])]
  | (k', l) :: edges' =>
      if key_eqb k' k then (k', l ++ [triIndex]) :: edges'
      else (k', l) :: pushEdge edges' k triIndex
  end.

(** The key of edge [i] of a triangle: from vertex [i] to vertex [(i + 1) % 3]. *)
Definition edgeKey (triangle : Triangle float) (i : nat) : EdgeKey :=
  createEdgeKey (vertex triangle i) (vertex triangle ((i + 1) mod 3)).

(** The body of the first [forEach]: the three edges of one triangle. *)
Definition addTriangleEdges (edges : EdgeMap) (triangle : Triangle float) (triIndex : nat)
  : EdgeMap :=
  fold_left (fun es i => pushEdge es (edgeKey triangle i) triIndex) [0; 1; 2]%nat edges.

(** The first [forEach], from index [triIndex] on. *)
Fixpoint buildEdgesFrom (triIndex : nat) (ts : list (Triangle float)) (edges : EdgeMap)
  : EdgeMap :=
  match ts with
  | [] => edges
  | triangle :: ts' =>
      buildEdgesFrom (S triIndex) ts' (addTriangleEdges edges triangle triIndex)
  end.

Definition buildEdges (triangles : list (Triangle float)) : EdgeMap :=
  buildEdgesFrom 0 triangles [].

(** [dot(normal, viewDirection) < 0] *)
Definition facing (viewDirection : Vector3) (triangle : Triangle float) : bool :=
  dot (toVector (normal triangle)) viewDirection <? 0.

(** The body of the second [forEach]. *)
Definition markEdge (triangles : list (Triangle float)) (viewDirection : Vector3)
  (isSilhouette : list bool) (entry : EdgeKey * list nat) : list bool :=
  match snd entry with
  | [tri1Index; tri2Index] =>
      match nth_error triangles tri1Index, nth_error triangles tri2Index with
      | Some tri1, Some tri2 =>
          let facing1 := facing viewDirection tri1 in
          let facing2 := facing viewDirection tri2 in
          if negb (Bool.eqb facing1 facing2)
          then OutlineView.setTrue (OutlineView.setTrue isSilhouette tri1Index) tri2Index
          else isSilhouette
      | _, _ => isSilhouette
      end
  | _ => isSilhouette
  end.

Definition detectSilhouette (triangles : list (Triangle float)) (viewDirection : Vector3)
  : list bool :=
  let isSilhouette := repeat false (List.length triangles) in
  let edges := buildEdges triangles in
  fold_left (markEdge triangles viewDirection) edges isSilhouette.
End Binary64Outline.

(** *** Edges and their triangles, over binary64 numbers *)

Module Binary64EdgeSpec.
Import PrimFloat.
Import Binary64 Binary64Outline.
#[local] Open Scope float_scope.

(** The edge occurrences of a mesh: for each triangle, from index
    [triIndex] on, its three edges, each with the index of the
    triangle. *)
Definition edgeSlots (triIndex : nat) (t : Triangle float) : list (EdgeKey * nat) :=
  map (fun e => (edgeKey t e, triIndex)) [0; 1; 2]%nat.

Fixpoint occurrencesFrom (triIndex : nat) (ts : list (Triangle float))
  : list (EdgeKey * nat) :=
  match ts with
  | [] => []
  | t :: ts' => edgeSlots triIndex t ++ occurrencesFrom (S triIndex) ts'
  end.

(** The indices of the triangles that own the occurrences of the edge
    [k] among [occs], one entry for each occurrence. *)
Definition ownersIn (k : EdgeKey) (occs : list (EdgeKey * nat)) : list nat :=
  map snd (filter (fun o => key_eqb (fst o) k) occs).

Definition owners (k : EdgeKey) (ts : list (Triangle float)) : list nat :=
  ownersIn k (occurrencesFrom 0 ts).

(** The triangles that have the edge [k], each once. *)
Definition sharers (k : EdgeKey) (ts : list (Triangle float)) : list nat :=
  nodup Nat.eq_dec (owners k ts).

(** The triangles [j1] and [j2] of the mesh face the view direction
    differently. *)
Definition disagree (viewDirection : Vector3) (ts : list (Triangle float)) (j1 j2 : nat)
  : Prop :=
  exists t1 t2,
    nth_error ts j1 = Some t1 /\ nth_error ts j2 = Some t2 /\
    facing viewDirection t1 <> facing viewDirection t2.

(** The triangle [t] has an edge that occurs exactly twice in the
    mesh, in triangles that face the view direction differently. *)
Definition onTwiceOccurringEdge (viewDirection : Vector3) (ts : list (Triangle float))
  (t : Triangle float) : Prop :=
  exists e j1 j2,
    (e < 3)%nat /\ owners (edgeKey t e) ts = [j1; j2] /\
    disagree viewDirection ts j1 j2.

(** The triangle [t] has an edge that exactly two triangles of the
    mesh have, and they face the view direction differently. *)
Definition onEdgeOfTwoTriangles (viewDirection : Vector3) (ts : list (Triangle float))
  (t : Triangle float) : Prop :=
  exists e j1 j2,
    (e < 3)%nat /\ sharers (edgeKey t e) ts = [j1; j2] /\
    disagree viewDirection ts j1 j2.

(** The value of the map at a key: the list of its entry, or no
    index when the key has no entry. *)
Fixpoint lookup (k : EdgeKey) (edges : EdgeMap) : list nat :=
  match edges with
  | [] => []
  | (k', l) :: edges' => if key_eqb k' k then l else lookup k edges'
  end.

(** No triangle of the mesh has the same edge twice. *)
Definition properMesh (ts : list (Triangle float)) : Prop :=
  forall t, In t ts ->
    edgeKey t 0 <> edgeKey t 1 /\ edgeKey t 1 <> edgeKey t 2 /\
    edgeKey t 0 <> edgeKey t 2.

(** No key has two entries. *)
Definition distinctKeys (edges : EdgeMap) : Prop := NoDup (map fst edges).

(** The second pass sets the flag of [i] for the list [l] of an entry:
    [l] has two indices, [i] is one of them, and the two triangles face
    the view direction differently. *)
Definition fires (viewDirection : Vector3) (ts : list (Triangle float)) (l : list nat)
  (i : nat) : Prop :=
  exists j1 j2,
    l = [j1; j2] /\ disagree viewDirection ts j1 j2 /\ (i = j1 \/ i = j2).

(** No coordinate of the point is NaN. *)
Definition numbers (v : Triple float) : Prop :=
  let '(a, b, c) := v in
  is_nan a = false /\ is_nan b = false /\ is_nan c = false.

(** The two points have the same coordinates: the same numbers, a
    zero of either sign being the same number. *)
Definition samePoint (v w : Triple float) : Prop := textOf v = textOf w.

(** A sliver with a repeated corner next to a proper triangle, seen
    from above. *)
Definition sliver : Triangle float :=
  mkTriangle (0, 0, 0) ((0, 0, 0), (0, 0, 0), (1, 0, 0)).
Definition proper : Triangle float :=
  mkTriangle (0, 0, 1) ((0, 0, 0), (1, 0, 0), (0, 1, 0)).
Definition sliverMesh : list (Triangle float) := [sliver; proper].
Definition fromAbove : Vector3 := vec3 0 0 (-1).

(** Two triangles over the edge from (0,0,0) to (1,0,0), one facing
    up and one facing down. *)
Definition lower : Triangle float :=
  mkTriangle (0, 0, -1) ((0, 0, 0), (1, 0, 0), (0, -1, 0)).
Definition foldMesh : list (Triangle float) := [proper; lower].

(** A point with a NaN coordinate. *)
Definition nanPoint : Triple float := (nan, 0, 0).
Definition originPoint : Triple float := (0, 0, 0).
End Binary64EdgeSpec.

(* ================================================================== *)
(** ** src/views/multiview.ts: the bounds of the mesh over binary64 numbers *)
(* ================================================================== *)

Module Binary64Bounds.
Import PrimFloat.
Import Binary64.
#[local] Open Scope float_scope.

Record Bounds : Type := mkBounds { bmin : Vector3; bmax : Vector3 }.

(** One step of the inner loop of [calculateBounds]. *)
Definition growBounds (b : Bounds) (v : Triple float) : Bounds :=
  let '(x, y, z) := v in
  {| bmin := vec3 (Math_min (vx (bmin b)) x) (Math_min (vy (bmin b)) y)
                  (Math_min (vz (bmin b)) z);
     bmax := vec3 (Math_max (vx (bmax b)) x) (Math_max (vy (bmax b)) y)
                  (Math_max (vz (bmax b)) z) |}.

Definition triangleVertices (t : Triangle float) : list (Triple float) :=
  [vertex t 0; vertex t 1; vertex t 2].

(** [calculateBounds], from [Infinity] and [-Infinity] on. *)
Definition calculateBounds (triangles : list (Triangle float)) : Bounds :=
  match triangles with
  | [] => {| bmin := vec3 (-1) (-1) (-1); bmax := vec3 1 1 1 |}
  | _ :: _ =>
      fold_left growBounds (flat_map triangleVertices triangles)
        {| bmin := vec3 infinity infinity infinity;
           bmax := vec3 neg_infinity neg_infinity neg_infinity |}
  end.
End Binary64Bounds.

(** *** Boxes *)

Module Binary64BoundsSpec.
Import PrimFloat.
Import Binary64 Binary64Bounds.
#[local] Open Scope float_scope.

(** The point [v] is in the box [b], on each axis. *)
Definition within (b : Bounds) (v : Vector3) : Prop :=
  ((vx (bmin b) <=? vx v) = true /\ (vx v <=? vx (bmax b)) = true) /\
  ((vy (bmin b) <=? vy v) = true /\ (vy v <=? vy (bmax b)) = true) /\
  ((vz (bmin b) <=? vz v) = true /\ (vz v <=? vz (bmax b)) = true).

(** The box [b] is inside the box [outer]. *)
Definition inside (b outer : Bounds) : Prop :=
  within outer (bmin b) /\ within outer (bmax b).

(** The vertices of a mesh. *)
Definition meshVertices (ts : list (Triangle float)) : list Vector3 :=
  map toVector (flat_map triangleVertices ts).

(** No coordinate of the point is NaN. *)
Definition isPoint (v : Vector3) : Prop :=
  is_nan (vx v) = false /\ is_nan (vy v) = false /\ is_nan (vz v) = false.

(** A triangle on the floor, and one with a NaN in a corner. *)
Definition floorTriangle : Triangle float :=
  mkTriangle (0, 0, 1) ((0, 0, 0), (10, 0, 0), (0, 10, 0)).
Definition nanTriangle : Triangle float :=
  mkTriangle (0, 0, 1) ((0, 0, 0), (nan, 0, 0), (0, 10, 0)).
End Binary64BoundsSpec.

(* ================================================================== *)
(** * Properties *)
(* ================================================================== *)

Import Camera Raytracer OutlineView Examples Spec EdgeSpec.
Open Scope R_scope.
Open Scope js_scope.

(** ** The comparison operators *)

Lemma ltb_true_iff (a b : R) : (a <? b) = true <-> a < b.
Proof. unfold JS.ltb. destruct (Rlt_dec a b); split; intros; auto; discriminate. Qed.

Lemma ltb_false_iff (a b : R) : (a <? b) = false <-> b <= a.
Proof.
  unfold JS.ltb. destruct (Rlt_dec a b); split; intros; auto; try discriminate; lra.
Qed.

Lemma gtb_true_iff (a b : R) : (a >? b) = true <-> b < a.
Proof. apply ltb_true_iff. Qed.

Lemma gtb_false_iff (a b : R) : (a >? b) = false <-> a <= b.
Proof. apply ltb_false_iff. Qed.

Lemma leb_true_iff (a b : R) : (a <=? b) = true <-> a <= b.
Proof. unfold JS.leb. destruct (Rle_dec a b); split; intros; auto; discriminate. Qed.

Lemma leb_false_iff (a b : R) : (a <=? b) = false <-> b < a.
Proof.
  unfold JS.leb. destruct (Rle_dec a b); split; intros; auto; try discriminate; lra.
Qed.

Lemma geb_true_iff (a b : R) : (a >=? b) = true <-> b <= a.
Proof. apply leb_true_iff. Qed.

Lemma geb_false_iff (a b : R) : (a >=? b) = false <-> a < b.
Proof. apply leb_false_iff. Qed.

Lemma eqb_true_iff (a b : R) : (a =? b) = true <-> a = b.
Proof. unfold JS.eqb. destruct (Req_dec_T a b); split; intros; auto; discriminate. Qed.

Lemma eqb_false_iff (a b : R) : (a =? b) = false <-> a <> b.
Proof.
  unfold JS.eqb. destruct (Req_dec_T a b); split; intros; auto; try discriminate.
  contradiction.
Qed.

(** Turns every comparison among the hypotheses into its proposition. *)
Ltac js_props :=
  repeat match goal with
  | H : (_ <? _) = true |- _ => apply ltb_true_iff in H
  | H : (_ <? _) = false |- _ => apply ltb_false_iff in H
  | H : (_ >? _) = true |- _ => apply gtb_true_iff in H
  | H : (_ >? _) = false |- _ => apply gtb_false_iff in H
  | H : (_ <=? _) = true |- _ => apply leb_true_iff in H
  | H : (_ <=? _) = false |- _ => apply leb_false_iff in H
  | H : (_ >=? _) = true |- _ => apply geb_true_iff in H
  | H : (_ >=? _) = false |- _ => apply geb_false_iff in H
  | H : (_ =? _) = true |- _ => apply eqb_true_iff in H
  | H : (_ =? _) = false |- _ => apply eqb_false_iff in H
  | H : (_ && _) = true |- _ => apply andb_true_iff in H; destruct H
  | H : (_ || _) = false |- _ => apply orb_false_iff in H; destruct H
  end.

(** Decides the comparisons of the goal whose outcome [lra] can tell. *)
Ltac js_decide :=
  repeat match goal with
  | |- context [?a <? ?b] =>
      first [ replace (a <? b) with true by (symmetry; apply ltb_true_iff; lra)
            | replace (a <? b) with false by (symmetry; apply ltb_false_iff; lra) ]
  | |- context [?a >? ?b] =>
      first [ replace (a >? b) with true by (symmetry; apply gtb_true_iff; lra)
            | replace (a >? b) with false by (symmetry; apply gtb_false_iff; lra) ]
  | |- context [?a <=? ?b] =>
      first [ replace (a <=? b) with true by (symmetry; apply leb_true_iff; lra)
            | replace (a <=? b) with false by (symmetry; apply leb_false_iff; lra) ]
  | |- context [?a >=? ?b] =>
      first [ replace (a >=? b) with true by (symmetry; apply geb_true_iff; lra)
            | replace (a >=? b) with false by (symmetry; apply geb_false_iff; lra) ]
  | |- context [?a =? ?b] =>
      first [ replace (a =? b) with true by (symmetry; apply eqb_true_iff; lra)
            | replace (a =? b) with false by (symmetry; apply eqb_false_iff; lra) ]
  end.

(** ** Vectors *)

Lemma vec3_eta (v : Vector3) : vec3 (vx v) (vy v) (vz v) = v.
Proof. destruct v; reflexivity. Qed.


(** ** C9: the ambient coefficient of the material *)

(** C9.  [calculateLighting] does not read [material.ambient]: two hits
    that differ in that field only are shaded alike, and the ambient
    term is [material.color] times [scene.ambientLight], channel by
    channel. *)
Theorem lighting_ignores_material_ambient :
  forall (point normal : Vector3) (distance : R) (color : Vector3)
         (ambient1 ambient2 diffuse : R) (scene : Scene) (rayDirection : Vector3),
    let hit1 := mkHit point normal distance (mkMaterial color ambient1 diffuse) in
    let hit2 := mkHit point normal distance (mkMaterial color ambient2 diffuse) in
    calculateLighting hit1 scene rayDirection = calculateLighting hit2 scene rayDirection /\
    ambientTerm hit1 scene = multiplyVectors color (ambientLight scene) /\
    ambientTerm hit2 scene = multiplyVectors color (ambientLight scene).
Proof.
  intros. repeat split.
Qed.

(** ** C6: fog *)







(** ** C4: the outline of a pixel that hits *)










(** ** C1: the size of the multiview image *)

Import Canvas MultiviewCommon.

Lemma putImageData_size (c : Canvas) (img : ImageData) (dx dy : Z) :
  canvasWidth (putImageData c img dx dy) = canvasWidth c /\
  canvasHeight (putImageData c img dx dy) = canvasHeight c.
Proof. split; reflexivity. Qed.

Lemma fillRectBlack_size (c : Canvas) (x y w h : Z) :
  canvasWidth (fillRectBlack c x y w h) = canvasWidth c /\
  canvasHeight (fillRectBlack c x y w h) = canvasHeight c.
Proof. split; reflexivity. Qed.

Lemma renderViews_size
  (sample : Scene -> OrthographicCamera -> Z -> Z -> Z -> Z -> Vector3)
  (scene : Scene) (views : list View) (viewWidth viewHeight : Z) (scale : R) :
  forall ctx : Canvas,
    canvasWidth (renderViews sample ctx scene views viewWidth viewHeight scale)
      = canvasWidth ctx /\
    canvasHeight (renderViews sample ctx scene views viewWidth viewHeight scale)
      = canvasHeight ctx.
Proof.
  unfold renderViews.
  induction views as [|view views IH]; intros ctx; simpl.
  - split; reflexivity.
  - destruct (IH (renderViewWith sample ctx scene
                    (createOrthographicCamera (viewPosition view) (viewTarget view)
                       (viewUp view) (IZR viewWidth) (IZR viewHeight) scale)
                    viewWidth viewHeight (canvasX view) (canvasY view))) as [Hw Hh].
    rewrite Hw, Hh. unfold renderViewWith. apply putImageData_size.
Qed.

Lemma drawViewBorders_size (ctx : Canvas) (viewWidth viewHeight : Z) :
  canvasWidth (Multiview.drawViewBorders ctx viewWidth viewHeight) = canvasWidth ctx /\
  canvasHeight (Multiview.drawViewBorders ctx viewWidth viewHeight) = canvasHeight ctx.
Proof. split; reflexivity. Qed.

Lemma generateMultiview_size (models : list (STLModel R)) (options : MultiviewOptions) :
  canvasWidth (image (Multiview.generateMultiview models options)) = 3200%Z /\
  canvasHeight (image (Multiview.generateMultiview models options)) = 2400%Z.
Proof.
  unfold Multiview.generateMultiview. cbv zeta. unfold image.
  match goal with
  | |- canvasWidth (Multiview.drawViewBorders ?c ?w ?h) = _ /\ _ =>
      destruct (drawViewBorders_size c w h) as [Hw Hh]; rewrite Hw, Hh; clear Hw Hh
  end.
  match goal with
  | |- canvasWidth (renderViews ?f ?c ?s ?v ?w ?h ?k) = _ /\ _ =>
      destruct (renderViews_size f s v w h k c) as [Hw Hh]; rewrite Hw, Hh
  end.
  split; reflexivity.
Qed.

Lemma generateMultiviewPlain_size (models : list (STLModel R)) (options : MultiviewOptions) :
  canvasWidth (image (MultiviewPlain.generateMultiview models options)) = 800%Z /\
  canvasHeight (image (MultiviewPlain.generateMultiview models options)) = 600%Z.
Proof.
  unfold MultiviewPlain.generateMultiview. cbv zeta. unfold image.
  match goal with
  | |- canvasWidth (renderViews ?f ?c ?s ?v ?w ?h ?k) = _ /\ _ =>
      destruct (renderViews_size f s v w h k c) as [Hw Hh]; rewrite Hw, Hh
  end.
  split; reflexivity.
Qed.

(** C1, as the code has it.  [generateMultiview] never reads
    [options.width] and [options.height]: the image it writes to
    [options.outputPath] is an RGBA raster of twice the fixed tile,
    3200 x 2400 for the tile of 1600 x 1200 (800 x 600 in the version
    of the file with the tile of 400 x 300), whatever the options and the
    models. *)
Theorem multiview_image_size :
  forall (models : list (STLModel R)) (options : MultiviewOptions),
    let file := Multiview.generateMultiview models options in
    let plain := MultiviewPlain.generateMultiview models options in
    filePath file = outputPath options /\
    canvasWidth (image file) = (2 * Multiview.viewWidth)%Z /\
    canvasHeight (image file) = (2 * Multiview.viewHeight)%Z /\
    canvasWidth (image file) = 3200%Z /\
    canvasHeight (image file) = 2400%Z /\
    filePath plain = outputPath options /\
    canvasWidth (image plain) = 800%Z /\
    canvasHeight (image plain) = 600%Z.
Proof.
  intros models options file plain.
  destruct (generateMultiview_size models options) as [Hw Hh].
  destruct (generateMultiviewPlain_size models options) as [Hw' Hh'].
  unfold file, plain. rewrite Hw, Hh, Hw', Hh'.
  repeat split; reflexivity.
Qed.

(** C1, as the specification states it, fails: with a tile of 40 x 30
    in the options the image is not 80 x 60. *)
Lemma multiview_ignores_tile_options :
  let options := {| width := 40; height := 30; outputPath := "out.png" |} in
  let file := Multiview.generateMultiview [] options in
  (0 < width options)%Z /\ (0 < height options)%Z /\
  ~ (canvasWidth (image file) = (2 * width options)%Z /\
     canvasHeight (image file) = (2 * height options)%Z).
Proof.
  cbv zeta.
  destruct (generateMultiview_size []
              {| width := 40; height := 30; outputPath := "out.png" |}) as [Hw Hh].
  rewrite Hw, Hh. simpl. split; [lia|]. split; [lia|].
  intros [H _]. discriminate H.
Qed.

(** ** C10: the bounding-box rejection with exact arithmetic *)








(** ** outlineView.ts: the two passes of [detectSilhouette] *)

Lemma triple_eqb_eq (p q : Triple R) : triple_eqb p q = true <-> p = q.
Proof.
  destruct p as [[a0 a1] a2], q as [[b0 b1] b2]. unfold triple_eqb. split.
  - intros H. js_props. subst. reflexivity.
  - intros H. injection H as -> -> ->.
    rewrite !(proj2 (eqb_true_iff _ _) eq_refl). reflexivity.
Qed.

Lemma key_eqb_eq (k1 k2 : EdgeKey) : key_eqb k1 k2 = true <-> k1 = k2.
Proof.
  destruct k1 as [p1 q1], k2 as [p2 q2]. unfold key_eqb; simpl. split.
  - intros H. apply andb_true_iff in H. destruct H as [Hp Hq].
    apply triple_eqb_eq in Hp. apply triple_eqb_eq in Hq. subst. reflexivity.
  - intros H. injection H as -> ->.
    rewrite !(proj2 (triple_eqb_eq _ _) eq_refl). reflexivity.
Qed.

Lemma key_eqb_refl (k : EdgeKey) : key_eqb k k = true.
Proof. apply key_eqb_eq. reflexivity. Qed.

Lemma key_eqb_neq (k1 k2 : EdgeKey) : key_eqb k1 k2 = false <-> k1 <> k2.
Proof.
  split.
  - intros H Heq. apply key_eqb_eq in Heq. congruence.
  - intros H. destruct (key_eqb k1 k2) eqn:E; [|reflexivity].
    apply key_eqb_eq in E. contradiction.
Qed.

(** *** The first pass: the map holds, at each key, its owners *)

Lemma lookup_pushEdge (edges : EdgeMap) (k' : EdgeKey) (i : nat) (k : EdgeKey) :
  lookup k (pushEdge edges k' i)
  = if key_eqb k' k then lookup k edges ++ [i] else lookup k edges.
Proof.
  induction edges as [|[k0 l] edges IH]; simpl.
  - destruct (key_eqb k' k); reflexivity.
  - destruct (key_eqb k0 k') eqn:E0; simpl.
    + apply key_eqb_eq in E0. subst k0.
      destruct (key_eqb k' k); reflexivity.
    + rewrite IH. destruct (key_eqb k0 k) eqn:E1; [|reflexivity].
      apply key_eqb_eq in E1. subst k0.
      replace (key_eqb k' k) with false; [reflexivity|].
      symmetry. apply key_eqb_neq. apply key_eqb_neq in E0. congruence.
Qed.

Lemma ownersIn_app (k : EdgeKey) (a b : list (EdgeKey * nat)) :
  ownersIn k (a ++ b) = ownersIn k a ++ ownersIn k b.
Proof. unfold ownersIn. rewrite filter_app, map_app. reflexivity. Qed.

Lemma lookup_addTriangleEdges (edges : EdgeMap) (t : Triangle R) (s : nat) (k : EdgeKey) :
  lookup k (addTriangleEdges edges t s) = lookup k edges ++ ownersIn k (edgeSlots s t).
Proof.
  unfold addTriangleEdges, ownersIn, edgeSlots. simpl.
  rewrite !lookup_pushEdge.
  destruct (key_eqb (edgeKey t 0) k), (key_eqb (edgeKey t 1) k),
    (key_eqb (edgeKey t 2) k); simpl; rewrite <- ?app_assoc; simpl;
    rewrite ?app_nil_r; reflexivity.
Qed.

Lemma lookup_buildEdgesFrom (ts : list (Triangle R)) :
  forall (s : nat) (edges : EdgeMap) (k : EdgeKey),
    lookup k (buildEdgesFrom s ts edges)
    = lookup k edges ++ ownersIn k (occurrencesFrom s ts).
Proof.
  induction ts as [|t ts IH]; intros s edges k;
    cbn [buildEdgesFrom occurrencesFrom].
  - unfold ownersIn; simpl. rewrite app_nil_r. reflexivity.
  - rewrite IH, lookup_addTriangleEdges, ownersIn_app, app_assoc. reflexivity.
Qed.

Lemma lookup_buildEdges (ts : list (Triangle R)) (k : EdgeKey) :
  lookup k (buildEdges ts) = owners k ts.
Proof. unfold buildEdges, owners. rewrite lookup_buildEdgesFrom. reflexivity. Qed.

Lemma pushEdge_keys (edges : EdgeMap) (k : EdgeKey) (i : nat) (k0 : EdgeKey) :
  In k0 (map fst (pushEdge edges k i)) -> In k0 (map fst edges) \/ k0 = k.
Proof.
  induction edges as [|[k1 l] edges IH]; simpl.
  - intros [H | []]. right. symmetry. exact H.
  - destruct (key_eqb k1 k); simpl.
    + intros H. left. exact H.
    + intros [H | H]; [left; left; exact H|].
      destruct (IH H) as [H' | H']; [left; right; exact H' | right; exact H'].
Qed.

Lemma pushEdge_distinct (edges : EdgeMap) (k : EdgeKey) (i : nat) :
  distinctKeys edges -> distinctKeys (pushEdge edges k i).
Proof.
  unfold distinctKeys.
  induction edges as [|[k1 l] edges IH]; simpl; intros Hnd.
  - constructor; [intros [] | constructor].
  - inversion Hnd as [|? ? Hnotin Hnd']; subst.
    destruct (key_eqb k1 k) eqn:E; simpl.
    + constructor; assumption.
    + constructor; [|apply IH; exact Hnd'].
      intros Hin. apply pushEdge_keys in Hin. destruct Hin as [Hin | Heq].
      * contradiction.
      * apply key_eqb_neq in E. contradiction.
Qed.

Lemma addTriangleEdges_distinct (edges : EdgeMap) (t : Triangle R) (s : nat) :
  distinctKeys edges -> distinctKeys (addTriangleEdges edges t s).
Proof.
  intros H. unfold addTriangleEdges; simpl.
  repeat apply pushEdge_distinct. exact H.
Qed.

Lemma buildEdgesFrom_distinct (ts : list (Triangle R)) :
  forall (s : nat) (edges : EdgeMap),
    distinctKeys edges -> distinctKeys (buildEdgesFrom s ts edges).
Proof.
  induction ts as [|t ts IH]; intros s edges H; simpl.
  - exact H.
  - apply IH. apply addTriangleEdges_distinct. exact H.
Qed.

Lemma buildEdges_distinct (ts : list (Triangle R)) : distinctKeys (buildEdges ts).
Proof. apply buildEdgesFrom_distinct. constructor. Qed.

Lemma In_lookup (edges : EdgeMap) (k : EdgeKey) (l : list nat) :
  distinctKeys edges -> In (k, l) edges -> lookup k edges = l.
Proof.
  unfold distinctKeys.
  induction edges as [|[k0 l0] edges IH]; simpl; intros Hnd Hin.
  - destruct Hin.
  - inversion Hnd as [|? ? Hnotin Hnd']; subst.
    destruct Hin as [Heq | Hin].
    + injection Heq as -> ->. rewrite key_eqb_refl. reflexivity.
    + destruct (key_eqb k0 k) eqn:E.
      * apply key_eqb_eq in E. subst k0. exfalso. apply Hnotin.
        change k with (fst (k, l)). apply in_map. exact Hin.
      * apply IH; assumption.
Qed.

Lemma lookup_In (edges : EdgeMap) (k : EdgeKey) :
  lookup k edges <> [] -> In (k, lookup k edges) edges.
Proof.
  induction edges as [|[k0 l0] edges IH]; simpl; intros H.
  - contradiction.
  - destruct (key_eqb k0 k) eqn:E.
    + apply key_eqb_eq in E. subst k0. left. reflexivity.
    + right. apply IH. exact H.
Qed.

(** *** Occurrences and the triangles that own them *)

Lemma slot_owner (ts : list (Triangle R)) :
  forall (s n : nat) (t : Triangle R) (e : nat),
    nth_error ts n = Some t -> (e < 3)%nat ->
    In (s + n)%nat (ownersIn (edgeKey t e) (occurrencesFrom s ts)).
Proof.
  induction ts as [|t0 ts IH]; intros s n t e Hn He.
  - destruct n; discriminate Hn.
  - cbn [occurrencesFrom]. rewrite ownersIn_app. apply in_or_app.
    destruct n as [|n]; simpl in Hn.
    + injection Hn as ->. left. rewrite Nat.add_0_r.
      unfold ownersIn. apply in_map_iff.
      exists (edgeKey t e, s). split; [reflexivity|].
      apply filter_In. split; [|apply key_eqb_refl].
      unfold edgeSlots. simpl.
      destruct e as [|[|[|e]]]; [auto | auto | auto | lia].
    + right. replace (s + S n)%nat with (S s + n)%nat by lia.
      apply IH; assumption.
Qed.

Lemma owner_slot (ts : list (Triangle R)) :
  forall (s i : nat) (k : EdgeKey),
    In i (ownersIn k (occurrencesFrom s ts)) ->
    exists n t e,
      i = (s + n)%nat /\ nth_error ts n = Some t /\ (e < 3)%nat /\ edgeKey t e = k.
Proof.
  induction ts as [|t0 ts IH]; intros s i k Hin.
  - destruct Hin.
  - cbn [occurrencesFrom] in Hin. rewrite ownersIn_app in Hin. apply in_app_or in Hin.
    destruct Hin as [Hin | Hin].
    + unfold ownersIn in Hin. apply in_map_iff in Hin.
      destruct Hin as [[k0 j] [Hj Hf]]. simpl in Hj. subst j.
      apply filter_In in Hf. destruct Hf as [Hslot Hk]. simpl in Hk.
      apply key_eqb_eq in Hk. subst k0.
      exists 0%nat, t0. unfold edgeSlots in Hslot. simpl in Hslot.
      destruct Hslot as [H | [H | [H | []]]]; injection H as Hk Hi.
      * exists 0%nat. repeat split; [lia | lia | exact Hk].
      * exists 1%nat. repeat split; [lia | lia | exact Hk].
      * exists 2%nat. repeat split; [lia | lia | exact Hk].
    + destruct (IH _ _ _ Hin) as [n [t [e [Hi [Hn [He Hk]]]]]].
      exists (S n), t, e. repeat split; [lia | exact Hn | exact He | exact Hk].
Qed.

(** *** The second pass: the flags it sets *)

Lemma setTrue_length (flags : list bool) :
  forall j : nat, List.length (setTrue flags j) = List.length flags.
Proof.
  induction flags as [|b flags IH]; intros [|j]; simpl; auto.
Qed.

Lemma nth_setTrue (flags : list bool) :
  forall i j : nat,
    nth i (setTrue flags j) false = true <->
    nth i flags false = true \/ (i = j /\ (j < List.length flags)%nat).
Proof.
  induction flags as [|b flags IH]; intros i j.
  - destruct i, j; simpl; split; try tauto; intros [H | [_ H]];
      try discriminate; lia.
  - destruct j as [|j]; destruct i as [|i]; simpl.
    + split; [intros _; right; split; [reflexivity | lia] | reflexivity].
    + split; [tauto | intros [H | [H _]]; [exact H | discriminate H]].
    + split; [tauto | intros [H | [H _]]; [exact H | discriminate H]].
    + rewrite IH. split.
      * intros [H | [H1 H2]]; [left; exact H | right; split; lia].
      * intros [H | [H1 H2]]; [left; exact H | right; split; lia].
Qed.

Lemma markEdge_length (ts : list (Triangle R)) (vd : Vector3) (flags : list bool)
  (entry : EdgeKey * list nat) :
  List.length (markEdge ts vd flags entry) = List.length flags.
Proof.
  unfold markEdge.
  destruct (snd entry) as [|j1 [|j2 [|j3 l]]]; try reflexivity.
  destruct (nth_error ts j1), (nth_error ts j2); try reflexivity.
  destruct (negb _); [|reflexivity].
  rewrite !setTrue_length. reflexivity.
Qed.

Lemma eqb_differ (a b : bool) : negb (Bool.eqb a b) = true <-> a <> b.
Proof. destruct a, b; simpl; split; intros; congruence. Qed.

Lemma nth_markEdge (ts : list (Triangle R)) (vd : Vector3) (flags : list bool)
  (entry : EdgeKey * list nat) (i : nat) :
  List.length flags = List.length ts ->
  (nth i (markEdge ts vd flags entry) false = true <->
   nth i flags false = true \/ fires vd ts (snd entry) i).
Proof.
  intros Hlen. unfold markEdge, fires, disagree.
  destruct (snd entry) as [|j1 [|j2 [|j3 l]]];
    try (split; [tauto | intros [H | [? [? [H _]]]]; [exact H | discriminate H]]).
  destruct (nth_error ts j1) as [t1|] eqn:H1.
  2: { split; [tauto|]. intros [H | [a [b [Hl [[u [v [Hu _]]] _]]]]]; [exact H|].
       injection Hl as <- <-. congruence. }
  destruct (nth_error ts j2) as [t2|] eqn:H2.
  2: { split; [tauto|]. intros [H | [a [b [Hl [[u [v [_ [Hv _]]]] _]]]]]; [exact H|].
       injection Hl as <- <-. congruence. }
  assert (Hj1 : (j1 < List.length flags)%nat).
  { rewrite Hlen. apply nth_error_Some. congruence. }
  assert (Hj2 : (j2 < List.length flags)%nat).
  { rewrite Hlen. apply nth_error_Some. congruence. }
  destruct (negb (Bool.eqb (facing vd t1) (facing vd t2))) eqn:Hf.
  - apply eqb_differ in Hf. rewrite !nth_setTrue, setTrue_length. split.
    + intros [[H | [H _]] | [H _]].
      * left. exact H.
      * right. exists j1, j2. split; [reflexivity|]. split; [|left; exact H].
        exists t1, t2. auto.
      * right. exists j1, j2. split; [reflexivity|]. split; [|right; exact H].
        exists t1, t2. auto.
    + intros [H | [a [b [Hl [_ [Hi | Hi]]]]]].
      * left. left. exact H.
      * injection Hl as <- <-. left. right. split; assumption.
      * injection Hl as <- <-. right. split; assumption.
  - split; [tauto|].
    intros [H | [a [b [Hl [[u [v [Hu [Hv Hne]]]] _]]]]]; [exact H|].
    injection Hl as <- <-.
    rewrite H1 in Hu. rewrite H2 in Hv. injection Hu as <-. injection Hv as <-.
    destruct (facing vd t1), (facing vd t2); simpl in Hf; congruence.
Qed.

Lemma nth_markEdges (ts : list (Triangle R)) (vd : Vector3) (edges : EdgeMap) (i : nat) :
  forall flags : list bool,
    List.length flags = List.length ts ->
    List.length (fold_left (markEdge ts vd) edges flags) = List.length ts /\
    (nth i (fold_left (markEdge ts vd) edges flags) false = true <->
     nth i flags false = true \/ exists entry, In entry edges /\ fires vd ts (snd entry) i).
Proof.
  induction edges as [|entry edges IH]; intros flags Hlen; simpl.
  - split; [exact Hlen|]. split; [tauto|].
    intros [H | [? [[] _]]]. exact H.
  - assert (Hlen' : List.length (markEdge ts vd flags entry) = List.length ts).
    { rewrite markEdge_length. exact Hlen. }
    destruct (IH _ Hlen') as [Hl Hiff]. split; [exact Hl|].
    rewrite Hiff, (nth_markEdge ts vd flags entry i Hlen). split.
    + intros [[H | H] | [e [Hin Hf]]].
      * left. exact H.
      * right. exists entry. auto.
      * right. exists e. auto.
    + intros [H | [e [[Heq | Hin] Hf]]].
      * left. left. exact H.
      * subst e. left. right. exact Hf.
      * right. exists e. auto.
Qed.

Lemma nth_repeat_false (n i : nat) : nth i (repeat false n) false = false.
Proof.
  revert i. induction n as [|n IH]; intros [|i]; simpl; auto.
Qed.

Lemma detectSilhouette_length (ts : list (Triangle R)) (vd : Vector3) :
  List.length (detectSilhouette ts vd) = List.length ts.
Proof.
  unfold detectSilhouette.
  apply (nth_markEdges ts vd (buildEdges ts) 0). apply repeat_length.
Qed.

(** The flag of a triangle: it is set exactly when one of the edges of
    the triangle occurs twice in the mesh, in triangles that face the
    view direction differently. *)
Lemma detectSilhouette_flag (ts : list (Triangle R)) (vd : Vector3)
  (i : nat) (t : Triangle R) :
  nth_error ts i = Some t ->
  (nth i (detectSilhouette ts vd) false = true <-> onTwiceOccurringEdge vd ts t).
Proof.
  intros Hi. unfold detectSilhouette.
  destruct (nth_markEdges ts vd (buildEdges ts) i (repeat false (List.length ts))
              (repeat_length _ _)) as [_ Hiff].
  rewrite Hiff, nth_repeat_false. unfold onTwiceOccurringEdge. split.
  - intros [H | [[k l] [Hin [j1 [j2 [Hl [Hdis Hij]]]]]]]; [discriminate H|].
    simpl in Hl. subst l.
    pose proof (In_lookup _ _ _ (buildEdges_distinct ts) Hin) as Hlook.
    rewrite lookup_buildEdges in Hlook.
    assert (Hown : In i (owners k ts)).
    { rewrite Hlook. destruct Hij as [-> | ->]; simpl; auto. }
    destruct (owner_slot ts 0 i k Hown) as [n [t' [e [Hn [Ht' [He Hk]]]]]].
    simpl in Hn. subst n. rewrite Hi in Ht'. injection Ht' as <-.
    exists e, j1, j2. rewrite Hk. auto.
  - intros [e [j1 [j2 [He [Hown Hdis]]]]]. right.
    exists (edgeKey t e, [j1; j2]). split.
    + rewrite <- Hown, <- lookup_buildEdges. apply lookup_In.
      rewrite lookup_buildEdges, Hown. discriminate.
    + exists j1, j2. split; [reflexivity|]. split; [exact Hdis|].
      pose proof (slot_owner ts 0 i t e Hi He) as Hin.
      fold (owners (edgeKey t e) ts) in Hin. rewrite Hown in Hin.
      simpl in Hin. destruct Hin as [H | [H | []]]; auto.
Qed.

(** ** C3: malformed literals in a text mesh *)

Import Stl StlSpec.
Open Scope list_scope.

Lemma nth_error_after (pre post : list string) (k : nat) :
  nth_error (pre ++ post) (List.length pre + k) = nth_error post k.
Proof.
  rewrite nth_error_app2 by lia. f_equal. lia.
Qed.

Lemma parseFacets_end (fuel : nat) (lines : list string)
  (triangles : list (Triangle Number)) :
  parseFacets fuel lines (0 + List.length lines) triangles = Some (Return triangles).
Proof.
  destruct fuel; simpl;
    rewrite (proj2 (nth_error_None lines (List.length lines)) (le_n _)); reflexivity.
Qed.

(** The loop steps over lines that open no facet. *)
Lemma parseFacets_trailer (trailer : list string) :
  forall (pre : list string) (triangles : list (Triangle Number)) (fuel : nat),
    (List.length trailer <= fuel)%nat ->
    Forall notFacet trailer ->
    parseFacets fuel (pre ++ trailer) (List.length pre) triangles
    = Some (Return triangles).
Proof.
  induction trailer as [|l trailer IH]; intros pre tris fuel Hfuel Hall.
  - rewrite app_nil_r.
    destruct fuel; simpl;
      rewrite (proj2 (nth_error_None pre (List.length pre)) (le_n _)); reflexivity.
  - inversion Hall as [|? ? Hl Hall']; subst.
    destruct fuel as [|fuel]; [simpl in Hfuel; lia|].
    simpl. rewrite <- (Nat.add_0_r (List.length pre)) at 1.
    rewrite nth_error_after. simpl. rewrite Hl.
    replace (pre ++ l :: trailer) with ((pre ++ [l]) ++ trailer)
      by (rewrite <- app_assoc; reflexivity).
    replace (List.length pre + 1)%nat with (List.length (pre ++ [l]))
      by (rewrite length_app; reflexivity).
    apply IH; [simpl in Hfuel; lia | exact Hall'].
Qed.

(** The loop turns each complete record into a triangle. *)
Lemma parseFacets_records (recs : list FacetText) :
  forall (pre trailer : list string) (triangles : list (Triangle Number)) (fuel : nat),
    (List.length (flat_map recordLines recs ++ trailer) <= fuel)%nat ->
    Forall opensFacet recs ->
    Forall notFacet trailer ->
    parseFacets fuel (pre ++ flat_map recordLines recs ++ trailer)
      (List.length pre) triangles
    = Some (Return (triangles ++ map recordTriangle recs)).
Proof.
  induction recs as [|r recs IH]; intros pre trailer tris fuel Hfuel Hrecs Htrailer.
  - simpl. rewrite app_nil_r. apply parseFacets_trailer; assumption.
  - inversion Hrecs as [|? ? Hr Hrecs']; subst.
    cbn [flat_map] in *. rewrite <- app_assoc in *.
    rewrite length_app in Hfuel. simpl in Hfuel.
    destruct fuel as [|fuel]; [lia|].
    cbn [parseFacets].
    rewrite <- (Nat.add_0_r (List.length pre)) at 1.
    rewrite nth_error_after. cbn [recordLines app nth_error].
    unfold opensFacet in Hr. rewrite Hr.
    rewrite <- !Nat.add_assoc. rewrite !nth_error_after.
    cbn [Nat.add nth_error].
    replace (pre ++ facetLine r :: loopLine r :: vertexLine0 r :: vertexLine1 r
               :: vertexLine2 r :: endloopLine r :: endfacetLine r
               :: flat_map recordLines recs ++ trailer)
      with ((pre ++ recordLines r) ++ flat_map recordLines recs ++ trailer)
      by (rewrite <- app_assoc; reflexivity).
    replace (List.length pre + 7)%nat with (List.length (pre ++ recordLines r))
      by (rewrite length_app; reflexivity).
    rewrite IH; [|lia | exact Hrecs' | exact Htrailer].
    rewrite <- app_assoc. reflexivity.
Qed.

Lemma skipHeader_all (lines : list string) :
  forall i : nat,
    Forall notFacet lines -> skipHeader lines i = (i + List.length lines)%nat.
Proof.
  induction lines as [|l lines IH]; intros i Hall; simpl.
  - lia.
  - inversion Hall as [|? ? Hl Hall']; subst. rewrite Hl, IH by assumption. lia.
Qed.

Lemma skipHeader_facet (header : list string) (l : string) (rest : list string) :
  forall i : nat,
    Forall notFacet header -> isFacet l = true ->
    skipHeader (header ++ l :: rest) i = (i + List.length header)%nat.
Proof.
  induction header as [|h header IH]; intros i Hall Hl; simpl.
  - rewrite Hl. lia.
  - inversion Hall as [|? ? Hh Hall']; subst. rewrite Hh, IH by assumption. lia.
Qed.

(** The decoder on lines made of a header, complete records and a
    trailer. *)
Lemma parseASCIISTL_records (buffer : string) (header : list string)
  (recs : list FacetText) (trailer : list string) :
  map trim (splitLines buffer) = header ++ flat_map recordLines recs ++ trailer ->
  Forall notFacet header ->
  Forall opensFacet recs ->
  Forall notFacet trailer ->
  parseASCIISTL buffer = Some (Return (mkModel (map recordTriangle recs) None)).
Proof.
  intros Hlines Hheader Hrecs Htrailer.
  unfold parseASCIISTL. rewrite Hlines.
  assert (Hstart :
    parseFacets (List.length (header ++ flat_map recordLines recs ++ trailer))
      (header ++ flat_map recordLines recs ++ trailer)
      (skipHeader (header ++ flat_map recordLines recs ++ trailer) 0) []
    = Some (Return (map recordTriangle recs))).
  { destruct recs as [|r recs].
    - cbn [flat_map map app]. rewrite skipHeader_all.
      + apply parseFacets_end.
      + apply Forall_app. split; assumption.
    - inversion Hrecs as [|? ? Hr Hrecs']; subst.
      cbn [flat_map]. rewrite <- app_assoc. cbn [recordLines app].
      rewrite skipHeader_facet by assumption. simpl Nat.add.
      change (facetLine r :: loopLine r :: vertexLine0 r :: vertexLine1 r
                :: vertexLine2 r :: endloopLine r :: endfacetLine r
                :: flat_map recordLines recs ++ trailer)
        with (flat_map recordLines (r :: recs) ++ trailer).
      rewrite parseFacets_records; [reflexivity | | exact Hrecs | exact Htrailer].
      rewrite !length_app. lia. }
  rewrite Hstart. reflexivity.
Qed.

(** C3, as the code has it.  The text decoder does not check its
    literals: on a stream of ASCII bytes whose trimmed lines are a header
    that opens no facet, complete seven-line facet records and a trailer
    that opens no facet, it returns one triangle for each record whatever
    the fields of the record are, each number being what [parseFloat]
    reads from its field (NaN for a field that starts with no number, or
    that is missing), and raises no error. *)
Theorem parseASCIISTL_reads_any_literal :
  forall (buffer : string) (header : list string) (recs : list FacetText)
         (trailer : list string),
    TextSpec.asciiText buffer ->
    map trim (splitLines buffer) = header ++ flat_map recordLines recs ++ trailer ->
    Forall notFacet header ->
    Forall opensFacet recs ->
    Forall notFacet trailer ->
    parseASCIISTL buffer = Some (Return (mkModel (map recordTriangle recs) None)).
Proof.
  intros buffer header recs trailer _.
  exact (parseASCIISTL_records buffer header recs trailer).
Qed.

Lemma parseASCIISTL_reads_any_literal_witness :
  TextSpec.asciiText badLiteralMesh /\
  parseASCIISTL badLiteralMesh
  = Some (Return (mkModel (map recordTriangle [badFacet]) None)).
Proof.
  assert (Hascii : TextSpec.asciiText badLiteralMesh).
  { unfold TextSpec.asciiText. vm_compute list_ascii_of_string. repeat constructor. }
  split; [exact Hascii|].
  apply (parseASCIISTL_reads_any_literal badLiteralMesh
           ["solid t"%string] [badFacet] ["endsolid t"%string; ""%string]).
  - exact Hascii.
  - reflexivity.
  - repeat constructor.
  - repeat constructor.
  - repeat constructor.
Defined.

(** C3, as the specification states it, fails: the mesh has the
    malformed literals [abc] in its facet-normal line and [x.5] in a
    vertex line, and the decoder returns a triangle list, with NaN in
    their places, instead of an error. *)
Lemma parseASCIISTL_accepts_malformed_literal :
  isFloatLiteral "abc" = false /\
  isFloatLiteral "x.5" = false /\
  parseASCIISTL badLiteralMesh
  = Some (Return (mkModel
      [ mkTriangle (Dec false 0 0, Dec false 0 0, NaN)
          ((Dec false 0 0, Dec false 0 0, Dec false 0 0),
           (Dec false 15 1, Dec true 25 (-2), Dec false 0 0),
           (Dec false 0 0, NaN, Dec false 0 0)) ]
      None)).
Proof.
  repeat split; reflexivity.
Qed.

(** The decoder uses no more iterations than there are lines. *)
Lemma parseFacets_fuel (lines : list string) :
  forall (fuel i : nat) (triangles : list (Triangle Number)),
    (List.length lines <= fuel + i)%nat ->
    parseFacets fuel lines i triangles <> None.
Proof.
  induction fuel as [|fuel IH]; intros i tris Hfuel; simpl.
  - rewrite (proj2 (nth_error_None lines i)) by lia. discriminate.
  - destruct (nth_error lines i) as [line|]; [|discriminate].
    destruct (isFacet line).
    + destruct (nth_error lines (i + 2)); [|discriminate].
      destruct (nth_error lines (i + 2 + 1)); [|discriminate].
      destruct (nth_error lines (i + 2 + 2)); [|discriminate].
      apply IH. lia.
    + apply IH. lia.
Qed.

Lemma parseASCIISTL_terminates (buffer : string) : parseASCIISTL buffer <> None.
Proof.
  unfold parseASCIISTL.
  pose proof (parseFacets_fuel (map trim (splitLines buffer))
                (List.length (map trim (splitLines buffer)))
                (skipHeader (map trim (splitLines buffer)) 0) []) as H.
  destruct (parseFacets _ _ _ _) as [[m|]|].
  - discriminate.
  - discriminate.
  - exfalso. apply H; [lia | reflexivity].
Qed.

(* ================================================================== *)
(** * Further properties of the code *)
(* ================================================================== *)

Open Scope R_scope.
Open Scope js_scope.

(** ** orthographicCamera.ts: the rays of neighbouring pixels *)



(** ** The grid of the background *)

Import RaytracerPlane.
Import GridSpec.

Lemma floor_bounds (a : R) : IZR (JS.floor a) <= a < IZR (JS.floor a) + 1.
Proof.
  unfold JS.floor. destruct (base_Int_part a) as [Hle Hgt]. lra.
Qed.

(** An integer strictly between two integers two apart. *)
Lemma between_integers (n k : Z) (a : R) :
  IZR k <= a < IZR k + 1 -> Rabs (a - IZR n) < 0.05 -> n = k \/ n = (k + 1)%Z.
Proof.
  intros [Hlo Hhi] Hn. apply Rabs_def2 in Hn. destruct Hn as [Hn1 Hn2].
  assert (H1 : IZR n < IZR (k + 2)) by (rewrite plus_IZR; simpl; lra).
  assert (H2 : IZR (k - 1) < IZR n) by (rewrite minus_IZR; simpl; lra).
  apply lt_IZR in H1. apply lt_IZR in H2. lia.
Qed.

(** For a number that is not negative: its fractional part is under
    0.05 or over 0.95 exactly when it is within 0.05 of an integer. *)
Lemma fraction_near (a : R) :
  a - IZR (JS.floor a) < 0.05 \/ a - IZR (JS.floor a) > 0.95 <-> nearInteger a.
Proof.
  pose proof (floor_bounds a) as Hb. unfold nearInteger. split.
  - intros [H | H].
    + exists (JS.floor a). apply Rabs_def1; lra.
    + exists (JS.floor a + 1)%Z. rewrite plus_IZR. simpl. apply Rabs_def1; lra.
  - intros [n Hn].
    destruct (between_integers n (JS.floor a) a Hb Hn) as [-> | ->].
    + apply Rabs_def2 in Hn. left. lra.
    + apply Rabs_def2 in Hn. rewrite plus_IZR in Hn. simpl in Hn. right. lra.
Qed.

Lemma nearInteger_opp (a : R) : nearInteger (- a) <-> nearInteger a.
Proof.
  unfold nearInteger. split; intros [n Hn]; exists (- n)%Z; rewrite opp_IZR.
  - replace (a - - IZR n) with (- (- a - IZR n)) by ring. rewrite Rabs_Ropp. exact Hn.
  - replace (- a - - IZR n) with (- (a - IZR n)) by ring. rewrite Rabs_Ropp. exact Hn.
Qed.

(** The remainder of a division by 1, in magnitude: the fractional
    part of the magnitude. *)
Lemma rem_one_abs (a : R) :
  Rabs (JS.rem a 1) = Rabs a - IZR (JS.floor (Rabs a)).
Proof.
  unfold JS.rem, JS.trunc. replace (a / 1) with a by field. rewrite Rmult_1_l.
  destruct (Rle_dec 0 a) as [Hpos | Hneg].
  - rewrite (Rabs_pos_eq a Hpos).
    pose proof (floor_bounds a). apply Rabs_pos_eq. lra.
  - assert (Ha : a < 0) by lra. rewrite (Rabs_left a Ha).
    pose proof (floor_bounds (- a)).
    rewrite opp_IZR. rewrite Rabs_left1 by lra. ring.
Qed.

Lemma nearInteger_abs (a : R) : nearInteger (Rabs a) <-> nearInteger a.
Proof.
  destruct (Rle_dec 0 a) as [Hpos | Hneg].
  - rewrite (Rabs_pos_eq a Hpos). tauto.
  - rewrite (Rabs_left a) by lra. apply nearInteger_opp.
Qed.

(** The test of a coordinate against the grid lines. *)
Lemma grid_line_test (a : R) :
  (Rabs (JS.rem a 1) <? 0.05) || (Rabs (JS.rem a 1) >? 1 - 0.05) = true
  <-> nearInteger a.
Proof.
  rewrite rem_one_abs, <- nearInteger_abs, <- fraction_near.
  rewrite orb_true_iff, ltb_true_iff, gtb_true_iff. split; intros [H | H]; lra.
Qed.

(** X11.  [isOnGrid] holds of a point exactly when its x or its y
    coordinate is within 0.05 of an integer. *)
Theorem isOnGrid_near_integer :
  forall point : Vector3,
    isOnGrid point = true <-> nearInteger (vx point) \/ nearInteger (vy point).
Proof.
  intros p. unfold isOnGrid. cbv zeta.
  pose proof (grid_line_test (vx p)) as Hx. rewrite orb_true_iff in Hx.
  pose proof (grid_line_test (vy p)) as Hy. rewrite orb_true_iff in Hy.
  rewrite !orb_true_iff. tauto.
Qed.

(** X12.  The background of a ray that misses: the base colour when
    the ray is within 0.001 of parallel to the plane z = 0 or meets it
    behind its origin; otherwise the base colour darkened to 0.85 when
    the point where the ray meets the plane has an x or a y coordinate
    within 0.05 of an integer, and the base colour when it has not. *)
Theorem background_grid :
  forall (ray : Ray) (baseColor : Vector3),
    (Rabs (vz (direction ray)) < 0.001 ->
     Multiview.getBackgroundColorWorldSpace ray baseColor = baseColor) /\
    (0.001 <= Rabs (vz (direction ray)) -> groundParameter ray < 0 ->
     Multiview.getBackgroundColorWorldSpace ray baseColor = baseColor) /\
    (0.001 <= Rabs (vz (direction ray)) -> 0 <= groundParameter ray ->
     nearInteger (groundX ray) \/ nearInteger (groundY ray) ->
     Multiview.getBackgroundColorWorldSpace ray baseColor = darkened baseColor) /\
    (0.001 <= Rabs (vz (direction ray)) -> 0 <= groundParameter ray ->
     ~ (nearInteger (groundX ray) \/ nearInteger (groundY ray)) ->
     Multiview.getBackgroundColorWorldSpace ray baseColor = baseColor).
Proof.
  intros ray base. unfold Multiview.getBackgroundColorWorldSpace. cbv zeta.
  fold (groundParameter ray). fold (groundX ray). fold (groundY ray).
  split; [|split; [|split]].
  - intros H.
    replace (Rabs (vz (direction ray)) <? 0.001) with true
      by (symmetry; apply ltb_true_iff; exact H).
    reflexivity.
  - intros H Ht.
    replace (Rabs (vz (direction ray)) <? 0.001) with false
      by (symmetry; apply ltb_false_iff; exact H).
    replace (groundParameter ray <? 0) with true
      by (symmetry; apply ltb_true_iff; exact Ht).
    reflexivity.
  - intros H Ht Hnear.
    replace (Rabs (vz (direction ray)) <? 0.001) with false
      by (symmetry; apply ltb_false_iff; exact H).
    replace (groundParameter ray <? 0) with false
      by (symmetry; apply ltb_false_iff; exact Ht).
    rewrite <- (grid_line_test (groundX ray)), <- (grid_line_test (groundY ray)) in Hnear.
    apply orb_true_iff in Hnear. rewrite Hnear. reflexivity.
  - intros H Ht Hfar.
    replace (Rabs (vz (direction ray)) <? 0.001) with false
      by (symmetry; apply ltb_false_iff; exact H).
    replace (groundParameter ray <? 0) with false
      by (symmetry; apply ltb_false_iff; exact Ht).
    rewrite <- (grid_line_test (groundX ray)), <- (grid_line_test (groundY ray)) in Hfar.
    rewrite <- orb_true_iff in Hfar. apply not_true_is_false in Hfar.
    rewrite Hfar. reflexivity.
Qed.

(** ** outlineView.ts: the outline of a pixel *)

Import OutlineSpec.




(** ** outlineView.ts: the edge map and the silhouette *)

Lemma indexCount_pushEdge (edges : EdgeMap) (k : EdgeKey) (i : nat) :
  indexCount (pushEdge edges k i) = S (indexCount edges).
Proof.
  unfold indexCount.
  induction edges as [|[k0 l] edges IH]; simpl.
  - reflexivity.
  - destruct (key_eqb k0 k); simpl.
    + rewrite !length_app. simpl. lia.
    + rewrite !length_app, IH. lia.
Qed.

Lemma indexCount_buildEdgesFrom (ts : list (Triangle R)) :
  forall (s : nat) (edges : EdgeMap),
    indexCount (buildEdgesFrom s ts edges)
    = (indexCount edges + 3 * List.length ts)%nat.
Proof.
  induction ts as [|t ts IH]; intros s edges; simpl.
  - lia.
  - rewrite IH. unfold addTriangleEdges. simpl.
    rewrite !indexCount_pushEdge. lia.
Qed.

(** X15.  After the first pass of [detectSilhouette] no key has two
    entries in the map, the entry of a key lists the triangles that have
    the edge, once for each occurrence and in the order of the mesh, and
    the map holds three indices for each triangle. *)
Theorem edge_map_built :
  forall ts : list (Triangle R),
    distinctKeys (buildEdges ts) /\
    (forall k, lookup k (buildEdges ts) = owners k ts) /\
    (forall k l, In (k, l) (buildEdges ts) -> l = owners k ts /\ l <> []) /\
    indexCount (buildEdges ts) = (3 * List.length ts)%nat.
Proof.
  intros ts. split; [apply buildEdges_distinct|].
  split; [apply lookup_buildEdges|]. split.
  - intros k l Hin.
    pose proof (In_lookup _ _ _ (buildEdges_distinct ts) Hin) as Hl.
    rewrite lookup_buildEdges in Hl. split; [symmetry; exact Hl|].
    clear Hl. revert Hin. unfold buildEdges.
    assert (Hgen : forall ts s edges,
              (forall k l, In (k, l) edges -> l <> []) ->
              forall k l, In (k, l) (buildEdgesFrom s ts edges) -> l <> []).
    { clear. induction ts as [|t ts IH]; intros s edges Hne k l; simpl.
      - apply Hne.
      - apply IH. clear k l. unfold addTriangleEdges. simpl.
        assert (Hpush : forall es k0 i,
                  (forall k l, In (k, l) es -> l <> []) ->
                  forall k l, In (k, l) (pushEdge es k0 i) -> l <> []).
        { clear. induction es as [|[k1 l1] es IH]; intros k0 i Hne k l; simpl.
          - intros [H | []]. injection H as _ <-. discriminate.
          - destruct (key_eqb k1 k0); simpl.
            + intros [H | H].
              * injection H as _ <-. destruct l1; discriminate.
              * apply (Hne k l). right. exact H.
            + intros [H | H].
              * apply (Hne k l). left. exact H.
              * apply (IH k0 i) with (k := k); [|exact H].
                intros k' l' H'. apply (Hne k' l'). right. exact H'. }
        repeat apply Hpush. exact Hne. }
    apply Hgen. intros ? ? [].
  - unfold buildEdges. rewrite indexCount_buildEdgesFrom. reflexivity.
Qed.

(** X16.  Where all the triangles of a mesh face the view direction
    alike, [detectSilhouette] flags none. *)
Theorem silhouette_needs_disagreement :
  forall (ts : list (Triangle R)) (viewDirection : Vector3),
    (forall t1 t2, In t1 ts -> In t2 ts ->
                   facing viewDirection t1 = facing viewDirection t2) ->
    forall i : nat, nth i (detectSilhouette ts viewDirection) false = false.
Proof.
  intros ts vd Hsame i.
  destruct (nth_error ts i) as [t|] eqn:Hi.
  - apply not_true_is_false. intros Hflag.
    apply (detectSilhouette_flag ts vd i t Hi) in Hflag.
    destruct Hflag as [e [j1 [j2 [_ [_ [t1 [t2 [H1 [H2 Hne]]]]]]]]].
    apply Hne. apply Hsame; eapply nth_error_In; eassumption.
  - apply nth_overflow. rewrite detectSilhouette_length.
    apply nth_error_None. exact Hi.
Qed.

Lemma silhouette_needs_disagreement_witness :
  nth 0 (detectSilhouette foldMesh (vec3 1 0 0)) false = false.
Proof.
  apply (silhouette_needs_disagreement foldMesh (vec3 1 0 0)).
  assert (Hf : forall t, In t foldMesh -> facing (vec3 1 0 0) t = false).
  { intros t [<- | [<- | []]];
      unfold facing, proper, lower, toVector, dot; simpl; js_decide; reflexivity. }
  intros t1 t2 H1 H2. rewrite (Hf t1 H1), (Hf t2 H2). reflexivity.
Defined.

(** X17.  Silhouette triangles come in pairs: a flagged triangle has
    an edge in common with another flagged triangle that faces the view
    direction the other way. *)
Theorem silhouette_triangles_pair_up :
  forall (ts : list (Triangle R)) (viewDirection : Vector3) (i : nat) (t : Triangle R),
    nth_error ts i = Some t ->
    nth i (detectSilhouette ts viewDirection) false = true ->
    exists j t' e e',
      j <> i /\ nth_error ts j = Some t' /\
      nth j (detectSilhouette ts viewDirection) false = true /\
      facing viewDirection t <> facing viewDirection t' /\
      (e < 3)%nat /\ (e' < 3)%nat /\ edgeKey t e = edgeKey t' e'.
Proof.
  intros ts vd i t Hi Hflag.
  apply (detectSilhouette_flag ts vd i t Hi) in Hflag.
  destruct Hflag as [e [j1 [j2 [He [Hown [t1 [t2 [H1 [H2 Hne]]]]]]]]].
  pose proof (slot_owner ts 0 i t e Hi He) as Hin.
  fold (owners (edgeKey t e) ts) in Hin. rewrite Hown in Hin. simpl in Hin.
  assert (Hother : forall j tj,
            In j (owners (edgeKey t e) ts) -> nth_error ts j = Some tj ->
            exists e', (e' < 3)%nat /\ edgeKey tj e' = edgeKey t e /\
                       nth j (detectSilhouette ts vd) false = true).
  { intros j tj Hj Htj.
    destruct (owner_slot ts 0 j (edgeKey t e) Hj) as [n [t' [e' [Hn [Ht' [He' Hk]]]]]].
    simpl in Hn. subst n. rewrite Htj in Ht'. injection Ht' as <-.
    exists e'. split; [exact He'|]. split; [exact Hk|].
    apply (detectSilhouette_flag ts vd j tj Htj).
    exists e', j1, j2. rewrite Hk. split; [exact He'|]. split; [exact Hown|].
    exists t1, t2. auto. }
  destruct Hin as [Heq | [Heq | []]]; subst i.
  - rewrite Hi in H1. injection H1 as <-.
    destruct (Hother j2 t2) as [e' [He' [Hk Hf]]];
      [rewrite Hown; simpl; auto | exact H2 |].
    exists j2, t2, e, e'. repeat split; auto.
    intros ->. rewrite Hi in H2. injection H2 as <-. apply Hne. reflexivity.
  - rewrite Hi in H2. injection H2 as <-.
    destruct (Hother j1 t1) as [e' [He' [Hk Hf]]];
      [rewrite Hown; simpl; auto | exact H1 |].
    exists j1, t1, e, e'. repeat split; auto.
    intros ->. rewrite Hi in H1. injection H1 as <-. apply Hne. reflexivity.
Qed.

(** Evaluates the owners of an edge of the folded mesh. *)
Ltac fold_eval :=
  unfold owners, ownersIn, occurrencesFrom, foldMesh, lower, proper,
    edgeSlots, edgeKey, createEdgeKey, key_eqb, triple_eqb, vertex;
  simpl; repeat (progress (js_decide; simpl)).

Lemma fold_owners_ab : owners (edgeKey proper 0) foldMesh = [0; 1]%nat.
Proof. fold_eval. reflexivity. Qed.

Lemma fold_disagree : disagree fromAbove foldMesh 0 1.
Proof.
  exists proper, lower. repeat split.
  unfold facing, fromAbove, proper, lower, toVector, dot; simpl.
  js_decide. discriminate.
Qed.

Lemma fold_flagged : nth 0 (detectSilhouette foldMesh fromAbove) false = true.
Proof.
  apply (detectSilhouette_flag foldMesh fromAbove 0 proper eq_refl).
  exists 0%nat, 0%nat, 1%nat. split; [lia|].
  split; [exact fold_owners_ab | exact fold_disagree].
Qed.

Lemma silhouette_triangles_pair_up_witness :
  exists j t' e e',
    j <> 0%nat /\ nth_error foldMesh j = Some t' /\
    nth j (detectSilhouette foldMesh fromAbove) false = true /\
    facing fromAbove proper <> facing fromAbove t' /\
    (e < 3)%nat /\ (e' < 3)%nat /\ edgeKey proper e = edgeKey t' e'.
Proof.
  apply (silhouette_triangles_pair_up foldMesh fromAbove 0 proper).
  - reflexivity.
  - exact fold_flagged.
Defined.

(** ** multiview.ts: the pixels [renderView] writes *)

Import PictureSpec.

(** Settles the integer comparisons of the goal by cases. *)
Ltac z_cases :=
  repeat match goal with
  | |- context [(?a =? ?b)%Z] =>
      let E := fresh "E" in
      destruct (a =? b)%Z eqn:E;
      [apply Z.eqb_eq in E | apply Z.eqb_neq in E]
  | |- context [(?a <? ?b)%Z] =>
      let E := fresh "E" in
      destruct (a <? b)%Z eqn:E;
      [apply Z.ltb_lt in E | apply Z.ltb_ge in E]
  | |- context [(?a <=? ?b)%Z] =>
      let E := fresh "E" in
      destruct (a <=? b)%Z eqn:E;
      [apply Z.leb_le in E | apply Z.leb_gt in E]
  end;
  cbn [andb orb negb]; try reflexivity; try lia.

Section Picture.
Open Scope Z_scope.

Lemma store_dims (img : ImageData) (i v : Z) :
  imageWidth (store img i v) = imageWidth img /\
  imageHeight (store img i v) = imageHeight img.
Proof. unfold store. destruct (_ && _); split; reflexivity. Qed.

Lemma store_data (img : ImageData) (i v j : Z) :
  0 <= i < 4 * imageWidth img * imageHeight img ->
  data (store img i v) j = if j =? i then clamp8 v else data img j.
Proof.
  intros [Hlo Hhi]. unfold store.
  rewrite (proj2 (Z.leb_le 0 i) Hlo), (proj2 (Z.ltb_lt _ _) Hhi). reflexivity.
Qed.

Lemma storePixel_dims (img : ImageData) (x y : Z) (c : Vector3) :
  imageWidth (storePixel img x y c) = imageWidth img /\
  imageHeight (storePixel img x y c) = imageHeight img.
Proof.
  unfold storePixel. cbv zeta.
  repeat match goal with
  | |- context [imageWidth (store ?a ?b ?c)] =>
      rewrite (proj1 (store_dims a b c))
  | |- context [imageHeight (store ?a ?b ?c)] =>
      rewrite (proj2 (store_dims a b c))
  end.
  split; reflexivity.
Qed.

(** The index of a pixel of the image is inside the array. *)
Lemma pixel_index_range (img : ImageData) (x y : Z) :
  inImage img x y ->
  0 <= (y * imageWidth img + x) * 4 /\
  (y * imageWidth img + x) * 4 + 3 < 4 * imageWidth img * imageHeight img.
Proof.
  intros [[Hx0 Hx1] [Hy0 Hy1]]. split; [nia|].
  assert (y * imageWidth img + x <= (imageHeight img - 1) * imageWidth img
                                    + (imageWidth img - 1)) by nia.
  nia.
Qed.

(** Two pixels of the image with the same index are the same pixel. *)
Lemma pixel_index_inj (img : ImageData) (x y x' y' : Z) :
  inImage img x y -> inImage img x' y' ->
  y * imageWidth img + x = y' * imageWidth img + x' -> x = x' /\ y = y'.
Proof.
  intros [[Hx0 Hx1] [Hy0 Hy1]] [[Hx0' Hx1'] [Hy0' Hy1']] Heq.
  assert (y = y') by nia. subst y'. split; [lia | reflexivity].
Qed.

Lemma storePixel_data (img : ImageData) (x y : Z) (c : Vector3) (j : Z) :
  inImage img x y ->
  let i := (y * imageWidth img + x) * 4 in
  data (storePixel img x y c) j
  = if j =? i + 3 then 255
    else if j =? i + 2 then clamp8 (JS.round (vz c * 255)%R)
    else if j =? i + 1 then clamp8 (JS.round (vy c * 255)%R)
    else if j =? i then clamp8 (JS.round (vx c * 255)%R)
    else data img j.
Proof.
  intros Hin i. destruct (pixel_index_range img x y Hin) as [Hlo Hhi]. fold i in Hlo, Hhi.
  unfold storePixel. cbv zeta. fold i.
  rewrite store_data.
  2: { rewrite !(proj1 (store_dims _ _ _)), !(proj2 (store_dims _ _ _)). lia. }
  rewrite store_data.
  2: { rewrite !(proj1 (store_dims _ _ _)), !(proj2 (store_dims _ _ _)). lia. }
  rewrite store_data.
  2: { rewrite !(proj1 (store_dims _ _ _)), !(proj2 (store_dims _ _ _)). lia. }
  rewrite store_data by lia.
  reflexivity.
Qed.

Lemma storePixel_pixel (img : ImageData) (x y : Z) (c : Vector3) (px py : Z) :
  inImage img x y -> inImage img px py ->
  imagePixel (storePixel img x y c) px py
  = if (px =? x) && (py =? y) then pixelOf c else imagePixel img px py.
Proof.
  intros Hin Hp. unfold imagePixel.
  rewrite (proj1 (storePixel_dims img x y c)).
  rewrite !(storePixel_data img x y c _ Hin). cbv zeta.
  destruct ((px =? x) && (py =? y)) eqn:Hsame.
  - apply andb_true_iff in Hsame. destruct Hsame as [Hx Hy].
    apply Z.eqb_eq in Hx. apply Z.eqb_eq in Hy. subst px py.
    set (i := (y * imageWidth img + x) * 4).
    repeat match goal with
    | |- context [?a =? ?b] =>
        first [ replace (a =? b) with true by (symmetry; apply Z.eqb_eq; lia)
              | replace (a =? b) with false by (symmetry; apply Z.eqb_neq; lia) ]
    end.
    reflexivity.
  - assert (Hne : py * imageWidth img + px <> y * imageWidth img + x).
    { intros Heq. destruct (pixel_index_inj img px py x y Hp Hin Heq) as [-> ->].
      rewrite !Z.eqb_refl in Hsame. discriminate. }
    set (i := (y * imageWidth img + x) * 4) in *.
    set (i' := (py * imageWidth img + px) * 4) in *.
    assert (Hfar : i' + 3 < i \/ i + 3 < i') by (unfold i, i'; lia).
    repeat match goal with
    | |- context [?a =? ?b] =>
        replace (a =? b) with false by (symmetry; apply Z.eqb_neq; lia)
    end.
    reflexivity.
Qed.

Lemma blockOffsets_two (base limit : Z) :
  blockOffsets base 2 limit
  = (if base + 0 <? limit then [0] else []) ++ (if base + 1 <? limit then [1] else []).
Proof.
  unfold blockOffsets. simpl.
  destruct (base + 0 <? limit), (base + 1 <? limit); reflexivity.
Qed.

(** One row of a block. *)
Lemma blockRow_pixel (img : ImageData) (x y : Z) (c : Vector3) (px py : Z) :
  0 <= x -> 0 <= y < imageHeight img -> inImage img px py ->
  let row :=
    fold_left (fun im dx => storePixel im (x + dx) y c)
      (blockOffsets x 2 (imageWidth img)) img in
  imageWidth row = imageWidth img /\ imageHeight row = imageHeight img /\
  imagePixel row px py
  = if (x <=? px) && (px <? x + 2) && (py =? y) then pixelOf c
    else imagePixel img px py.
Proof.
  intros Hx Hy Hp. destruct Hp as [Hpx Hpy]. cbv zeta.
  rewrite blockOffsets_two.
  destruct (x + 0 <? imageWidth img) eqn:E0;
    destruct (x + 1 <? imageWidth img) eqn:E1;
    cbn [app fold_left];
    repeat (rewrite ?(proj1 (storePixel_dims _ _ _ _)),
                    ?(proj2 (storePixel_dims _ _ _ _)));
    (split; [reflexivity|]); (split; [reflexivity|]);
    try apply Z.ltb_lt in E0; try apply Z.ltb_ge in E0;
    try apply Z.ltb_lt in E1; try apply Z.ltb_ge in E1.
  - rewrite storePixel_pixel.
    + rewrite storePixel_pixel by (unfold inImage; lia). z_cases.
    + unfold inImage.
      rewrite (proj1 (storePixel_dims _ _ _ _)), (proj2 (storePixel_dims _ _ _ _)). lia.
    + unfold inImage.
      rewrite (proj1 (storePixel_dims _ _ _ _)), (proj2 (storePixel_dims _ _ _ _)). lia.
  - rewrite storePixel_pixel by (unfold inImage; lia). z_cases.
  - lia.
  - z_cases.
Qed.

Lemma fillBlock_pixel (img : ImageData) (x y : Z) (c : Vector3) (px py : Z) :
  0 <= x -> 0 <= y -> inImage img px py ->
  imageWidth (fillBlock img x y 2 c) = imageWidth img /\
  imageHeight (fillBlock img x y 2 c) = imageHeight img /\
  imagePixel (fillBlock img x y 2 c) px py
  = if inRect x y 2 2 px py then pixelOf c else imagePixel img px py.
Proof.
  intros Hx Hy Hp. unfold fillBlock, inRect.
  rewrite blockOffsets_two.
  destruct (y + 0 <? imageHeight img) eqn:E0;
    destruct (y + 1 <? imageHeight img) eqn:E1;
    cbn [app fold_left];
    try apply Z.ltb_lt in E0; try apply Z.ltb_ge in E0;
    try apply Z.ltb_lt in E1; try apply Z.ltb_ge in E1.
  - destruct (blockRow_pixel img x (y + 0) c px py) as [Hw [Hh Hpix]];
      [lia | lia | exact Hp |]. cbv zeta in Hw, Hh, Hpix.
    set (row0 := fold_left _ _ img) in *.
    destruct (blockRow_pixel row0 x (y + 1) c px py) as [Hw' [Hh' Hpix']];
      [lia | lia | unfold inImage in *; lia |]. cbv zeta in Hw', Hh', Hpix'.
    rewrite Hw', Hh', Hpix', Hpix, Hw, Hh.
    split; [reflexivity|]. split; [reflexivity|].
    destruct Hp as [Hpx Hpy]. z_cases.
  - destruct (blockRow_pixel img x (y + 0) c px py) as [Hw [Hh Hpix]];
      [lia | lia | exact Hp |]. cbv zeta in Hw, Hh, Hpix.
    rewrite Hw, Hh, Hpix.
    split; [reflexivity|]. split; [reflexivity|].
    destruct Hp as [Hpx Hpy]. z_cases.
  - lia.
  - split; [reflexivity|]. split; [reflexivity|].
    destruct Hp as [Hpx Hpy]. z_cases.
Qed.

Lemma blockOf_of_block (n : nat) (p : Z) :
  Z.of_nat n * 2 <= p < Z.of_nat n * 2 + 2 -> blockOf p = Z.of_nat n * 2.
Proof.
  intros Hp. unfold blockOf.
  pose proof (Z.div_mod p 2 ltac:(lia)). pose proof (Z.mod_pos_bound p 2 ltac:(lia)).
  lia.
Qed.

(** The blocks of one row of samples, the first [n] of them. *)
Lemma sampleRow_pixel (f : Z -> Vector3) (y px py : Z) (n : nat) :
  forall img : ImageData,
    0 <= y -> inImage img px py ->
    let row :=
      fold_left (fun im x => fillBlock im x y 2 (f x))
        (map (fun k => Z.of_nat k * 2) (seq 0 n)) img in
    imageWidth row = imageWidth img /\ imageHeight row = imageHeight img /\
    imagePixel row px py
    = if (px <? Z.of_nat n * 2) && (y <=? py) && (py <? y + 2)
      then pixelOf (f (blockOf px))
      else imagePixel img px py.
Proof.
  induction n as [|n IH]; intros img Hy Hp; cbv zeta.
  - cbn [seq map fold_left]. split; [reflexivity|]. split; [reflexivity|].
    destruct Hp as [Hpx Hpy]. z_cases.
  - rewrite seq_S, map_app, fold_left_app. cbn [Nat.add map fold_left].
    destruct (IH img Hy Hp) as [Hw [Hh Hpix]]. cbv zeta in Hw, Hh, Hpix.
    set (before := fold_left _ _ img) in *.
    destruct (fillBlock_pixel before (Z.of_nat n * 2) y (f (Z.of_nat n * 2)) px py)
      as [Hw' [Hh' Hpix']]; [lia | lia | unfold inImage in *; lia |].
    rewrite Hw', Hh', Hpix', Hpix, Hw, Hh.
    split; [reflexivity|]. split; [reflexivity|].
    destruct Hp as [Hpx Hpy]. unfold inRect.
    destruct ((Z.of_nat n * 2 <=? px) && (px <? Z.of_nat n * 2 + 2)) eqn:Hblock.
    + apply andb_true_iff in Hblock. destruct Hblock as [H1 H2].
      apply Z.leb_le in H1. apply Z.ltb_lt in H2.
      rewrite (blockOf_of_block n px) by lia.
      replace (px <? Z.of_nat (S n) * 2) with true
        by (symmetry; apply Z.ltb_lt; lia).
      cbn [andb]. destruct ((y <=? py) && (py <? y + 2)) eqn:Hrow.
      * reflexivity.
      * replace (px <? Z.of_nat n * 2) with false
          by (symmetry; apply Z.ltb_ge; lia).
        reflexivity.
    + cbn [andb].
      replace (px <? Z.of_nat (S n) * 2) with (px <? Z.of_nat n * 2);
        [reflexivity|].
      apply andb_false_iff in Hblock.
      destruct Hblock as [H | H];
        [apply Z.leb_gt in H | apply Z.ltb_ge in H];
        destruct (px <? Z.of_nat n * 2) eqn:E;
        try apply Z.ltb_lt in E; try apply Z.ltb_ge in E;
        symmetry; first [apply Z.ltb_lt; lia | apply Z.ltb_ge; lia].
Qed.

Lemma steps_two (limit : Z) :
  steps limit 2
  = map (fun k => Z.of_nat k * 2) (seq 0 (Z.to_nat ((limit + 2 - 1) / 2))).
Proof. reflexivity. Qed.

Lemma steps_cover (limit p : Z) :
  0 <= p < limit -> p < Z.of_nat (Z.to_nat ((limit + 2 - 1) / 2)) * 2.
Proof.
  intros Hp.
  pose proof (Z.div_mod (limit + 2 - 1) 2 ltac:(lia)).
  pose proof (Z.mod_pos_bound (limit + 2 - 1) 2 ltac:(lia)).
  rewrite Z2Nat.id by lia. lia.
Qed.

(** The rows of samples, the first [m] of them, each of [n] blocks. *)
Lemma sampleRows_pixel (f : Z -> Z -> Vector3) (n : nat) (px py : Z) (m : nat) :
  forall img : ImageData,
    inImage img px py -> px < Z.of_nat n * 2 ->
    let rows :=
      fold_left
        (fun im y =>
           fold_left (fun im x => fillBlock im x y 2 (f x y))
             (map (fun k => Z.of_nat k * 2) (seq 0 n)) im)
        (map (fun k => Z.of_nat k * 2) (seq 0 m)) img in
    imageWidth rows = imageWidth img /\ imageHeight rows = imageHeight img /\
    imagePixel rows px py
    = if py <? Z.of_nat m * 2 then pixelOf (f (blockOf px) (blockOf py))
      else imagePixel img px py.
Proof.
  induction m as [|m IH]; intros img Hp Hn; cbv zeta.
  - cbn [seq map fold_left]. split; [reflexivity|]. split; [reflexivity|].
    destruct Hp as [Hpx Hpy]. z_cases.
  - rewrite seq_S, map_app, fold_left_app. cbn [Nat.add map fold_left].
    destruct (IH img Hp Hn) as [Hw [Hh Hpix]]. cbv zeta in Hw, Hh, Hpix.
    set (before := fold_left _ _ img) in *.
    destruct (sampleRow_pixel (fun x => f x (Z.of_nat m * 2)) (Z.of_nat m * 2) px py n
                before) as [Hw' [Hh' Hpix']]; [lia | unfold inImage in *; lia |].
    cbv zeta in Hw', Hh', Hpix'.
    rewrite Hw', Hh', Hpix', Hpix, Hw, Hh.
    split; [reflexivity|]. split; [reflexivity|].
    destruct Hp as [Hpx Hpy].
    replace (px <? Z.of_nat n * 2) with true by (symmetry; apply Z.ltb_lt; lia).
    cbn [andb].
    destruct ((Z.of_nat m * 2 <=? py) && (py <? Z.of_nat m * 2 + 2)) eqn:Hrow.
    + apply andb_true_iff in Hrow. destruct Hrow as [H1 H2].
      apply Z.leb_le in H1. apply Z.ltb_lt in H2.
      rewrite (blockOf_of_block m py) by lia.
      replace (py <? Z.of_nat (S m) * 2) with true
        by (symmetry; apply Z.ltb_lt; lia).
      reflexivity.
    + replace (py <? Z.of_nat (S m) * 2) with (py <? Z.of_nat m * 2);
        [reflexivity|].
      apply andb_false_iff in Hrow.
      destruct Hrow as [H | H];
        [apply Z.leb_gt in H | apply Z.ltb_ge in H];
        destruct (py <? Z.of_nat m * 2) eqn:E;
        try apply Z.ltb_lt in E; try apply Z.ltb_ge in E;
        symmetry; first [apply Z.ltb_lt; lia | apply Z.ltb_ge; lia].
Qed.

(** X19.  [renderView] paints the whole tile and nothing else: the
    pixel of the canvas at column [x] and row [y] inside the tile at
    [(offsetX, offsetY)] gets the opaque colour of the sample at the
    corner of its block of two by two pixels, and every pixel outside
    the tile is as it was. *)
Theorem renderView_pixels :
  forall (sample : Scene -> OrthographicCamera -> Z -> Z -> Z -> Z -> Vector3)
         (ctx : Canvas) (scene : Scene) (camera : OrthographicCamera)
         (width height offsetX offsetY x y : Z),
    canvasPixel
      (renderViewWith sample ctx scene camera width height offsetX offsetY) x y
    = if inRect offsetX offsetY width height x y
      then pixelOf (sample scene camera (blockOf (x - offsetX)) (blockOf (y - offsetY))
                      width height)
      else canvasPixel ctx x y.
Proof.
  intros sample ctx scene camera w h ox oy x y.
  unfold renderViewWith, putImageData. cbv zeta. cbn [canvasPixel].
  unfold MultiviewCommon.step. rewrite !steps_two.
  set (n := Z.to_nat ((w + 2 - 1) / 2)). set (m := Z.to_nat ((h + 2 - 1) / 2)).
  destruct (inRect ox oy w h x y) eqn:Hin.
  - unfold inRect in Hin.
    apply andb_true_iff in Hin. destruct Hin as [Hin H4].
    apply andb_true_iff in Hin. destruct Hin as [Hin H3].
    apply andb_true_iff in Hin. destruct Hin as [H1 H2].
    apply Z.leb_le in H1. apply Z.ltb_lt in H2.
    apply Z.leb_le in H3. apply Z.ltb_lt in H4.
    destruct (sampleRows_pixel (fun x y => sample scene camera x y w h) n
                (x - ox) (y - oy) m (createImageData w h))
      as [Hw [Hh Hpix]].
    + unfold inImage, createImageData. simpl. lia.
    + apply steps_cover. lia.
    + cbv zeta in Hw, Hh, Hpix. rewrite Hw, Hh. cbn [createImageData imageWidth imageHeight].
      replace (inRect ox oy w h x y) with true
        by (symmetry; unfold inRect; rewrite !andb_true_iff;
            rewrite !Z.leb_le, !Z.ltb_lt; lia).
      rewrite Hpix.
      replace (y - oy <? Z.of_nat m * 2) with true
        by (symmetry; apply Z.ltb_lt; apply steps_cover; lia).
      reflexivity.
  - assert (Hdims :
      forall img0,
        imageWidth img0 = w -> imageHeight img0 = h ->
        let img :=
          fold_left
            (fun im y0 =>
               fold_left
                 (fun im x0 => fillBlock im x0 y0 2 (sample scene camera x0 y0 w h))
                 (map (fun k => Z.of_nat k * 2) (seq 0 n)) im)
            (map (fun k => Z.of_nat k * 2) (seq 0 m)) img0 in
        imageWidth img = w /\ imageHeight img = h).
    { intros img0 Hw0 Hh0. cbv zeta.
      destruct (Z_lt_dec 0 w) as [Hwpos|Hwneg]; destruct (Z_lt_dec 0 h) as [Hhpos|Hhneg].
      - destruct (sampleRows_pixel (fun x y => sample scene camera x y w h) n 0 0 m img0)
          as [Hw [Hh _]].
        + unfold inImage. lia.
        + apply steps_cover. lia.
        + cbv zeta in Hw, Hh. rewrite Hw, Hh. auto.
      - assert (Hm : m = 0%nat).
        { unfold m. pose proof (Z.div_mod (h + 2 - 1) 2 ltac:(lia)).
          pose proof (Z.mod_pos_bound (h + 2 - 1) 2 ltac:(lia)). lia. }
        rewrite Hm. cbn [seq map fold_left]. auto.
      - assert (Hn : n = 0%nat).
        { unfold n. pose proof (Z.div_mod (w + 2 - 1) 2 ltac:(lia)).
          pose proof (Z.mod_pos_bound (w + 2 - 1) 2 ltac:(lia)). lia. }
        rewrite Hn. cbn [seq map fold_left].
        assert (Hid : forall (l : list Z) (im : ImageData),
                  fold_left (fun (im0 : ImageData) (_ : Z) => im0) l im = im).
        { induction l as [|a l IHl]; intros im; cbn [fold_left]; auto. }
        rewrite Hid. auto.
      - assert (Hm : m = 0%nat).
        { unfold m. pose proof (Z.div_mod (h + 2 - 1) 2 ltac:(lia)).
          pose proof (Z.mod_pos_bound (h + 2 - 1) 2 ltac:(lia)). lia. }
        rewrite Hm. cbn [seq map fold_left]. auto. }
    destruct (Hdims (createImageData w h) eq_refl eq_refl) as [Hw Hh].
    cbv zeta in Hw, Hh. rewrite Hw, Hh, Hin. reflexivity.
Qed.
End Picture.

(** ** multiview.ts: the bars and the four quarters *)

Import ViewSpec.

Section Bars.
Open Scope Z_scope.

Lemma drawViewBorders_pixel (ctx : Canvas) (viewWidth viewHeight x y : Z) :
  canvasPixel (Multiview.drawViewBorders ctx viewWidth viewHeight) x y
  = if inRect (2 * viewWidth - 8) 0 8 (2 * viewHeight) x y
       || inRect 0 0 8 (2 * viewHeight) x y
       || inRect 0 (2 * viewHeight - 8) (2 * viewWidth) 8 x y
       || inRect 0 0 (2 * viewWidth) 8 x y
       || inRect 0 (viewHeight - 4) (2 * viewWidth) 8 x y
       || inRect (viewWidth - 4) 0 8 (2 * viewHeight) x y
    then black else canvasPixel ctx x y.
Proof.
  unfold Multiview.drawViewBorders, fillRectBlack, black. cbv zeta. cbn [canvasPixel].
  change (8 / 2) with 4.
  replace (viewWidth * 2) with (2 * viewWidth) by lia.
  replace (viewHeight * 2) with (2 * viewHeight) by lia.
  repeat match goal with
  | |- context [inRect ?a ?b ?c ?d x y] =>
      destruct (inRect a b c d x y); cbn [orb]; try reflexivity
  end.
Qed.

(** X20.  [drawViewBorders] paints opaque black the pixels of the
    canvas on the two bars through the middle (4 pixels to each side of
    the middle column and the middle row) and on the frame of 8 pixels,
    and leaves the other pixels of the canvas as they were. *)
Theorem drawViewBorders_bars :
  forall (ctx : Canvas) (viewWidth viewHeight x y : Z),
    (onBars viewWidth viewHeight x y ->
     canvasPixel (Multiview.drawViewBorders ctx viewWidth viewHeight) x y = black) /\
    (0 <= x < 2 * viewWidth -> 0 <= y < 2 * viewHeight ->
     ~ onBars viewWidth viewHeight x y ->
     canvasPixel (Multiview.drawViewBorders ctx viewWidth viewHeight) x y
     = canvasPixel ctx x y).
Proof.
  intros ctx vw vh x y. rewrite drawViewBorders_pixel. unfold onBars, inRect. split.
  - intros H. z_cases.
  - intros Hx Hy H. z_cases.
Qed.

(** X21.  The picture [generateMultiview] writes: the pixels on the
    bars are black, and every other pixel of the canvas is the pixel of
    the view in whose quarter it lies, that is the colour of the sample
    at the corner of its block of two by two pixels through the camera of
    that view. *)
Theorem multiview_picture :
  forall (models : list (STLModel R)) (options : MultiviewOptions) (x y : Z),
    let picture := image (Multiview.generateMultiview models options) in
    (onBars Multiview.viewWidth Multiview.viewHeight x y ->
     canvasPixel picture x y = black) /\
    (forall view,
       In view (multiviewViews models) -> inQuarter view x y ->
       ~ onBars Multiview.viewWidth Multiview.viewHeight x y ->
       canvasPixel picture x y = tilePixel models view x y).
Proof.
  intros models options x y picture. unfold picture, Multiview.generateMultiview.
  cbv zeta. cbn [image]. split.
  - intros H. apply drawViewBorders_bars. exact H.
  - intros view Hview Hq Hbars.
    assert (Hx : 0 <= x < 2 * Multiview.viewWidth /\ 0 <= y < 2 * Multiview.viewHeight).
    { unfold multiviewViews, Multiview.views in Hview. cbv zeta in Hview.
      unfold inQuarter in Hq.
      destruct Hview as [<- | [<- | [<- | [<- | []]]]]; cbn [canvasX canvasY] in Hq;
        unfold Multiview.viewWidth, Multiview.viewHeight in *; lia. }
    rewrite (proj2 (drawViewBorders_bars _ _ _ x y)); [|lia | lia | exact Hbars].
    unfold renderViews, Multiview.views. cbn [fold_left].
    cbn [viewPosition viewTarget viewUp canvasX canvasY].
    rewrite !renderView_pixels.
    unfold multiviewViews, Multiview.views in Hview. cbv zeta in Hview.
    unfold inQuarter in Hq. unfold tilePixel, viewCamera, multiviewScene, multiviewScale.
    unfold inRect.
    destruct Hview as [<- | [<- | [<- | [<- | []]]]];
      cbn [viewPosition viewTarget viewUp canvasX canvasY] in *;
      unfold Multiview.viewWidth, Multiview.viewHeight in *;
      z_cases.
Qed.

Lemma multiview_picture_witness :
  exists view,
    In view (multiviewViews []) /\
    canvasPixel
      (image (Multiview.generateMultiview []
                {| width := 40; height := 30; outputPath := "out.png" |}))
      100 100
    = tilePixel [] view 100 100.
Proof.
  eexists. split.
  - unfold multiviewViews, Multiview.views. cbv zeta. left. reflexivity.
  - apply (multiview_picture []
             {| width := 40; height := 30; outputPath := "out.png" |} 100 100).
    + unfold multiviewViews, Multiview.views. cbv zeta. left. reflexivity.
    + unfold inQuarter. cbn [canvasX canvasY].
      unfold Multiview.viewWidth, Multiview.viewHeight. lia.
    + unfold onBars, Multiview.viewWidth, Multiview.viewHeight. lia.
Defined.
End Bars.

(** ** multiview.ts, the plain version: the grid in pixel space *)

(** X22.  In the version of the file without outlines, the background
    of a sample at a column and a row that are not negative is the base
    colour darkened to 0.9 when the column or the row is a multiple of
    40, and the base colour otherwise. *)
Theorem plain_background_grid :
  forall (x y width height : Z) (baseColor : Vector3),
    (0 <= x)%Z -> (0 <= y)%Z ->
    ((x mod 40 = 0 \/ y mod 40 = 0)%Z ->
     MultiviewPlain.getBackgroundColor x y width height baseColor
     = vec3 (vx baseColor * 0.9) (vy baseColor * 0.9) (vz baseColor * 0.9)) /\
    (~ (x mod 40 = 0 \/ y mod 40 = 0)%Z ->
     MultiviewPlain.getBackgroundColor x y width height baseColor = baseColor).
Proof.
  intros x y w h base Hx Hy. unfold MultiviewPlain.getBackgroundColor. cbv zeta.
  rewrite (Z.rem_mod_nonneg x 40), (Z.rem_mod_nonneg y 40) by lia.
  pose proof (Z.mod_pos_bound x 40 ltac:(lia)) as Hbx.
  pose proof (Z.mod_pos_bound y 40 ltac:(lia)) as Hby.
  split; intros H.
  - destruct (x mod 40 <? 1)%Z eqn:Ex; [reflexivity|].
    destruct (y mod 40 <? 1)%Z eqn:Ey; [reflexivity|].
    apply Z.ltb_ge in Ex. apply Z.ltb_ge in Ey. lia.
  - destruct (x mod 40 <? 1)%Z eqn:Ex; [apply Z.ltb_lt in Ex; lia|].
    destruct (y mod 40 <? 1)%Z eqn:Ey; [apply Z.ltb_lt in Ey; lia|].
    reflexivity.
Qed.

Lemma plain_background_grid_witness :
  MultiviewPlain.getBackgroundColor 80 7 400 300 (vec3 1 1 0.8)
  = vec3 (1 * 0.9) (1 * 0.9) (0.8 * 0.9).
Proof.
  apply (plain_background_grid 80 7 400 300 (vec3 1 1 0.8)); try lia.
  left. reflexivity.
Defined.

(** ** stl.ts: the binary decoder *)

Import StlBinary BinarySpec.

Section Binary.
Open Scope nat_scope.
Open Scope list_scope.

Lemma list_length_of_string (s : string) :
  List.length (list_ascii_of_string s) = String.length s.
Proof. induction s as [|c s IH]; simpl; auto. Qed.

Lemma byteAt_in (buffer : string) (i : nat) :
  i < String.length buffer -> exists b, byteAt buffer i = Some b /\ (b < 256)%N.
Proof.
  intros Hi. unfold byteAt.
  destruct (nth_error (list_ascii_of_string buffer) i) as [c|] eqn:Hc.
  - exists (N_of_ascii c). split; [reflexivity | apply N_ascii_bounded].
  - apply nth_error_None in Hc. rewrite list_length_of_string in Hc. lia.
Qed.

Lemma byteAt_out (buffer : string) (i : nat) :
  String.length buffer <= i -> byteAt buffer i = None.
Proof.
  intros Hi. unfold byteAt.
  rewrite (proj2 (nth_error_None _ _)); [reflexivity|].
  rewrite list_length_of_string. exact Hi.
Qed.

Lemma readUInt32LE_in (buffer : string) (offset : nat) :
  offset + 4 <= String.length buffer ->
  exists n, readUInt32LE buffer offset = Normal n.
Proof.
  intros H. unfold readUInt32LE.
  destruct (byteAt_in buffer offset) as [b0 [-> _]]; [lia|].
  destruct (byteAt_in buffer (offset + 1)) as [b1 [-> _]]; [lia|].
  destruct (byteAt_in buffer (offset + 2)) as [b2 [-> _]]; [lia|].
  destruct (byteAt_in buffer (offset + 3)) as [b3 [-> _]]; [lia|].
  eexists. reflexivity.
Qed.

Lemma readUInt32LE_out (buffer : string) (offset : nat) :
  String.length buffer < offset + 4 ->
  readUInt32LE buffer offset = Throw RangeError.
Proof.
  intros H. unfold readUInt32LE.
  rewrite (byteAt_out buffer (offset + 3)) by lia.
  destruct (byteAt buffer offset), (byteAt buffer (offset + 1)),
    (byteAt buffer (offset + 2)); reflexivity.
Qed.

Lemma readFloatLE_in (buffer : string) (offset : nat) :
  offset + 4 <= String.length buffer ->
  exists x, readFloatLE buffer offset = Normal x.
Proof.
  intros H. unfold readFloatLE.
  destruct (readUInt32LE_in buffer offset H) as [n ->]. simpl. eexists. reflexivity.
Qed.

Lemma readFloatLE_out (buffer : string) (offset : nat) :
  String.length buffer < offset + 4 ->
  readFloatLE buffer offset = Throw RangeError.
Proof.
  intros H. unfold readFloatLE. rewrite (readUInt32LE_out buffer offset H). reflexivity.
Qed.

Lemma readVector_in (buffer : string) (offset : nat) :
  offset + 12 <= String.length buffer ->
  exists v, readVector buffer offset = Normal v.
Proof.
  intros H. unfold readVector.
  destruct (readFloatLE_in buffer offset) as [a ->]; [lia|].
  destruct (readFloatLE_in buffer (offset + 4)) as [b ->]; [lia|].
  destruct (readFloatLE_in buffer (offset + 8)) as [c ->]; [lia|].
  simpl. eexists. reflexivity.
Qed.

Lemma readVector_out (buffer : string) (offset : nat) :
  String.length buffer < offset + 12 ->
  readVector buffer offset = Throw RangeError.
Proof.
  intros H. unfold readVector.
  rewrite (readFloatLE_out buffer (offset + 8)) by lia.
  destruct (Nat.le_gt_cases (offset + 4) (String.length buffer)) as [H0 | H0].
  - destruct (readFloatLE_in buffer offset H0) as [a ->]. simpl.
    destruct (Nat.le_gt_cases (offset + 4 + 4) (String.length buffer)) as [H1 | H1].
    + destruct (readFloatLE_in buffer (offset + 4) H1) as [b ->]. reflexivity.
    + rewrite (readFloatLE_out buffer (offset + 4) H1). reflexivity.
  - rewrite (readFloatLE_out buffer offset H0). reflexivity.
Qed.

(** The records: [count] of them are read when all but the two last
    bytes of the last one are there, and a [RangeError] is thrown when
    not. *)
Lemma readTriangles_in (buffer : string) (count : nat) :
  forall (offset : nat) (triangles : list (Triangle Number)),
    count = 0 \/ offset + 50 * count <= String.length buffer + 2 ->
    exists read,
      readTriangles count buffer offset triangles = Normal (triangles ++ read) /\
      List.length read = count.
Proof.
  induction count as [|count IH]; intros offset tris H.
  - exists []. rewrite app_nil_r. split; reflexivity.
  - destruct H as [H | H]; [discriminate|].
    cbn [readTriangles].
    destruct (readVector_in buffer offset) as [n ->]; [lia|].
    destruct (readVector_in buffer (offset + 12)) as [v0 ->]; [lia|].
    destruct (readVector_in buffer (offset + 12 + 12)) as [v1 ->]; [lia|].
    destruct (readVector_in buffer (offset + 12 + 24)) as [v2 ->]; [lia|].
    cbn [bind].
    destruct (IH (offset + 12 + 36 + 2) (tris ++ [mkTriangle n (v0, v1, v2)]))
      as [read [Hread Hlen]].
    + destruct count; [left; reflexivity | right; lia].
    + exists (mkTriangle n (v0, v1, v2) :: read). split.
      * rewrite Hread, <- app_assoc. reflexivity.
      * simpl. rewrite Hlen. reflexivity.
Qed.

Lemma readTriangles_out (buffer : string) (count : nat) :
  forall (offset : nat) (triangles : list (Triangle Number)),
    count <> 0 -> String.length buffer + 2 < offset + 50 * count ->
    readTriangles count buffer offset triangles = Throw RangeError.
Proof.
  induction count as [|count IH]; intros offset tris Hc H; [contradiction|].
  cbn [readTriangles].
  destruct (Nat.le_gt_cases (offset + 48) (String.length buffer)) as [Hrec | Hrec].
  - destruct (readVector_in buffer offset) as [n ->]; [lia|].
    destruct (readVector_in buffer (offset + 12)) as [v0 ->]; [lia|].
    destruct (readVector_in buffer (offset + 12 + 12)) as [v1 ->]; [lia|].
    destruct (readVector_in buffer (offset + 12 + 24)) as [v2 ->]; [lia|].
    cbn [bind]. apply IH; lia.
  - destruct (Nat.le_gt_cases (offset + 12) (String.length buffer)) as [H0 | H0];
      [|rewrite (readVector_out buffer offset H0); reflexivity].
    destruct (readVector_in buffer offset H0) as [n ->]. cbn [bind].
    destruct (Nat.le_gt_cases (offset + 12 + 12) (String.length buffer)) as [H1 | H1];
      [|rewrite (readVector_out buffer (offset + 12) H1); reflexivity].
    destruct (readVector_in buffer (offset + 12) H1) as [v0 ->]. cbn [bind].
    destruct (Nat.le_gt_cases (offset + 12 + 12 + 12) (String.length buffer))
      as [H2 | H2];
      [|rewrite (readVector_out buffer (offset + 12 + 12) H2); reflexivity].
    destruct (readVector_in buffer (offset + 12 + 12) H2) as [v1 ->]. cbn [bind].
    rewrite (readVector_out buffer (offset + 12 + 24)) by lia. reflexivity.
Qed.

(** X23.  [parseBinarySTL] throws a [RangeError] on a buffer of fewer
    than 84 bytes.  On a longer one, with the count [n] read at byte 80,
    it returns [n] triangles when [n] is 0 or the buffer has at least
    [82 + 50 n] bytes (all the records but for the two attribute bytes of
    the last), and throws a [RangeError] otherwise. *)
Theorem parseBinarySTL_size :
  forall buffer : string,
    (String.length buffer < 84 -> parseBinarySTL buffer = Throw RangeError) /\
    (84 <= String.length buffer ->
     exists n,
       readUInt32LE buffer 80 = Normal n /\
       (n = 0%N \/ 82 + 50 * N.to_nat n <= String.length buffer ->
        exists triangles,
          parseBinarySTL buffer = Normal (mkModel triangles None) /\
          List.length triangles = N.to_nat n) /\
       (n <> 0%N -> String.length buffer < 82 + 50 * N.to_nat n ->
        parseBinarySTL buffer = Throw RangeError)).
Proof.
  intros buffer. unfold parseBinarySTL. cbv zeta. split.
  - intros H. rewrite readUInt32LE_out by lia. reflexivity.
  - intros H. destruct (readUInt32LE_in buffer 80) as [n Hn]; [lia|].
    exists n. rewrite Hn. cbn [bind]. split; [reflexivity|]. split.
    + intros Hsize.
      destruct (readTriangles_in buffer (N.to_nat n) (80 + 4) []) as [read [Hr Hl]].
      * destruct Hsize as [-> | Hsize]; [left; reflexivity | right; lia].
      * rewrite Hr. cbn [bind app]. exists read. split; [reflexivity | exact Hl].
    + intros Hn0 Hsize.
      rewrite readTriangles_out; [reflexivity | lia | lia].
Qed.
End Binary.

(** *** The layout of a binary mesh *)

Section BinaryLayout.
Open Scope nat_scope.
Open Scope list_scope.

Lemma byteAt_list (l : list ascii) (i : nat) :
  byteAt (string_of_list_ascii l) i = option_map N_of_ascii (nth_error l i).
Proof. unfold byteAt. rewrite list_ascii_of_string_of_list_ascii. reflexivity. Qed.

Lemma skipn_past (l x y : list ascii) (offset k : nat) :
  skipn offset l = x ++ y -> List.length x = k -> skipn (offset + k) l = y.
Proof.
  intros H Hk. rewrite Nat.add_comm, <- skipn_skipn, H, <- Hk.
  rewrite skipn_app, skipn_all, Nat.sub_diag. reflexivity.
Qed.

Lemma le32_value (n : N) :
  (n < 4294967296)%N ->
  (N_of_ascii (ascii_of_N (n mod 256))
   + 256 * N_of_ascii (ascii_of_N ((n / 256) mod 256))
   + 65536 * N_of_ascii (ascii_of_N ((n / 65536) mod 256))
   + 16777216 * N_of_ascii (ascii_of_N ((n / 16777216) mod 256)) = n)%N.
Proof.
  intros Hn.
  rewrite !N_ascii_embedding by (apply N.mod_lt; discriminate).
  pose proof (N.div_mod n 256 ltac:(discriminate)) as H0.
  pose proof (N.div_mod (n / 256) 256 ltac:(discriminate)) as H1.
  pose proof (N.div_mod (n / 256 / 256) 256 ltac:(discriminate)) as H2.
  assert (H3 : (n / 256 / 256 / 256 < 256)%N).
  { rewrite !N.Div0.div_div. change (256 * 256 * 256)%N with 16777216%N.
    apply N.Div0.div_lt_upper_bound. exact Hn. }
  rewrite !N.Div0.div_div in *.
  change (256 * 256)%N with 65536%N in *.
  change (65536 * 256)%N with 16777216%N in *.
  rewrite (N.mod_small (n / 16777216) 256).
  - lia.
  - exact H3.
Qed.

Lemma readUInt32LE_at (l post : list ascii) (offset : nat) (n : N) :
  skipn offset l = le32 n ++ post -> (n < 4294967296)%N ->
  readUInt32LE (string_of_list_ascii l) offset = Normal n.
Proof.
  intros H Hn. unfold readUInt32LE. rewrite !byteAt_list.
  rewrite <- (Nat.add_0_r offset) at 1.
  rewrite <- !nth_error_skipn, H. cbn [le32 app nth_error option_map].
  rewrite (le32_value n Hn). reflexivity.
Qed.

Lemma readVector_at (l post : list ascii) (offset : nat) (v : N * N * N) :
  skipn offset l = vectorBytes v ++ post -> fits32 v ->
  readVector (string_of_list_ascii l) offset = Normal (vectorValue v).
Proof.
  destruct v as [[a b] c]. unfold vectorBytes, fits32. intros H [Ha [Hb Hc]].
  rewrite <- !app_assoc in H.
  unfold readVector, readFloatLE.
  rewrite (readUInt32LE_at l _ offset a H Ha). cbn [bind].
  pose proof (skipn_past l _ _ offset 4 H eq_refl) as H4.
  rewrite (readUInt32LE_at l _ (offset + 4) b H4 Hb). cbn [bind].
  pose proof (skipn_past l _ _ (offset + 4) 4 H4 eq_refl) as H8.
  replace (offset + 4 + 4) with (offset + 8) in H8 by lia.
  rewrite (readUInt32LE_at l _ (offset + 8) c H8 Hc). reflexivity.
Qed.

Lemma vectorBytes_length (v : N * N * N) : List.length (vectorBytes v) = 12.
Proof. destruct v as [[a b] c]. reflexivity. Qed.

Lemma readTriangles_at (l post : list ascii) (facets : list BinaryFacet) :
  forall (offset : nat) (triangles : list (Triangle Number)),
    skipn offset l = flat_map facetBytes facets ++ post ->
    Forall facetFits facets ->
    readTriangles (List.length facets) (string_of_list_ascii l) offset triangles
    = Normal (triangles ++ map facetTriangle facets).
Proof.
  induction facets as [|f facets IH]; intros offset tris H Hfit.
  - simpl. rewrite app_nil_r. reflexivity.
  - inversion Hfit as [|f' fs' Hf Hrest]; subst.
    cbn [List.length readTriangles flat_map map] in *.
    unfold facetFits, facetBytes, facetTriangle in *.
    destruct f as [nb [[v0 v1] v2] [a0 a1]]. cbn [normalBits vertexBits attribute fst snd] in *.
    destruct Hf as [Hn [H0 [H1 H2]]].
    rewrite <- !app_assoc in H.
    rewrite (readVector_at l _ offset nb H Hn). cbn [bind].
    pose proof (skipn_past l _ _ offset 12 H (vectorBytes_length _)) as Ha.
    rewrite (readVector_at l _ (offset + 12) v0 Ha H0). cbn [bind].
    pose proof (skipn_past l _ _ (offset + 12) 12 Ha (vectorBytes_length _)) as Hb.
    rewrite (readVector_at l _ (offset + 12 + 12) v1 Hb H1). cbn [bind].
    pose proof (skipn_past l _ _ (offset + 12 + 12) 12 Hb (vectorBytes_length _)) as Hc.
    replace (offset + 12 + 12 + 12) with (offset + 12 + 24) in Hc by lia.
    rewrite (readVector_at l _ (offset + 12 + 24) v2 Hc H2). cbn [bind].
    pose proof (skipn_past l _ _ (offset + 12 + 24) 12 Hc (vectorBytes_length _)) as Hd.
    pose proof (skipn_past l ([a0; a1]) _ (offset + 12 + 24 + 12) 2 Hd eq_refl) as He.
    replace (offset + 12 + 24 + 12 + 2) with (offset + 12 + 36 + 2) in He by lia.
    rewrite (IH _ _ He Hrest), <- app_assoc. reflexivity.
Qed.

(** X24.  A buffer laid out as a binary mesh (80 header bytes, the count
    of records as a little-endian 32-bit number, then per record twelve
    little-endian 32-bit patterns and two attribute bytes) is decoded by
    [parseBinarySTL] to the triangles of its records, in order, each
    pattern read as an IEEE single.  The header, the attribute bytes and
    whatever follows the last record have no effect. *)
Theorem parseBinarySTL_layout :
  forall (header rest : list ascii) (facets : list BinaryFacet),
    List.length header = 80 ->
    (N.of_nat (List.length facets) < 4294967296)%N ->
    Forall facetFits facets ->
    parseBinarySTL (binaryMesh header facets rest)
    = Normal (mkModel (map facetTriangle facets) None).
Proof.
  intros header rest facets Hh Hcount Hfit.
  unfold parseBinarySTL, binaryMesh. cbv zeta.
  set (l := header ++ le32 (N.of_nat (List.length facets))
            ++ flat_map facetBytes facets ++ rest).
  assert (H80 : skipn 80 l
                = le32 (N.of_nat (List.length facets))
                  ++ flat_map facetBytes facets ++ rest).
  { unfold l. rewrite <- Hh, skipn_app, skipn_all, Nat.sub_diag. reflexivity. }
  rewrite (readUInt32LE_at l _ 80 _ H80 Hcount). cbn [bind].
  rewrite Nnat.Nat2N.id.
  pose proof (skipn_past l _ _ 80 4 H80 eq_refl) as H84.
  rewrite (readTriangles_at l rest facets (80 + 4) [] H84 Hfit). reflexivity.
Qed.

Lemma parseBinarySTL_layout_witness :
  parseBinarySTL (binaryMesh blankHeader [unitFacet] (list_ascii_of_string "tail"))
  = Normal (mkModel [facetTriangle unitFacet] None).
Proof.
  apply (parseBinarySTL_layout blankHeader (list_ascii_of_string "tail") [unitFacet]).
  - reflexivity.
  - reflexivity.
  - repeat constructor.
Defined.
End BinaryLayout.

(** ** stl.ts: the choice of the decoder *)

Import TextSpec.

Section Dispatch.
Open Scope nat_scope.
Open Scope list_scope.

Lemma header_test (p s : string) :
  String.eqb (substring 0 (String.length p) s) p = startsWith p s.
Proof.
  unfold startsWith. revert s.
  induction p as [|a p IH]; intros s.
  - destruct s; reflexivity.
  - destruct s as [|b s]; [reflexivity|].
    cbn [String.length substring String.eqb prefix]. rewrite IH.
    destruct (ascii_dec a b) as [-> | Hab].
    + rewrite Ascii.eqb_refl. reflexivity.
    + apply not_eq_sym in Hab. apply Ascii.eqb_neq in Hab. rewrite Hab. reflexivity.
Qed.

Lemma toAscii_substring (s : string) :
  forall n : nat, toAscii (substring 0 n s) = substring 0 n (toAscii s).
Proof.
  induction s as [|c s IH]; intros [|n]; cbn [substring toAscii]; try reflexivity.
  rewrite IH. reflexivity.
Qed.

Lemma toAscii_length (s : string) : String.length (toAscii s) = String.length s.
Proof. induction s as [|c s IH]; simpl; auto. Qed.

Lemma toAscii_asciiText (s : string) : asciiText s -> toAscii s = s.
Proof.
  unfold asciiText. induction s as [|c s IH]; intros H; [reflexivity|].
  cbn [list_ascii_of_string] in H. inversion H as [|? ? Hc Hs]; subst.
  cbn [toAscii]. rewrite (IH Hs). f_equal.
  change 127%N with (N.ones 7). rewrite N.land_ones.
  rewrite N.mod_small by exact Hc. apply ascii_N_embedding.
Qed.

Lemma startsWith_length (p s : string) :
  startsWith p s = true -> String.length p <= String.length s.
Proof.
  unfold startsWith. revert s.
  induction p as [|a p IH]; intros s H; [simpl; lia|].
  destruct s as [|b s]; [discriminate|].
  cbn [prefix] in H. destruct (ascii_dec a b); [|discriminate].
  simpl. apply IH in H. lia.
Qed.

(** X25.  A file of ASCII bytes (every byte under 128) that starts with
    [solid] and has no line that starts, after trimming, with
    [facet normal] is read by [parseSTL] as a text mesh with no triangle,
    and no error is raised, whatever else the file holds. *)
Theorem parseSTL_solid_without_facets :
  forall buffer : string,
    asciiText buffer ->
    startsWith "solid" buffer = true ->
    Forall notFacet (map trim (splitLines buffer)) ->
    parseSTL buffer = Some (Normal (mkModel [] None)).
Proof.
  intros buffer Hascii Hsolid Hlines.
  unfold parseSTL. cbv zeta.
  rewrite toAscii_substring, (toAscii_asciiText buffer Hascii).
  change 5 with (String.length "solid").
  rewrite header_test, Hsolid.
  unfold parseASCIISTL. cbv zeta.
  rewrite (skipHeader_all _ 0 Hlines), parseFacets_end. reflexivity.
Qed.

Lemma parseSTL_solid_without_facets_witness :
  parseSTL (binaryMesh solidHeader [twoFacet] []) = Some (Normal (mkModel [] None)) /\
  parseBinarySTL (binaryMesh solidHeader [twoFacet] [])
  = Normal (mkModel [facetTriangle twoFacet] None).
Proof.
  split.
  - apply (parseSTL_solid_without_facets (binaryMesh solidHeader [twoFacet] [])).
    + unfold asciiText. vm_compute list_ascii_of_string. repeat constructor.
    + reflexivity.
    + vm_compute map. repeat constructor.
  - reflexivity.
Defined.

Lemma parseBinarySTL_short (buffer : string) :
  String.length buffer < 84 -> parseBinarySTL buffer = Throw RangeError.
Proof.
  intros H. unfold parseBinarySTL. cbv zeta.
  rewrite readUInt32LE_out by lia. reflexivity.
Qed.

(** X26.  A file shorter than 84 bytes whose first five bytes, their
    highest bits dropped, are not [solid] makes [parseSTL] throw a
    [RangeError]; so does every file shorter than 5 bytes, the empty
    file among them. *)
Theorem parseSTL_short_file :
  forall buffer : string,
    String.length buffer < 84 ->
    String.length buffer < 5 \/ startsWith "solid" (toAscii buffer) = false ->
    parseSTL buffer = Some (Throw RangeError).
Proof.
  intros buffer Hlen Hhead.
  assert (Hsolid : startsWith "solid" (toAscii buffer) = false).
  { destruct Hhead as [Hshort | Hhead]; [|exact Hhead].
    destruct (startsWith "solid" (toAscii buffer)) eqn:Hs; [|reflexivity].
    apply startsWith_length in Hs. rewrite toAscii_length in Hs. simpl in Hs. lia. }
  unfold parseSTL. cbv zeta.
  rewrite toAscii_substring.
  change 5 with (String.length "solid").
  rewrite header_test, Hsolid.
  rewrite (parseBinarySTL_short buffer Hlen). reflexivity.
Qed.

Lemma parseSTL_short_file_witness :
  parseSTL "" = Some (Throw RangeError).
Proof.
  apply (parseSTL_short_file ""); [simpl; lia | left; simpl; lia].
Defined.
End Dispatch.

(** ** stl.ts: text meshes that are cut off, and line ends *)

Section TextEdges.
Open Scope nat_scope.
Open Scope list_scope.

(** A facet line with fewer than four lines after it. *)
Lemma parseFacets_cut (pre tail : list string) (l : string) (fuel : nat)
  (triangles : list (Triangle Number)) :
  isFacet l = true -> List.length tail < 4 ->
  parseFacets (S fuel) (pre ++ l :: tail) (List.length pre) triangles
  = Some ThrowTypeError.
Proof.
  intros Hl Htail. cbn [parseFacets].
  rewrite <- (Nat.add_0_r (List.length pre)) at 1.
  rewrite nth_error_after. cbn [nth_error]. rewrite Hl.
  rewrite (proj2 (nth_error_None (pre ++ l :: tail) (List.length pre + 2 + 2))).
  - destruct (nth_error (pre ++ l :: tail) (List.length pre + 2)); [|reflexivity].
    destruct (nth_error (pre ++ l :: tail) (List.length pre + 2 + 1)); reflexivity.
  - rewrite length_app. simpl. lia.
Qed.

Lemma parseFacets_cut_after (recs : list FacetText) :
  forall (pre tail : list string) (l : string) (fuel : nat)
         (triangles : list (Triangle Number)),
    Forall opensFacet recs -> isFacet l = true -> List.length tail < 4 ->
    List.length recs < fuel ->
    parseFacets fuel (pre ++ flat_map recordLines recs ++ l :: tail)
      (List.length pre) triangles
    = Some ThrowTypeError.
Proof.
  induction recs as [|r recs IH]; intros pre tail l fuel tris Hrecs Hl Htail Hfuel.
  - destruct fuel as [|fuel]; [simpl in Hfuel; lia|].
    cbn [flat_map app]. apply parseFacets_cut; assumption.
  - inversion Hrecs as [|? ? Hr Hrecs']; subst.
    destruct fuel as [|fuel]; [lia|].
    cbn [flat_map]. rewrite <- app_assoc.
    cbn [parseFacets].
    rewrite <- (Nat.add_0_r (List.length pre)) at 1.
    rewrite nth_error_after. cbn [recordLines app nth_error].
    unfold opensFacet in Hr. rewrite Hr.
    rewrite <- !Nat.add_assoc. rewrite !nth_error_after.
    cbn [Nat.add nth_error].
    replace (pre ++ facetLine r :: loopLine r :: vertexLine0 r :: vertexLine1 r
               :: vertexLine2 r :: endloopLine r :: endfacetLine r
               :: flat_map recordLines recs ++ l :: tail)
      with ((pre ++ recordLines r) ++ flat_map recordLines recs ++ l :: tail)
      by (rewrite <- app_assoc; reflexivity).
    replace (List.length pre + 7)%nat with (List.length (pre ++ recordLines r))
      by (rewrite length_app; reflexivity).
    apply IH; [exact Hrecs' | exact Hl | exact Htail | simpl in Hfuel; lia].
Qed.

(** X27.  A text mesh of ASCII bytes that is cut off inside a facet
    makes [parseASCIISTL] throw a [TypeError]: when, after a header and
    any number of complete seven-line records, a line that starts with
    [facet normal] has fewer than four lines after it, the triangles read
    so far are given up and the error is thrown. *)
Theorem parseASCIISTL_cut_off :
  forall (buffer : string) (header : list string) (recs : list FacetText)
         (l : string) (tail : list string),
    asciiText buffer ->
    map trim (splitLines buffer) = header ++ flat_map recordLines recs ++ l :: tail ->
    Forall notFacet header ->
    Forall opensFacet recs ->
    isFacet l = true ->
    List.length tail < 4 ->
    parseASCIISTL buffer = Some ThrowTypeError.
Proof.
  intros buffer header recs l tail _ Hlines Hheader Hrecs Hl Htail.
  unfold parseASCIISTL. cbv zeta. rewrite Hlines.
  assert (Hskip : skipHeader (header ++ flat_map recordLines recs ++ l :: tail) 0
                  = List.length header).
  { destruct recs as [|r recs].
    - cbn [flat_map app]. rewrite skipHeader_facet by assumption. reflexivity.
    - inversion Hrecs as [|? ? Hr Hrecs']; subst.
      cbn [flat_map]. rewrite <- app_assoc. cbn [recordLines app].
      rewrite skipHeader_facet by assumption. reflexivity. }
  rewrite Hskip, parseFacets_cut_after; [reflexivity | assumption.. |].
  rewrite !length_app. cbn [List.length].
  assert (Hn : List.length recs <= List.length (flat_map recordLines recs)).
  { clear. induction recs as [|r recs IH]; [apply le_n|].
    cbn [flat_map]. rewrite length_app. simpl. lia. }
  lia.
Qed.

Lemma parseASCIISTL_cut_off_witness :
  parseASCIISTL (String.concat lineFeed cutMesh) = Some ThrowTypeError.
Proof.
  apply (parseASCIISTL_cut_off (String.concat lineFeed cutMesh)
           ["solid t"%string] [wholeFacet] "facet normal 0 0 1"
           ["outer loop"%string; "vertex 0 0 0"%string]).
  - unfold asciiText. vm_compute list_ascii_of_string. repeat constructor.
  - reflexivity.
  - repeat constructor.
  - repeat constructor.
  - reflexivity.
  - simpl. lia.
Defined.

Lemma trimEnd_space (s : string) (c : ascii) :
  isSpace c = true -> trimEnd (s ++ String c EmptyString) = trimEnd s.
Proof.
  intros Hc. induction s as [|a s IH].
  - cbn [append trimEnd]. rewrite Hc. reflexivity.
  - cbn [append trimEnd]. rewrite IH. reflexivity.
Qed.

Lemma trim_space (s : string) (c : ascii) :
  isSpace c = true -> trim (s ++ String c EmptyString) = trim s.
Proof.
  intros Hc. unfold trim. induction s as [|a s IH].
  - cbn [append trimStart]. rewrite Hc. reflexivity.
  - cbn [append trimStart]. destruct (isSpace a); [exact IH|].
    apply (trimEnd_space (String a s) c Hc).
Qed.

Lemma splitLines_cons (s : string) : exists l ls, splitLines s = l :: ls.
Proof.
  induction s as [|c s [l [ls IH]]]; cbn [splitLines].
  - eexists. eexists. reflexivity.
  - destruct (Ascii.eqb c "010"); [eexists; eexists; reflexivity|].
    rewrite IH. eexists. eexists. reflexivity.
Qed.

Lemma splitLines_line (x : string) : oneLine x -> splitLines x = [x].
Proof.
  unfold oneLine. induction x as [|c x IH]; intros H; [reflexivity|].
  cbn [hasNewline] in H. apply Bool.orb_false_iff in H. destruct H as [Hc Hx].
  cbn [splitLines]. rewrite Hc, (IH Hx). reflexivity.
Qed.

Lemma splitLines_feed (x rest : string) :
  oneLine x -> splitLines (x ++ String "010" rest) = x :: splitLines rest.
Proof.
  unfold oneLine. induction x as [|c x IH]; intros H.
  - reflexivity.
  - cbn [hasNewline] in H. apply Bool.orb_false_iff in H. destruct H as [Hc Hx].
    cbn [append splitLines]. rewrite Hc, (IH Hx). reflexivity.
Qed.

Lemma oneLine_return (x : string) :
  oneLine x -> oneLine (x ++ String "013" EmptyString).
Proof.
  unfold oneLine. induction x as [|c x IH]; intros H; [reflexivity|].
  cbn [hasNewline] in H. apply Bool.orb_false_iff in H. destruct H as [Hc Hx].
  cbn [append hasNewline]. rewrite Hc, (IH Hx). reflexivity.
Qed.

Lemma append_assoc (a b c : string) : ((a ++ b) ++ c = a ++ b ++ c)%string.
Proof. induction a as [|x a IH]; simpl; [reflexivity | rewrite IH; reflexivity]. Qed.

Lemma lines_of_joined (lines : list string) :
  lines <> [] -> Forall oneLine lines ->
  map trim (splitLines (String.concat lineFeed lines)) = map trim lines /\
  map trim (splitLines (String.concat carriageReturnLineFeed lines)) = map trim lines.
Proof.
  induction lines as [|x lines IH]; intros Hne Hall; [contradiction|].
  inversion Hall as [|? ? Hx Hrest]; subst.
  destruct lines as [|y lines].
  - cbn [String.concat]. rewrite (splitLines_line x Hx). split; reflexivity.
  - destruct (IH ltac:(discriminate) Hrest) as [IHa IHb].
    change (String.concat lineFeed (x :: y :: lines))
      with (x ++ String "010" (String.concat lineFeed (y :: lines)))%string.
    change (String.concat carriageReturnLineFeed (x :: y :: lines))
      with (x ++ String "013" (String "010"
              (String.concat carriageReturnLineFeed (y :: lines))))%string.
    split.
    + rewrite (splitLines_feed x _ Hx). cbn [map]. rewrite IHa. reflexivity.
    + change (x ++ String "013" (String "010"
                (String.concat carriageReturnLineFeed (y :: lines))))%string
        with (x ++ (String "013" EmptyString)
                ++ String "010" (String.concat carriageReturnLineFeed (y :: lines)))%string.
      rewrite <- append_assoc.
      rewrite (splitLines_feed _ _ (oneLine_return x Hx)). cbn [map].
      rewrite IHb, (trim_space x "013" eq_refl). reflexivity.
Qed.

(** X28.  [parseASCIISTL] reads a text mesh alike with either line end:
    lines joined by carriage return and line feed give the result of
    the same lines joined by line feeds, since every line is trimmed
    before it is looked at. *)
Theorem parseASCIISTL_line_ends :
  forall lines : list string,
    Forall oneLine lines ->
    parseASCIISTL (String.concat carriageReturnLineFeed lines)
    = parseASCIISTL (String.concat lineFeed lines).
Proof.
  intros lines Hall.
  destruct lines as [|x lines]; [reflexivity|].
  destruct (lines_of_joined (x :: lines) ltac:(discriminate) Hall) as [Ha Hb].
  unfold parseASCIISTL. cbv zeta. rewrite Ha, Hb. reflexivity.
Qed.

Lemma parseASCIISTL_line_ends_witness :
  parseASCIISTL (String.concat carriageReturnLineFeed (recordLines wholeFacet))
  = parseASCIISTL (String.concat lineFeed (recordLines wholeFacet)).
Proof.
  apply (parseASCIISTL_line_ends (recordLines wholeFacet)).
  repeat constructor.
Defined.
End TextEdges.

(** ** modules.ts: the modules of a file *)

Import Modules ModulesSpec.

Section ModuleNames.
Open Scope nat_scope.
Open Scope list_scope.

Lemma allWord_wordRun (s : string) : allWord (wordRun s) = true.
Proof.
  induction s as [|c s IH]; [reflexivity|].
  cbn [wordRun]. destruct (isWord c) eqn:Hc; [|reflexivity].
  cbn [allWord]. rewrite Hc, IH. reflexivity.
Qed.

Lemma nonEmpty_some (w name : string) :
  nonEmpty w = Some name -> name = w /\ w <> EmptyString.
Proof.
  destruct w; [discriminate|]. cbn [nonEmpty]. intros H.
  injection H as <-. split; [reflexivity | discriminate].
Qed.

Lemma classThenWord_some (class : ascii -> bool) (s name : string) :
  classThenWord class s = Some name ->
  exists a w, name = String a w /\ class a = true /\ w <> EmptyString
              /\ allWord w = true.
Proof.
  destruct s as [|a s]; [discriminate|].
  cbn [classThenWord]. destruct (class a) eqn:Ha; [|discriminate].
  destruct (nonEmpty (wordRun s)) as [w|] eqn:Hw; [|discriminate].
  cbn [option_map]. intros H. injection H as <-.
  apply nonEmpty_some in Hw. destruct Hw as [-> Hne].
  exists a, (wordRun s). repeat split; auto using allWord_wordRun.
Qed.

Lemma group_shape (convention : ConventionType) (s name : string) :
  group convention s = Some name -> nameShape convention name.
Proof.
  destruct convention; cbn [group nameShape]; intros H.
  - exact (classThenWord_some _ _ _ H).
  - apply nonEmpty_some in H. destruct H as [-> Hne].
    split; [exact Hne | apply allWord_wordRun].
  - destruct (classThenWord_some _ _ _ H) as [a [w [Hn [Ha [Hw Hall]]]]].
    exists a, w. repeat split; auto.
    intros ->. discriminate.
Qed.

Lemma matchAt_shape (convention : ConventionType) (s name : string) :
  matchAt convention s = Some name -> nameShape convention name.
Proof.
  unfold matchAt. destruct (stripPrefix "module " s); [|discriminate].
  apply group_shape.
Qed.

Lemma matchAllFrom_shape (convention : ConventionType) (s : string) :
  forall (lineStart : bool) (skip : nat) (name : string),
    In name (matchAllFrom convention lineStart skip s) ->
    nameShape convention name.
Proof.
  induction s as [|a s IH]; intros lineStart skip name H; [contradiction|].
  cbn [matchAllFrom] in H.
  destruct skip as [|k]; [|exact (IH _ _ _ H)].
  destruct lineStart; [|exact (IH _ _ _ H)].
  destruct (matchAt convention (String a s)) as [n|] eqn:Hn; [|exact (IH _ _ _ H)].
  destruct H as [<- | H]; [exact (matchAt_shape _ _ _ Hn) | exact (IH _ _ _ H)].
Qed.

(** X29.  Whatever a file of ASCII characters holds, a name that
    [findModules] returns is made of word characters after its first
    character and, under [pascal], has two characters or more and starts
    with a capital letter; under [underscore], has two characters or more
    and does not start with an underscore; under [all], is a word of one
    character or more. *)
Theorem findModules_names :
  forall (fileContent : string) (convention : ConventionType) (name : string),
    asciiText fileContent ->
    In name (findModules fileContent convention) ->
    nameShape convention name.
Proof.
  intros fileContent convention name _ H.
  exact (matchAllFrom_shape convention fileContent true 0 name H).
Qed.

Lemma findModules_names_witness :
  nameShape underscore "demo".
Proof.
  apply (findModules_names (fileOf demoFile) underscore "demo").
  - unfold asciiText. vm_compute list_ascii_of_string. repeat constructor.
  - vm_compute. left. reflexivity.
Defined.

Lemma isWord_not_terminator (c : ascii) :
  isWord c = true -> isLineTerminator c = false.
Proof.
  destruct c as [[] [] [] [] [] [] [] []]; cbv; intros H;
    first [reflexivity | discriminate].
Qed.

Lemma allWord_no_terminator (s : string) :
  allWord s = true -> hasLineTerminator s = false.
Proof.
  induction s as [|c s IH]; [reflexivity|].
  cbn [allWord hasLineTerminator]. intros H.
  apply andb_true_iff in H. destruct H as [Hc Hs].
  rewrite (isWord_not_terminator c Hc), (IH Hs). reflexivity.
Qed.

Lemma hasLineTerminator_app (s t : string) :
  hasLineTerminator (s ++ t) = hasLineTerminator s || hasLineTerminator t.
Proof.
  induction s as [|c s IH]; [reflexivity|].
  cbn [append hasLineTerminator]. rewrite IH, orb_assoc. reflexivity.
Qed.

Lemma length_append (s t : string) :
  String.length (s ++ t) = String.length s + String.length t.
Proof. induction s as [|c s IH]; simpl; [reflexivity | rewrite IH; reflexivity]. Qed.

Lemma wordRun_app (name t : string) :
  allWord name = true -> stops t = true -> wordRun (name ++ t) = name.
Proof.
  intros Hn Ht. induction name as [|c name IH].
  - destruct t as [|a t]; [reflexivity|].
    cbn [append wordRun]. cbn [stops] in Ht.
    apply negb_true_iff in Ht. rewrite Ht. reflexivity.
  - cbn [allWord] in Hn. apply andb_true_iff in Hn. destruct Hn as [Hc Hn].
    cbn [append wordRun]. rewrite Hc, (IH Hn). reflexivity.
Qed.

Lemma group_declared (convention : ConventionType) (name t : string) :
  name <> EmptyString -> allWord name = true -> stops t = true ->
  group convention (name ++ t)
  = if accepts convention name then Some name else None.
Proof.
  intros Hne Hn Ht.
  destruct name as [|a w]; [contradiction|].
  cbn [allWord] in Hn. apply andb_true_iff in Hn. destruct Hn as [Ha Hw].
  destruct convention; cbn [group accepts append classThenWord].
  - rewrite (wordRun_app w t Hw Ht).
    destruct w; destruct (isUpper a); reflexivity.
  - change (String a (w ++ t)) with (String a w ++ t)%string.
    rewrite wordRun_app; [reflexivity | | exact Ht].
    cbn [allWord]. rewrite Ha, Hw. reflexivity.
  - rewrite (wordRun_app w t Hw Ht).
    destruct w; destruct (notUnderscore a); reflexivity.
Qed.

(** The end of a line: nothing, or a line feed and the text after
    it. *)
Lemma pass_line (convention : ConventionType) (x : string) :
  forall (k : nat) (y next : string),
    hasLineTerminator x = false -> k <= String.length x ->
    (y = EmptyString /\ next = EmptyString) \/ y = String "010" next ->
    matchAllFrom convention false k (x ++ y) = matchAllFrom convention true 0 next.
Proof.
  induction x as [|a x IH]; intros k y next Hx Hk Hy.
  - simpl in Hk. assert (k = 0) by lia. subst k.
    destruct Hy as [[-> ->] | ->]; reflexivity.
  - cbn [hasLineTerminator] in Hx. apply orb_false_iff in Hx.
    destruct Hx as [Ha Hx]. cbn [append matchAllFrom]. rewrite Ha.
    destruct k as [|k].
    + apply IH; [exact Hx | lia | exact Hy].
    + apply IH; [exact Hx | simpl in Hk; lia | exact Hy].
Qed.

Lemma stripPrefix_none_app (p x y next : string) :
  hasLineTerminator p = false ->
  stripPrefix p x = None ->
  (y = EmptyString /\ next = EmptyString) \/ y = String "010" next ->
  stripPrefix p (x ++ y) = None.
Proof.
  revert x. induction p as [|a p IH]; intros x Hp Hx Hy; [discriminate|].
  cbn [hasLineTerminator] in Hp. apply orb_false_iff in Hp. destruct Hp as [Ha Hp].
  destruct x as [|b x].
  - destruct Hy as [[-> ->] | ->]; [reflexivity|].
    cbn [append stripPrefix].
    destruct (Ascii.eqb_spec a "010") as [-> | Hne]; [discriminate | reflexivity].
  - cbn [append stripPrefix] in *.
    destruct (Ascii.eqb a b); [|reflexivity].
    apply IH; assumption.
Qed.

Lemma scan_line (convention : ConventionType) (l : Line) (y next : string) :
  wellFormed l ->
  (y = EmptyString /\ next = EmptyString) \/ y = String "010" next ->
  matchAllFrom convention true 0 (lineText l ++ y)
  = filter (accepts convention) (declared l) ++ matchAllFrom convention true 0 next.
Proof.
  intros Hl Hy. destruct l as [name rest | text]; cbn [wellFormed lineText declared] in *.
  - destruct Hl as [Hne [Hword [Hstop Hrest]]].
    assert (Hgroup : matchAt convention (("module " ++ name ++ rest) ++ y)
                     = if accepts convention name then Some name else None).
    { unfold matchAt. rewrite !append_assoc. cbn [append stripPrefix Ascii.eqb Bool.eqb].
      cbn [andb]. apply group_declared; [exact Hne | exact Hword |].
      destruct rest as [|c rest]; [|exact Hstop].
      destruct Hy as [[-> ->] | ->]; reflexivity. }
    assert (Hplain : hasLineTerminator ("odule " ++ name ++ rest) = false).
    { rewrite !hasLineTerminator_app, (allWord_no_terminator name Hword), Hrest.
      reflexivity. }
    change (("module " ++ name ++ rest) ++ y)%string
      with (String "m" (("odule " ++ name ++ rest) ++ y))%string in *.
    cbn [matchAllFrom]. rewrite Hgroup.
    cbn [filter]. destruct (accepts convention name).
    + cbn [app]. f_equal.
      apply pass_line; [exact Hplain | | exact Hy].
      rewrite !length_append. simpl. lia.
    + apply pass_line; [exact Hplain | lia | exact Hy].
  - destruct Hl as [Hstrip Hplain]. cbn [filter app].
    assert (Hnone : matchAt convention (text ++ y) = None).
    { unfold matchAt.
      rewrite (stripPrefix_none_app "module " text y next eq_refl Hstrip Hy).
      reflexivity. }
    destruct text as [|a text].
    + destruct Hy as [[-> ->] | ->]; [reflexivity|].
      cbn [append] in *. cbn [matchAllFrom]. rewrite Hnone. reflexivity.
    + cbn [append] in *. cbn [matchAllFrom]. rewrite Hnone.
      cbn [hasLineTerminator] in Hplain. apply orb_false_iff in Hplain.
      destruct Hplain as [Ha Hplain]. rewrite Ha.
      apply pass_line; [exact Hplain | lia | exact Hy].
Qed.

Lemma append_empty (s : string) : (s ++ "")%string = s.
Proof. induction s as [|c s IH]; simpl; [reflexivity | rewrite IH; reflexivity]. Qed.

Lemma findModules_declared (convention : ConventionType) (lines : list Line) :
  Forall wellFormed lines ->
  findModules (fileOf lines) convention
  = filter (accepts convention) (flat_map declared lines).
Proof.
  unfold findModules, fileOf.
  induction lines as [|l lines IH]; intros Hall; [reflexivity|].
  inversion Hall as [|? ? Hl Hrest]; subst.
  cbn [flat_map]. rewrite filter_app.
  destruct lines as [|l2 lines].
  - cbn [map String.concat flat_map filter].
    rewrite <- (append_empty (lineText l)) at 1.
    rewrite (scan_line convention l "" "" Hl (or_introl (conj eq_refl eq_refl))).
    reflexivity.
  - change (String.concat (String "010" "") (map lineText (l :: l2 :: lines)))
      with (lineText l ++ String "010"
              (String.concat (String "010" "") (map lineText (l2 :: lines))))%string.
    rewrite (scan_line convention l _ _ Hl (or_intror eq_refl)).
    rewrite (IH Hrest). reflexivity.
Qed.

Lemma filter_accepts_all (names : list string) : filter (accepts all) names = names.
Proof.
  induction names as [|n names IH]; [reflexivity|].
  cbn [filter accepts]. rewrite IH. reflexivity.
Qed.

(** X30.  On a file of ASCII characters whose lines are declarations
    [module name...] that start their line, and lines that do not start
    with [module ], [getPartsToRender] returns, in the order of the
    file: under [all]
    every declared name; under [pascal] the names of two characters or
    more that start with a capital letter; under [underscore] the names
    of two characters or more that do not start with an underscore; and
    under [auto] the [pascal] names if there are some but not every name
    is one, else the [underscore] names if there are some but not every
    name is one, else every name. *)
Theorem getPartsToRender_declarations :
  forall (lines : list Line) (convention : ConventionOption),
    asciiText (fileOf lines) ->
    Forall wellFormed lines ->
    getPartsToRender (fileOf lines) convention
    = chosen convention (flat_map declared lines).
Proof.
  intros lines convention _ Hall.
  destruct convention as [|c]; cbn [getPartsToRender chosen]; cbv zeta.
  - rewrite !(findModules_declared _ lines Hall), filter_accepts_all. reflexivity.
  - apply findModules_declared. exact Hall.
Qed.

Lemma getPartsToRender_declarations_witness :
  getPartsToRender (fileOf demoFile) auto = ["Alpha"%string] /\
  getPartsToRender (fileOf demoFile) (named underscore)
  = ["demo"%string; "Alpha"%string].
Proof.
  assert (H : Forall wellFormed demoFile).
  { unfold demoFile.
    repeat (apply Forall_cons;
            [cbn [wellFormed]; repeat split; try discriminate; reflexivity|]).
    apply Forall_nil. }
  assert (Hascii : asciiText (fileOf demoFile)).
  { unfold asciiText. vm_compute list_ascii_of_string. repeat constructor. }
  split.
  - rewrite (getPartsToRender_declarations demoFile auto Hascii H). reflexivity.
  - rewrite (getPartsToRender_declarations demoFile (named underscore) Hascii H).
    reflexivity.
Defined.
End ModuleNames.

(* ================================================================== *)
(** * Properties of the code over binary64 numbers *)
(* ================================================================== *)

(** ** The order of binary64 numbers *)

(** Names the three parts of the places at hand, for [lia]. *)
Ltac places :=
  unfold FloatOrder.place in *;
  repeat match goal with
  | |- context [FloatOrder.rank ?s] =>
      let a := fresh "a" in let b := fresh "b" in let c := fresh "c" in
      destruct (FloatOrder.rank s) as [[a b] c]
  | H : context [FloatOrder.rank ?s] |- _ =>
      let a := fresh "a" in let b := fresh "b" in let c := fresh "c" in
      destruct (FloatOrder.rank s) as [[a b] c]
  end;
  unfold FloatOrder.below in *.

Section Order.
Import SpecFloat FloatOps FloatAxioms FloatOrder.

Lemma SFltb_rank (x y : spec_float) :
  SFltb x y = true <-> isNumber x /\ isNumber y /\ below (rank x) (rank y).
Proof.
  unfold SFltb, isNumber.
  destruct x as [sx|sx| |sx mx ex], y as [sy|sy| |sy my ey];
    try destruct sx; try destruct sy; cbn [SFcompare rank below];
    try (split; [discriminate|]); try (split; [intros _|reflexivity]);
    try (intros [H1 [H2 H3]]; first [congruence | lia]);
    try (repeat split; first [discriminate | lia]).
  all: rewrite ?Pos.compare_cont_spec; cbn [Pos.switch_Eq].
  all: destruct (Z.compare_spec ex ey) as [He|He|He];
       try destruct (Pos.compare_spec mx my) as [Hm|Hm|Hm]; cbn [CompOpp];
       split; try discriminate; try (intros _; repeat split; first [discriminate | lia]);
       try (intros [H1 [H2 H3]]; first [reflexivity | exfalso; lia]).
Qed.

Lemma ltb_place (x y : PrimFloat.float) :
  PrimFloat.ltb x y = true <-> number x /\ number y /\ below (place x) (place y).
Proof. rewrite ltb_spec. apply SFltb_rank. Qed.

Lemma ltb_number_r (x y : PrimFloat.float) : PrimFloat.ltb x y = true -> number y.
Proof. intros H. apply ltb_place in H. tauto. Qed.

Lemma ltb_trans (x y z : PrimFloat.float) :
  PrimFloat.ltb x y = true -> PrimFloat.ltb y z = true -> PrimFloat.ltb x z = true.
Proof.
  rewrite !ltb_place. intros [Hx [Hy Hxy]] [_ [Hz Hyz]].
  repeat split; try assumption. places. lia.
Qed.

(** A number that is not below [z] is over every number below [z]. *)
Lemma ltb_below_floor (x y z : PrimFloat.float) :
  PrimFloat.ltb y z = false -> PrimFloat.ltb x z = true -> number y ->
  PrimFloat.ltb x y = true.
Proof.
  intros Hyz Hxz Hy.
  apply ltb_place in Hxz. destruct Hxz as [Hx [Hz Hxz]].
  apply ltb_place. repeat split; try assumption.
  assert (Hn : ~ below (place y) (place z)).
  { intros Hb. rewrite (proj2 (ltb_place y z)) in Hyz by tauto. discriminate. }
  places. lia.
Qed.
End Order.

(** ** C2: the hit [castRay] returns *)

Section CastRay.
Import PrimFloat.
Import Binary64 Binary64Spec FloatOrder.
#[local] Set Warnings "-inexact-float".
#[local] Open Scope float_scope.
#[local] Open Scope list_scope.

Lemma intersect_distance (ray : Ray) (triangle : Triangle float) (hit : RayHit) :
  intersectRayTriangle ray triangle = Some hit -> (0.00001 <? distance hit) = true.
Proof.
  unfold intersectRayTriangle, mollerTrumbore.
  repeat match goal with
  | |- context [if ?b then _ else _] => destruct b eqn:?; try discriminate
  end.
  intros H. injection H as <-. simpl. assumption.
Qed.

Lemma hitsOf_number (ray : Ray) (ts : list (Triangle float)) (hit : RayHit) :
  In hit (hitsOf ray ts) -> (0.00001 <? distance hit) = true.
Proof.
  unfold hitsOf. rewrite in_flat_map. intros [t [_ Hin]].
  destruct (intersectRayTriangle ray t) as [h|] eqn:Hh; simpl in Hin.
  - destruct Hin as [<- | []]. exact (intersect_distance _ _ _ Hh).
  - destruct Hin.
Qed.

Lemma hitsOf_hit (ray : Ray) (t : Triangle float) (ts : list (Triangle float))
  (hit : RayHit) :
  intersectRayTriangle ray t = Some hit -> hitsOf ray (t :: ts) = hit :: hitsOf ray ts.
Proof. intros H. unfold hitsOf; simpl. rewrite H. reflexivity. Qed.

Lemma hitsOf_miss (ray : Ray) (t : Triangle float) (ts : list (Triangle float)) :
  intersectRayTriangle ray t = None -> hitsOf ray (t :: ts) = hitsOf ray ts.
Proof. intros H. unfold hitsOf; simpl. rewrite H. reflexivity. Qed.

(** What the scan returns from a state of the loop: nothing, when it
    holds no hit and no scanned hit is under the distance it holds; the
    hit it holds, when no scanned hit is nearer; or else the first
    nearest of the scanned hits, which is under the distance it
    holds. *)
Lemma scan_nearest (ray : Ray) (ts : list (Triangle float)) :
  forall (closestHit : option RayHit) (closestDistance : float),
    inStep closestHit closestDistance ->
    match scanFrom intersectRayTriangle ray ts closestHit closestDistance with
    | None =>
        closestHit = None /\
        forall h, In h (hitsOf ray (scannedFrom ray ts closestDistance)) ->
                  (distance h <? closestDistance) = false
    | Some hit =>
        (closestHit = Some hit /\
         forall h, In h (hitsOf ray (scannedFrom ray ts closestDistance)) ->
                   (distance h <? distance hit) = false) \/
        (firstNearest hit (hitsOf ray (scannedFrom ray ts closestDistance)) /\
         (distance hit <? closestDistance) = true)
    end.
Proof.
  induction ts as [|t ts IH]; intros ch cd Hstep; simpl.
  - destruct ch as [c|].
    + left. split; [reflexivity | intros h []].
    + split; [reflexivity | intros h []].
  - destruct (intersectRayTriangle ray t) as [hit|] eqn:Hhit.
    + pose proof (ltb_number_r _ _ (intersect_distance _ _ _ Hhit)) as Hnum.
      destruct (distance hit <? cd) eqn:Hlt.
      * destruct (distance hit <? 0.001) eqn:Hnear.
        -- right. split; [|exact Hlt].
           rewrite (hitsOf_hit _ _ _ _ Hhit).
           exists [], []. repeat split; intros h [].
        -- rewrite (hitsOf_hit _ _ _ _ Hhit).
           specialize (IH (Some hit) (distance hit) eq_refl).
           destruct (scanFrom intersectRayTriangle ray ts (Some hit) (distance hit))
             as [h|].
           ++ right.
              destruct IH as [[Heq Hall] | [[before [after [Hs [Hb Ha]]]] Hc]].
              ** injection Heq as <-. split; [|exact Hlt].
                 exists [], (hitsOf ray (scannedFrom ray ts (distance hit))).
                 repeat split; [intros h [] | exact Hall].
              ** split; [|exact (ltb_trans _ _ _ Hc Hlt)].
                 exists (hit :: before), after. rewrite Hs. repeat split.
                 --- intros h' [<- | Hin]; [exact Hc | apply Hb; exact Hin].
                 --- exact Ha.
           ++ destruct IH as [Habs _]. discriminate Habs.
      * rewrite (hitsOf_hit _ _ _ _ Hhit).
        specialize (IH ch cd Hstep).
        destruct (scanFrom intersectRayTriangle ray ts ch cd) as [h|].
        -- destruct IH as [[Heq Hall] | [[before [after [Hs [Hb Ha]]]] Hc]].
           ++ left. split; [exact Heq|].
              subst ch. simpl in Hstep. subst cd.
              intros h' [<- | Hin]; [exact Hlt | apply Hall; exact Hin].
           ++ right. split; [|exact Hc].
              exists (hit :: before), after. rewrite Hs. repeat split.
              ** intros h' [<- | Hin]; [|apply Hb; exact Hin].
                 exact (ltb_below_floor _ _ _ Hlt Hc Hnum).
              ** exact Ha.
        -- destruct IH as [Hnone Hall]. split; [exact Hnone|].
           intros h' [<- | Hin]; [exact Hlt | apply Hall; exact Hin].
    + rewrite (hitsOf_miss _ _ _ Hhit). apply IH. exact Hstep.
Qed.

Lemma firstNearest_member (hit : RayHit) (hs : list RayHit) :
  firstNearest hit hs -> In hit hs.
Proof.
  intros [before [after [Hs _]]]. rewrite Hs. apply in_or_app. right. left. reflexivity.
Qed.

Lemma scanned_prefix (ray : Ray) (ts : list (Triangle float)) :
  forall closest : float, exists rest, ts = scannedFrom ray ts closest ++ rest.
Proof.
  induction ts as [|t ts IH]; intros closest; simpl.
  - exists []. reflexivity.
  - destruct (intersectRayTriangle ray t) as [hit|].
    + destruct (distance hit <? closest).
      * destruct (distance hit <? 0.001).
        -- exists ts. reflexivity.
        -- destruct (IH (distance hit)) as [rest Hrest].
           exists rest. simpl. rewrite <- Hrest. reflexivity.
      * destruct (IH closest) as [rest Hrest].
        exists rest. simpl. rewrite <- Hrest. reflexivity.
    + destruct (IH closest) as [rest Hrest].
      exists rest. simpl. rewrite <- Hrest. reflexivity.
Qed.

Lemma scanned_all (ray : Ray) (ts : list (Triangle float)) :
  forall closest : float,
    (forall h, In h (hitsOf ray ts) -> (distance h <? 0.001) = false) ->
    scannedFrom ray ts closest = ts.
Proof.
  induction ts as [|t ts IH]; intros closest Hfar; simpl.
  - reflexivity.
  - destruct (intersectRayTriangle ray t) as [hit|] eqn:Hhit.
    + rewrite (hitsOf_hit _ _ ts _ Hhit) in Hfar.
      rewrite (Hfar hit (or_introl eq_refl)).
      destruct (distance hit <? closest);
        f_equal; apply IH; intros h Hh; apply Hfar; right; exact Hh.
    + rewrite (hitsOf_miss _ _ ts Hhit) in Hfar.
      f_equal. apply IH. exact Hfar.
Qed.

Lemma hitsOf_nil (ray : Ray) (ts : list (Triangle float)) :
  (forall t, In t ts -> intersectRayTriangle ray t = None) -> hitsOf ray ts = [].
Proof.
  induction ts as [|t ts IH]; intros Hnone.
  - reflexivity.
  - rewrite hitsOf_miss by (apply Hnone; left; reflexivity).
    apply IH. intros t' Ht'. apply Hnone. right. exact Ht'.
Qed.

Lemma castRay_scan (ray : Ray) (scene : Scene) :
  match castRay ray scene with
  | None =>
      forall h, In h (hitsOf ray (scanned ray (triangles scene))) ->
                (distance h <? infinity) = false
  | Some hit =>
      firstNearest hit (hitsOf ray (scanned ray (triangles scene))) /\
      (distance hit <? infinity) = true /\
      (0.00001 <? distance hit) = true
  end.
Proof.
  unfold castRay, scanned.
  pose proof (scan_nearest ray (triangles scene) None infinity eq_refl) as H.
  destruct (scanFrom intersectRayTriangle ray (triangles scene) None infinity) as [hit|].
  - destruct H as [[Habs _] | [Hfirst Hfin]]; [discriminate Habs|].
    split; [exact Hfirst|]. split; [exact Hfin|].
    apply (hitsOf_number ray (scannedFrom ray (triangles scene) infinity)).
    apply firstNearest_member. exact Hfirst.
  - destruct H as [_ H]. exact H.
Qed.

(** C2, as the code has it.  [castRay] scans the triangles of the scene
    in order, up to and including the first whose hit is accepted and is
    under 0.001, and all of them when no hit is under 0.001.  It returns
    null when none of the scanned triangles is hit at a distance below
    [Infinity], so when no triangle is hit at all; and otherwise the
    first of their hits at the least distance, which is over 1e-5 and
    below [Infinity].  The result depends on the order of the scene: of
    two plates at depths 0.0005 and 0.0002 it returns the hit of the one
    that comes first. *)
Theorem castRay_first_nearest_of_scanned :
  (forall (ray : Ray) (scene : Scene),
     (exists rest, triangles scene = scanned ray (triangles scene) ++ rest) /\
     ((forall h, In h (hitsOf ray (triangles scene)) -> (distance h <? 0.001) = false) ->
      scanned ray (triangles scene) = triangles scene) /\
     ((forall t, In t (triangles scene) -> intersectRayTriangle ray t = None) ->
      castRay ray scene = None) /\
     match castRay ray scene with
     | None =>
         forall h, In h (hitsOf ray (scanned ray (triangles scene))) ->
                   (distance h <? infinity) = false
     | Some hit =>
         firstNearest hit (hitsOf ray (scanned ray (triangles scene))) /\
         (distance hit <? infinity) = true /\
         (0.00001 <? distance hit) = true
     end) /\
  (exists hit1 hit2,
     castRay probe (createScene [plate 0.0005; plate 0.0002]) = Some hit1 /\
     castRay probe (createScene [plate 0.0002; plate 0.0005]) = Some hit2 /\
     distance hit1 = 0.0005 /\ distance hit2 = 0.0002).
Proof.
  split.
  - intros ray scene.
    split; [apply scanned_prefix|].
    split; [apply scanned_all|].
    split; [|apply castRay_scan].
    intros Hnone.
    pose proof (castRay_scan ray scene) as H.
    destruct (castRay ray scene) as [hit|]; [|reflexivity].
    destruct H as [Hfirst _]. apply firstNearest_member in Hfirst.
    unfold scanned in Hfirst.
    rewrite (scanned_all ray (triangles scene) infinity) in Hfirst.
    + rewrite (hitsOf_nil ray (triangles scene) Hnone) in Hfirst. destruct Hfirst.
    + rewrite (hitsOf_nil ray (triangles scene) Hnone). intros h [].
  - eexists. eexists. split; [vm_compute; reflexivity|].
    split; [vm_compute; reflexivity|]. split; vm_compute; reflexivity.
Qed.

(** C2, as the specification states it, fails on a hit whose distance
    overflows: the ray hits the triangle, [intersectRayTriangle]
    returning a hit at the distance [Infinity], and [castRay] on the scene
    of that triangle returns null, not the hit. *)
Lemma castRay_drops_infinite_hit :
  (exists hit,
     intersectRayTriangle farRay hugeTriangle = Some hit /\
     distance hit = infinity) /\
  scanned farRay [hugeTriangle] = [hugeTriangle] /\
  castRay farRay (createScene [hugeTriangle]) = None.
Proof.
  split; [eexists; split; vm_compute; reflexivity|].
  split; vm_compute; reflexivity.
Qed.
End CastRay.

(** ** C7: rays parallel to a triangle *)

Section Parallel.
Import PrimFloat.
Import SpecFloat FloatOps FloatAxioms FloatOrder.
Import Binary64.
#[local] Set Warnings "-inexact-float".
#[local] Open Scope float_scope.
#[local] Open Scope list_scope.

Lemma SFltb_abs (a e : spec_float) :
  SFltb (SFabs a) e = true -> SFltb (SFopp e) a = true /\ SFltb a e = true.
Proof.
  rewrite !SFltb_rank. unfold isNumber.
  destruct a as [sa|sa| |sa ma ea], e as [se|se| |se me ee];
    try destruct sa; try destruct se; cbn [SFabs SFopp rank below negb];
    intros [H1 [H2 H3]];
    repeat split; try discriminate; try congruence; try lia.
Qed.

(** A number under [e] in magnitude is between [-e] and [e]. *)
Lemma abs_ltb (a e : float) :
  (abs a <? e) = true -> (- e <? a) = true /\ (a <? e) = true.
Proof.
  rewrite !ltb_spec, abs_spec, opp_spec. apply SFltb_abs.
Qed.

Lemma determinant_test_null (ray : Ray) (triangle : Triangle float) :
  (abs (determinant ray triangle) <? 0.00001) = true ->
  mollerTrumbore ray triangle = None.
Proof.
  intros Hdet. apply abs_ltb in Hdet. destruct Hdet as [Hlo Hhi].
  unfold mollerTrumbore. fold (determinant ray triangle).
  change (opp 0.00001) with (-0.00001) in Hlo.
  rewrite Hlo, Hhi. reflexivity.
Qed.

(** C7, as the code has it.  A ray whose Moeller-Trumbore determinant
    against a triangle, as the code computes it, is under 1e-5 in
    magnitude does not hit it: [castRay] on the scene of that one
    triangle returns null. *)
Theorem parallel_ray_never_hits :
  forall (ray : Ray) (triangle : Triangle float) (scene : Scene),
    triangles scene = [triangle] ->
    (abs (determinant ray triangle) <? 0.00001) = true ->
    castRay ray scene = None.
Proof.
  intros ray triangle scene Hscene Hdet.
  unfold castRay. rewrite Hscene. simpl.
  unfold intersectRayTriangle.
  rewrite (determinant_test_null _ _ Hdet).
  destruct (boundsReject ray triangle); reflexivity.
Qed.

Lemma parallel_ray_never_hits_witness :
  let triangle := mkTriangle (0, 0, 1) ((0, 0, 0), (1, 0, 0), (0, 1, 0)) in
  let ray := {| origin := vec3 0 0 1; direction := vec3 1 0 0 |} in
  (abs (determinant ray triangle) <? 0.00001) = true /\
  castRay ray (createScene [triangle]) = None.
Proof.
  split; [vm_compute; reflexivity|].
  apply (parallel_ray_never_hits
           {| origin := vec3 0 0 1; direction := vec3 1 0 0 |}
           (mkTriangle (0, 0, 1) ((0, 0, 0), (1, 0, 0), (0, 1, 0)))
           (createScene [mkTriangle (0, 0, 1) ((0, 0, 0), (1, 0, 0), (0, 1, 0))])).
  - reflexivity.
  - vm_compute. reflexivity.
Defined.
End Parallel.

Section ParallelHit.
Import Exact.
#[local] Open Scope R_scope.

(** C7, as the specification states it, fails on a ray that is parallel
    to the triangle: the direction lies in the plane of the triangle, so
    the determinant is 0, yet the determinant the code computes is 1024,
    and [castRay] returns a hit, at the distance 0.125. *)
Lemma parallel_ray_hits :
  Raytracer.determinant (realRay slantRay) (realTriangle slantTriangle) = 0 /\
  Binary64.determinant (floatRay slantRay) (floatTriangle slantTriangle) = ofZ 1024 /\
  exists hit,
    Binary64.castRay (floatRay slantRay)
      (Binary64.createScene [floatTriangle slantTriangle]) = Some hit /\
    Binary64.distance hit = PrimFloat.div (ofZ 1) (ofZ 8).
Proof.
  split; [|split].
  - unfold Raytracer.determinant, Camera.dot, Camera.cross, Camera.subtract; simpl.
    lra.
  - vm_compute. reflexivity.
  - eexists. split; vm_compute; reflexivity.
Qed.
End ParallelHit.

(** ** C8: a camera that looks along its up vector *)

Section Collinear.
Import PrimFloat.
Import Binary64 Exact.
#[local] Set Warnings "-inexact-float".
#[local] Open Scope float_scope.

(** C8, as the code has it.  When the cross product of the forward
    vector and the up vector of a camera, as the code computes it, has
    the length 0, [getRayForPixel] still returns a ray: [normalize] maps
    the cross product to the zero vector, which is the right vector, and
    the direction of the ray is the forward vector. *)
Theorem collinear_up_yields_ray :
  forall (camera : OrthographicCamera) (pixelX pixelY imageWidth imageHeight : float),
    (length (cross (cameraForward camera) (up camera)) =? 0) = true ->
    cameraRight camera = vec3 0 0 0 /\
    direction (getRayForPixel camera pixelX pixelY imageWidth imageHeight)
      = cameraForward camera.
Proof.
  intros camera px py w h Hlen. split; [|reflexivity].
  unfold cameraRight, normalize. rewrite Hlen. reflexivity.
Qed.

Lemma collinear_up_yields_ray_witness :
  (length (cross (cameraForward axisCamera) (up axisCamera)) =? 0) = true /\
  cameraRight axisCamera = vec3 0 0 0 /\
  direction (getRayForPixel axisCamera 10 20 400 300) = cameraForward axisCamera.
Proof.
  split; [vm_compute; reflexivity|].
  apply (collinear_up_yields_ray axisCamera 10 20 400 300).
  vm_compute. reflexivity.
Defined.

(** C8, as the specification states it, fails on a camera at the origin
    that looks at (3,5,7) with the up vector (3,5,7): the up vector is
    [target - position] itself, yet the cross product of the rounded
    forward vector and the up vector is (0, 2^-51, -2^-52), not the zero
    vector, and the right vector is (0, 0.894..., -0.447...). *)
Lemma collinear_up_unit_right :
  up slantCamera = subtract (target slantCamera) (position slantCamera) /\
  cross (cameraForward slantCamera) (up slantCamera)
    = vec3 0 0x1p-51 (-0x1p-52) /\
  cameraRight slantCamera
    = vec3 0 0x1.c9f25c5bfedd9p-1 (-0x1.c9f25c5bfedd9p-2).
Proof.
  repeat split; vm_compute; reflexivity.
Qed.
End Collinear.

(** ** C10: the bounding-box rejection *)

Section BoundsFloat.
Import PrimFloat.
Import Binary64 Exact.
#[local] Set Warnings "-inexact-float".
#[local] Open Scope float_scope.
#[local] Open Scope list_scope.



End BoundsFloat.


Section FogFloat.
Import PrimFloat.
Import Binary64 Exact.
#[local] Set Warnings "-inexact-float".
#[local] Open Scope float_scope.

End FogFloat.

(** ** The colour [calculateLighting] returns *)

Section Clamp.
Import PrimFloat.
Import SpecFloat FloatOps FloatAxioms FloatOrder.
Import Binary64.
#[local] Set Warnings "-inexact-float".
#[local] Open Scope float_scope.

Lemma SFleb_rank (x y : spec_float) :
  SFleb x y = true <-> isNumber x /\ isNumber y /\ ~ below (rank y) (rank x).
Proof.
  unfold SFleb, isNumber.
  destruct x as [sx|sx| |sx mx ex], y as [sy|sy| |sy my ey];
    try destruct sx; try destruct sy; cbn [SFcompare rank below];
    try (split; [discriminate|]); try (split; [intros _|reflexivity]);
    try (intros [H1 [H2 H3]]; first [congruence | exfalso; apply H3; lia]);
    try (repeat split; first [discriminate | lia]).
  all: rewrite ?Pos.compare_cont_spec; cbn [Pos.switch_Eq].
  all: destruct (Z.compare_spec ex ey) as [He|He|He];
       try destruct (Pos.compare_spec mx my) as [Hm|Hm|Hm]; cbn [CompOpp];
       split; try discriminate; try (intros _; repeat split; first [discriminate | lia]);
       try (intros [H1 [H2 H3]]; first [reflexivity | exfalso; apply H3; lia]).
Qed.

Lemma ltb_leb (x y : float) : (x <? y) = true -> (x <=? y) = true.
Proof.
  rewrite ltb_spec, leb_spec, SFltb_rank, SFleb_rank.
  intros [Hx [Hy H]]. repeat split; try assumption.
  destruct (rank (Prim2SF x)) as [[a b] c], (rank (Prim2SF y)) as [[a' b'] c'].
  unfold below in *. lia.
Qed.

(** [Math.min(1, Math.max(0, y))]: NaN for NaN, and else a number from
    0 to 1. *)
Lemma clamp_unit (y : float) :
  (is_nan y = true /\ is_nan (Math_min 1 (Math_max 0 y)) = true) \/
  (is_nan y = false /\
   (0 <=? Math_min 1 (Math_max 0 y)) = true /\
   (Math_min 1 (Math_max 0 y) <=? 1) = true).
Proof.
  unfold Math_max.
  change (is_nan 0) with false. cbn [orb].
  destruct (is_nan y) eqn:Hnan.
  - left. split; reflexivity.
  - right. split; [reflexivity|].
    destruct (0 <? y) eqn:Hpos.
    + unfold Math_min. change (is_nan 1) with false. rewrite Hnan. cbn [orb].
      destruct (1 <? y) eqn:Hbig; [split; reflexivity|].
      destruct (y <? 1) eqn:Hsmall.
      * split; apply ltb_leb; assumption.
      * change (is_zero 1) with false. cbn [andb]. split; reflexivity.
    + destruct (y <? 0); split; reflexivity.
Qed.
End Clamp.

Section Colour.
Import PrimFloat.
Import SpecFloat FloatOps FloatAxioms FloatOrder.
Import Binary64 Binary64Spec.
#[local] Set Warnings "-inexact-float".
#[local] Open Scope float_scope.

Lemma SFeqb_refl (x : spec_float) : isNumber x -> SFeqb x x = true.
Proof.
  unfold SFeqb, isNumber.
  destruct x as [s|s| |s m e]; try destruct s; cbn [SFcompare];
    try reflexivity; try congruence;
    intros _; rewrite Z.compare_refl, Pos.compare_cont_refl; reflexivity.
Qed.

Lemma leb_not_nan (x y : float) : (x <=? y) = true -> is_nan y = false.
Proof.
  rewrite leb_spec, SFleb_rank. intros [_ [Hy _]].
  unfold is_nan. rewrite eqb_spec, (SFeqb_refl _ Hy). reflexivity.
Qed.

Lemma clamp_channel_float (y : float) :
  unitOrNaN (Math_min 1 (Math_max 0 y)) /\
  is_nan (Math_min 1 (Math_max 0 y)) = is_nan y.
Proof.
  unfold unitOrNaN.
  destruct (clamp_unit y) as [[Hy Hc] | [Hy [Hlo Hhi]]].
  - split; [left; exact Hc | rewrite Hy, Hc; reflexivity].
  - split; [right; split; assumption|].
    rewrite Hy. exact (leb_not_nan _ _ Hlo).
Qed.

(** X8.  Every channel of the colour [calculateLighting] returns is a
    number from 0 to 1, or NaN; and [clampColor] returns NaN in a channel
    exactly when the channel it is given is NaN. *)
Theorem lighting_is_a_colour :
  (forall (Math_exp : float -> float) (hit : RayHit) (scene : Scene)
          (rayDirection : Vector3),
     let c := calculateLighting Math_exp hit scene rayDirection in
     unitOrNaN (vx c) /\ unitOrNaN (vy c) /\ unitOrNaN (vz c)) /\
  (forall c : Vector3,
     is_nan (vx (clampColor c)) = is_nan (vx c) /\
     is_nan (vy (clampColor c)) = is_nan (vy c) /\
     is_nan (vz (clampColor c)) = is_nan (vz c)).
Proof.
  split.
  - intros Math_exp hit scene rayDirection c. unfold c, calculateLighting, clampColor.
    cbn [vx vy vz]. repeat split; apply clamp_channel_float.
  - intros c. unfold clampColor. cbn [vx vy vz].
    repeat split; apply clamp_channel_float.
Qed.
End Colour.

(** ** C5: silhouette triangles *)

Section SilhouetteKeys.
Import PrimFloat.
Import SpecFloat FloatOps FloatAxioms FloatOrder.
Import Binary64 Binary64Outline Binary64EdgeSpec.
#[local] Open Scope float_scope.
#[local] Open Scope list_scope.

Lemma triple_eqb_eq_b64 (p q : Triple float) : triple_eqb p q = true <-> p = q.
Proof.
  destruct p as [[a0 a1] a2], q as [[b0 b1] b2]. unfold triple_eqb.
  rewrite !andb_true_iff, !Leibniz.eqb_spec. split.
  - intros [[-> ->] ->]. reflexivity.
  - intros H. injection H as -> -> ->. auto.
Qed.

Lemma key_eqb_eq_b64 (k1 k2 : EdgeKey) : key_eqb k1 k2 = true <-> k1 = k2.
Proof.
  destruct k1 as [p1 q1], k2 as [p2 q2]. unfold key_eqb; simpl.
  rewrite andb_true_iff, !triple_eqb_eq_b64. split.
  - intros [-> ->]. reflexivity.
  - intros H. injection H as -> ->. auto.
Qed.

Lemma key_eqb_refl_b64 (k : EdgeKey) : key_eqb k k = true.
Proof. apply key_eqb_eq_b64. reflexivity. Qed.

Lemma key_eqb_neq_b64 (k1 k2 : EdgeKey) : key_eqb k1 k2 = false <-> k1 <> k2.
Proof.
  split.
  - intros H Heq. apply key_eqb_eq_b64 in Heq. congruence.
  - intros H. destruct (key_eqb k1 k2) eqn:E; [|reflexivity].
    apply key_eqb_eq_b64 in E. contradiction.
Qed.

(** *** The first pass: the map holds, at each key, its owners *)

Lemma lookup_pushEdge_b64 (edges : EdgeMap) (k' : EdgeKey) (i : nat) (k : EdgeKey) :
  lookup k (pushEdge edges k' i)
  = if key_eqb k' k then lookup k edges ++ [i] else lookup k edges.
Proof.
  induction edges as [|[k0 l] edges IH]; simpl.
  - destruct (key_eqb k' k); reflexivity.
  - destruct (key_eqb k0 k') eqn:E0; simpl.
    + apply key_eqb_eq_b64 in E0. subst k0.
      destruct (key_eqb k' k); reflexivity.
    + rewrite IH. destruct (key_eqb k0 k) eqn:E1; [|reflexivity].
      apply key_eqb_eq_b64 in E1. subst k0.
      replace (key_eqb k' k) with false; [reflexivity|].
      symmetry. apply key_eqb_neq_b64. apply key_eqb_neq_b64 in E0. congruence.
Qed.

Lemma ownersIn_app_b64 (k : EdgeKey) (a b : list (EdgeKey * nat)) :
  ownersIn k (a ++ b) = ownersIn k a ++ ownersIn k b.
Proof. unfold ownersIn. rewrite filter_app, map_app. reflexivity. Qed.

Lemma lookup_addTriangleEdges_b64 (edges : EdgeMap) (t : Triangle float) (s : nat) (k : EdgeKey) :
  lookup k (addTriangleEdges edges t s) = lookup k edges ++ ownersIn k (edgeSlots s t).
Proof.
  unfold addTriangleEdges, ownersIn, edgeSlots. simpl.
  rewrite !lookup_pushEdge_b64.
  destruct (key_eqb (edgeKey t 0) k), (key_eqb (edgeKey t 1) k),
    (key_eqb (edgeKey t 2) k); simpl; rewrite <- ?app_assoc; simpl;
    rewrite ?app_nil_r; reflexivity.
Qed.

Lemma lookup_buildEdgesFrom_b64 (ts : list (Triangle float)) :
  forall (s : nat) (edges : EdgeMap) (k : EdgeKey),
    lookup k (buildEdgesFrom s ts edges)
    = lookup k edges ++ ownersIn k (occurrencesFrom s ts).
Proof.
  induction ts as [|t ts IH]; intros s edges k;
    cbn [buildEdgesFrom occurrencesFrom].
  - unfold ownersIn; simpl. rewrite app_nil_r. reflexivity.
  - rewrite IH, lookup_addTriangleEdges_b64, ownersIn_app_b64, app_assoc. reflexivity.
Qed.

Lemma lookup_buildEdges_b64 (ts : list (Triangle float)) (k : EdgeKey) :
  lookup k (buildEdges ts) = owners k ts.
Proof. unfold buildEdges, owners. rewrite lookup_buildEdgesFrom_b64. reflexivity. Qed.

Lemma pushEdge_keys_b64 (edges : EdgeMap) (k : EdgeKey) (i : nat) (k0 : EdgeKey) :
  In k0 (map fst (pushEdge edges k i)) -> In k0 (map fst edges) \/ k0 = k.
Proof.
  induction edges as [|[k1 l] edges IH]; simpl.
  - intros [H | []]. right. symmetry. exact H.
  - destruct (key_eqb k1 k); simpl.
    + intros H. left. exact H.
    + intros [H | H]; [left; left; exact H|].
      destruct (IH H) as [H' | H']; [left; right; exact H' | right; exact H'].
Qed.

Lemma pushEdge_distinct_b64 (edges : EdgeMap) (k : EdgeKey) (i : nat) :
  distinctKeys edges -> distinctKeys (pushEdge edges k i).
Proof.
  unfold distinctKeys.
  induction edges as [|[k1 l] edges IH]; simpl; intros Hnd.
  - constructor; [intros [] | constructor].
  - inversion Hnd as [|? ? Hnotin Hnd']; subst.
    destruct (key_eqb k1 k) eqn:E; simpl.
    + constructor; assumption.
    + constructor; [|apply IH; exact Hnd'].
      intros Hin. apply pushEdge_keys_b64 in Hin. destruct Hin as [Hin | Heq].
      * contradiction.
      * apply key_eqb_neq_b64 in E. contradiction.
Qed.

Lemma addTriangleEdges_distinct_b64 (edges : EdgeMap) (t : Triangle float) (s : nat) :
  distinctKeys edges -> distinctKeys (addTriangleEdges edges t s).
Proof.
  intros H. unfold addTriangleEdges; simpl.
  repeat apply pushEdge_distinct_b64. exact H.
Qed.

Lemma buildEdgesFrom_distinct_b64 (ts : list (Triangle float)) :
  forall (s : nat) (edges : EdgeMap),
    distinctKeys edges -> distinctKeys (buildEdgesFrom s ts edges).
Proof.
  induction ts as [|t ts IH]; intros s edges H; simpl.
  - exact H.
  - apply IH. apply addTriangleEdges_distinct_b64. exact H.
Qed.

Lemma buildEdges_distinct_b64 (ts : list (Triangle float)) : distinctKeys (buildEdges ts).
Proof. apply buildEdgesFrom_distinct_b64. constructor. Qed.

Lemma In_lookup_b64 (edges : EdgeMap) (k : EdgeKey) (l : list nat) :
  distinctKeys edges -> In (k, l) edges -> lookup k edges = l.
Proof.
  unfold distinctKeys.
  induction edges as [|[k0 l0] edges IH]; simpl; intros Hnd Hin.
  - destruct Hin.
  - inversion Hnd as [|? ? Hnotin Hnd']; subst.
    destruct Hin as [Heq | Hin].
    + injection Heq as -> ->. rewrite key_eqb_refl_b64. reflexivity.
    + destruct (key_eqb k0 k) eqn:E.
      * apply key_eqb_eq_b64 in E. subst k0. exfalso. apply Hnotin.
        change k with (fst (k, l)). apply in_map. exact Hin.
      * apply IH; assumption.
Qed.

Lemma lookup_In_b64 (edges : EdgeMap) (k : EdgeKey) :
  lookup k edges <> [] -> In (k, lookup k edges) edges.
Proof.
  induction edges as [|[k0 l0] edges IH]; simpl; intros H.
  - contradiction.
  - destruct (key_eqb k0 k) eqn:E.
    + apply key_eqb_eq_b64 in E. subst k0. left. reflexivity.
    + right. apply IH. exact H.
Qed.

(** *** Occurrences and the triangles that own them *)

Lemma slot_owner_b64 (ts : list (Triangle float)) :
  forall (s n : nat) (t : Triangle float) (e : nat),
    nth_error ts n = Some t -> (e < 3)%nat ->
    In (s + n)%nat (ownersIn (edgeKey t e) (occurrencesFrom s ts)).
Proof.
  induction ts as [|t0 ts IH]; intros s n t e Hn He.
  - destruct n; discriminate Hn.
  - cbn [occurrencesFrom]. rewrite ownersIn_app_b64. apply in_or_app.
    destruct n as [|n]; simpl in Hn.
    + injection Hn as ->. left. rewrite Nat.add_0_r.
      unfold ownersIn. apply in_map_iff.
      exists (edgeKey t e, s). split; [reflexivity|].
      apply filter_In. split; [|apply key_eqb_refl_b64].
      unfold edgeSlots. simpl.
      destruct e as [|[|[|e]]]; [auto | auto | auto | lia].
    + right. replace (s + S n)%nat with (S s + n)%nat by lia.
      apply IH; assumption.
Qed.

Lemma owner_slot_b64 (ts : list (Triangle float)) :
  forall (s i : nat) (k : EdgeKey),
    In i (ownersIn k (occurrencesFrom s ts)) ->
    exists n t e,
      i = (s + n)%nat /\ nth_error ts n = Some t /\ (e < 3)%nat /\ edgeKey t e = k.
Proof.
  induction ts as [|t0 ts IH]; intros s i k Hin.
  - destruct Hin.
  - cbn [occurrencesFrom] in Hin. rewrite ownersIn_app_b64 in Hin. apply in_app_or in Hin.
    destruct Hin as [Hin | Hin].
    + unfold ownersIn in Hin. apply in_map_iff in Hin.
      destruct Hin as [[k0 j] [Hj Hf]]. simpl in Hj. subst j.
      apply filter_In in Hf. destruct Hf as [Hslot Hk]. simpl in Hk.
      apply key_eqb_eq_b64 in Hk. subst k0.
      exists 0%nat, t0. unfold edgeSlots in Hslot. simpl in Hslot.
      destruct Hslot as [H | [H | [H | []]]]; injection H as Hk Hi.
      * exists 0%nat. repeat split; [lia | lia | exact Hk].
      * exists 1%nat. repeat split; [lia | lia | exact Hk].
      * exists 2%nat. repeat split; [lia | lia | exact Hk].
    + destruct (IH _ _ _ Hin) as [n [t [e [Hi [Hn [He Hk]]]]]].
      exists (S n), t, e. repeat split; [lia | exact Hn | exact He | exact Hk].
Qed.

(** *** The second pass: the flags it sets *)

Lemma markEdge_length_b64 (ts : list (Triangle float)) (vd : Vector3) (flags : list bool)
  (entry : EdgeKey * list nat) :
  List.length (markEdge ts vd flags entry) = List.length flags.
Proof.
  unfold markEdge.
  destruct (snd entry) as [|j1 [|j2 [|j3 l]]]; try reflexivity.
  destruct (nth_error ts j1), (nth_error ts j2); try reflexivity.
  destruct (negb _); [|reflexivity].
  rewrite !setTrue_length. reflexivity.
Qed.

Lemma nth_markEdge_b64 (ts : list (Triangle float)) (vd : Vector3) (flags : list bool)
  (entry : EdgeKey * list nat) (i : nat) :
  List.length flags = List.length ts ->
  (nth i (markEdge ts vd flags entry) false = true <->
   nth i flags false = true \/ fires vd ts (snd entry) i).
Proof.
  intros Hlen. unfold markEdge, fires, disagree.
  destruct (snd entry) as [|j1 [|j2 [|j3 l]]];
    try (split; [tauto | intros [H | [? [? [H _]]]]; [exact H | discriminate H]]).
  destruct (nth_error ts j1) as [t1|] eqn:H1.
  2: { split; [tauto|]. intros [H | [a [b [Hl [[u [v [Hu _]]] _]]]]]; [exact H|].
       injection Hl as <- <-. congruence. }
  destruct (nth_error ts j2) as [t2|] eqn:H2.
  2: { split; [tauto|]. intros [H | [a [b [Hl [[u [v [_ [Hv _]]]] _]]]]]; [exact H|].
       injection Hl as <- <-. congruence. }
  assert (Hj1 : (j1 < List.length flags)%nat).
  { rewrite Hlen. apply nth_error_Some. congruence. }
  assert (Hj2 : (j2 < List.length flags)%nat).
  { rewrite Hlen. apply nth_error_Some. congruence. }
  destruct (negb (Bool.eqb (facing vd t1) (facing vd t2))) eqn:Hf.
  - apply eqb_differ in Hf. rewrite !nth_setTrue, setTrue_length. split.
    + intros [[H | [H _]] | [H _]].
      * left. exact H.
      * right. exists j1, j2. split; [reflexivity|]. split; [|left; exact H].
        exists t1, t2. auto.
      * right. exists j1, j2. split; [reflexivity|]. split; [|right; exact H].
        exists t1, t2. auto.
    + intros [H | [a [b [Hl [_ [Hi | Hi]]]]]].
      * left. left. exact H.
      * injection Hl as <- <-. left. right. split; assumption.
      * injection Hl as <- <-. right. split; assumption.
  - split; [tauto|].
    intros [H | [a [b [Hl [[u [v [Hu [Hv Hne]]]] _]]]]]; [exact H|].
    injection Hl as <- <-.
    rewrite H1 in Hu. rewrite H2 in Hv. injection Hu as <-. injection Hv as <-.
    destruct (facing vd t1), (facing vd t2); simpl in Hf; congruence.
Qed.

Lemma nth_markEdges_b64 (ts : list (Triangle float)) (vd : Vector3) (edges : EdgeMap) (i : nat) :
  forall flags : list bool,
    List.length flags = List.length ts ->
    List.length (fold_left (markEdge ts vd) edges flags) = List.length ts /\
    (nth i (fold_left (markEdge ts vd) edges flags) false = true <->
     nth i flags false = true \/ exists entry, In entry edges /\ fires vd ts (snd entry) i).
Proof.
  induction edges as [|entry edges IH]; intros flags Hlen; simpl.
  - split; [exact Hlen|]. split; [tauto|].
    intros [H | [? [[] _]]]. exact H.
  - assert (Hlen' : List.length (markEdge ts vd flags entry) = List.length ts).
    { rewrite markEdge_length_b64. exact Hlen. }
    destruct (IH _ Hlen') as [Hl Hiff]. split; [exact Hl|].
    rewrite Hiff, (nth_markEdge_b64 ts vd flags entry i Hlen). split.
    + intros [[H | H] | [e [Hin Hf]]].
      * left. exact H.
      * right. exists entry. auto.
      * right. exists e. auto.
    + intros [H | [e [[Heq | Hin] Hf]]].
      * left. left. exact H.
      * subst e. left. right. exact Hf.
      * right. exists e. auto.
Qed.

Lemma detectSilhouette_length_b64 (ts : list (Triangle float)) (vd : Vector3) :
  List.length (detectSilhouette ts vd) = List.length ts.
Proof.
  unfold detectSilhouette.
  apply (nth_markEdges_b64 ts vd (buildEdges ts) 0). apply repeat_length.
Qed.

(** The flag of a triangle: it is set exactly when one of the edges of
    the triangle occurs twice in the mesh, in triangles that face the
    view direction differently. *)
Lemma detectSilhouette_flag_b64 (ts : list (Triangle float)) (vd : Vector3)
  (i : nat) (t : Triangle float) :
  nth_error ts i = Some t ->
  (nth i (detectSilhouette ts vd) false = true <-> onTwiceOccurringEdge vd ts t).
Proof.
  intros Hi. unfold detectSilhouette.
  destruct (nth_markEdges_b64 ts vd (buildEdges ts) i (repeat false (List.length ts))
              (repeat_length _ _)) as [_ Hiff].
  rewrite Hiff, nth_repeat_false. unfold onTwiceOccurringEdge. split.
  - intros [H | [[k l] [Hin [j1 [j2 [Hl [Hdis Hij]]]]]]]; [discriminate H|].
    simpl in Hl. subst l.
    pose proof (In_lookup_b64 _ _ _ (buildEdges_distinct_b64 ts) Hin) as Hlook.
    rewrite lookup_buildEdges_b64 in Hlook.
    assert (Hown : In i (owners k ts)).
    { rewrite Hlook. destruct Hij as [-> | ->]; simpl; auto. }
    destruct (owner_slot_b64 ts 0 i k Hown) as [n [t' [e [Hn [Ht' [He Hk]]]]]].
    simpl in Hn. subst n. rewrite Hi in Ht'. injection Ht' as <-.
    exists e, j1, j2. rewrite Hk. auto.
  - intros [e [j1 [j2 [He [Hown Hdis]]]]]. right.
    exists (edgeKey t e, [j1; j2]). split.
    + rewrite <- Hown, <- lookup_buildEdges_b64. apply lookup_In_b64.
      rewrite lookup_buildEdges_b64, Hown. discriminate.
    + exists j1, j2. split; [reflexivity|]. split; [exact Hdis|].
      pose proof (slot_owner_b64 ts 0 i t e Hi He) as Hin.
      fold (owners (edgeKey t e) ts) in Hin. rewrite Hown in Hin.
      simpl in Hin. destruct Hin as [H | [H | []]]; auto.
Qed.

(** In a mesh where no triangle has an edge twice, each triangle owns
    at most one occurrence of an edge. *)
Lemma owners_NoDup_b64 (ts : list (Triangle float)) (k : EdgeKey) :
  forall s : nat,
    properMesh ts -> NoDup (ownersIn k (occurrencesFrom s ts)).
Proof.
  induction ts as [|t ts IH]; intros s Hproper.
  - constructor.
  - cbn [occurrencesFrom]. rewrite ownersIn_app_b64. apply NoDup_app.
    + destruct (Hproper t (or_introl eq_refl)) as [H01 [H12 H02]].
      unfold ownersIn, edgeSlots. simpl.
      destruct (key_eqb (edgeKey t 0) k) eqn:E0;
        destruct (key_eqb (edgeKey t 1) k) eqn:E1;
        destruct (key_eqb (edgeKey t 2) k) eqn:E2; simpl;
        repeat match goal with
        | H : key_eqb _ _ = true |- _ => apply key_eqb_eq_b64 in H
        end;
        try congruence;
        repeat constructor; simpl; tauto.
    + apply IH. intros t' Ht'. apply Hproper. right. exact Ht'.
    + intros a Ha Hb.
      apply owner_slot_b64 in Hb. destruct Hb as [n [_ [_ [Hn _]]]].
      unfold ownersIn, edgeSlots in Ha. apply in_map_iff in Ha.
      destruct Ha as [[k0 j] [Hj Hf]]. apply filter_In in Hf.
      destruct Hf as [Hf _]. simpl in Hj, Hf.
      destruct Hf as [H | [H | [H | []]]]; injection H as _ <-; lia.
Qed.

Lemma sharers_proper_b64 (ts : list (Triangle float)) (k : EdgeKey) :
  properMesh ts -> sharers k ts = owners k ts.
Proof.
  intros Hproper. unfold sharers. apply nodup_fixed_point.
  apply owners_NoDup_b64. exact Hproper.
Qed.

Lemma onEdge_proper_b64 (vd : Vector3) (ts : list (Triangle float)) (t : Triangle float) :
  properMesh ts ->
  (onTwiceOccurringEdge vd ts t <-> onEdgeOfTwoTriangles vd ts t).
Proof.
  intros Hproper. unfold onTwiceOccurringEdge, onEdgeOfTwoTriangles.
  split; intros [e [j1 [j2 [He [Hown Hdis]]]]]; exists e, j1, j2;
    rewrite (sharers_proper_b64 ts (edgeKey t e) Hproper) in *; auto.
Qed.

(** *** The key of an edge whose end points hold no NaN *)

Lemma SFeqb_rank (x y : spec_float) :
  SFeqb x y = true <-> isNumber x /\ isNumber y /\ rank x = rank y.
Proof.
  unfold SFeqb, isNumber.
  destruct x as [sx|sx| |sx mx ex], y as [sy|sy| |sy my ey];
    try destruct sx; try destruct sy; cbn [SFcompare rank];
    try (split; [discriminate|]); try (split; [intros _|reflexivity]);
    try (intros [H1 [H2 H3]]; first [congruence | discriminate H3]);
    try (repeat split; first [discriminate | reflexivity]).
  all: rewrite ?Pos.compare_cont_spec; cbn [Pos.switch_Eq].
  all: destruct (Z.compare_spec ex ey) as [He|He|He];
       try destruct (Pos.compare_spec mx my) as [Hm|Hm|Hm]; cbn [CompOpp];
       split; try discriminate;
       try (intros _; repeat split; first [discriminate | subst; reflexivity]);
       try (intros [H1 [H2 H3]]; first [reflexivity | exfalso; injection H3; lia]).
Qed.

Lemma eqb_place (x y : float) :
  (x =? y) = true <-> number x /\ number y /\ place x = place y.
Proof. rewrite eqb_spec. apply SFeqb_rank. Qed.

Lemma is_nan_number (x : float) : is_nan x = false <-> number x.
Proof.
  unfold is_nan. rewrite negb_false_iff, eqb_place. tauto.
Qed.

Lemma place_zero : place zero = (0, 0, 0)%Z.
Proof. reflexivity. Qed.

Lemma is_zero_place (x : float) :
  number x -> (is_zero x = true <-> place x = (0, 0, 0)%Z).
Proof.
  intros Hx. unfold is_zero. rewrite eqb_place, place_zero. split.
  - tauto.
  - intros H. repeat split; [exact Hx | discriminate | exact H].
Qed.

(** Two numbers with the same place are the same, or the two zeros. *)
Lemma rank_same (x y : spec_float) :
  isNumber x -> isNumber y -> rank x = rank y ->
  x = y \/ rank x = (0, 0, 0)%Z.
Proof.
  unfold isNumber.
  destruct x as [sx|sx| |sx mx ex], y as [sy|sy| |sy my ey];
    try destruct sx; try destruct sy; cbn [rank]; intros Hx Hy H;
    try congruence; try (right; reflexivity); try (left; reflexivity);
    try discriminate H.
  all: injection H as He Hm; left; f_equal; lia.
Qed.

Lemma text_place (x y : float) :
  number x -> number y -> (text x = text y <-> place x = place y).
Proof.
  intros Hx Hy. unfold text.
  pose proof (is_zero_place x Hx) as Zx. pose proof (is_zero_place y Hy) as Zy.
  destruct (is_zero x) eqn:Ex, (is_zero y) eqn:Ey.
  - split; [intros _|reflexivity].
    rewrite (proj1 Zx eq_refl), (proj1 Zy eq_refl). reflexivity.
  - split.
    + intros <-. discriminate Ey.
    + intros H. rewrite (proj1 Zx eq_refl) in H. symmetry in H.
      apply Zy in H. discriminate H.
  - split.
    + intros ->. discriminate Ex.
    + intros H. rewrite (proj1 Zy eq_refl) in H.
      apply Zx in H. discriminate H.
  - split; [intros ->; reflexivity|]. intros H.
    destruct (rank_same _ _ Hx Hy H) as [Heq | Hz].
    + apply Prim2SF_inj. exact Heq.
    + apply Zx in Hz. discriminate Hz.
Qed.

(** The order of two numbers: one is below the other, or they have
    the same place. *)
Lemma number_order (x y : float) :
  number x -> number y ->
  ((x <? y) = true <-> below (place x) (place y)) /\
  ((x =? y) = true <-> place x = place y) /\
  (below (place x) (place y) -> ~ below (place y) (place x)) /\
  (below (place x) (place y) -> place x <> place y) /\
  (below (place x) (place y) \/ place x = place y \/ below (place y) (place x)).
Proof.
  intros Hx Hy. rewrite ltb_place, eqb_place.
  split; [tauto|]. split; [tauto|].
  places. split; [lia|]. split.
  - intros H E. injection E as -> -> ->. lia.
  - assert (D : forall p q : Z, (p < q \/ p = q \/ q < p)%Z) by lia.
    destruct (D a a0) as [?|[->|?]]; [lia| |lia].
    destruct (D b b0) as [?|[->|?]]; [lia| |lia].
    destruct (D c c0) as [?|[->|?]]; [lia| |lia].
    right. left. reflexivity.
Qed.

Lemma numbers_number (a0 a1 a2 : float) :
  numbers (a0, a1, a2) -> number a0 /\ number a1 /\ number a2.
Proof. unfold numbers. rewrite !is_nan_number. tauto. Qed.

(** Among points that hold no NaN, [comesFirst] is the order of the
    places of the coordinates, first coordinate first. *)
Lemma comesFirst_places (a0 a1 a2 b0 b1 b2 : float) :
  numbers (a0, a1, a2) -> numbers (b0, b1, b2) ->
  (comesFirst (a0, a1, a2) (b0, b1, b2) = true <->
   below (place a0) (place b0) \/
   (place a0 = place b0 /\
    (below (place a1) (place b1) \/
     (place a1 = place b1 /\ below (place a2) (place b2))))).
Proof.
  intros Ha Hb.
  apply numbers_number in Ha. destruct Ha as [A0 [A1 A2]].
  apply numbers_number in Hb. destruct Hb as [B0 [B1 B2]].
  destruct (number_order a0 b0 A0 B0) as [L0 [E0 _]].
  destruct (number_order a1 b1 A1 B1) as [L1 [E1 _]].
  destruct (number_order a2 b2 A2 B2) as [L2 _].
  unfold comesFirst.
  rewrite !orb_true_iff, !andb_true_iff, L0, L1, L2, E0, E1. tauto.
Qed.

Lemma comesFirst_asym (a b : Triple float) :
  numbers a -> numbers b -> comesFirst a b = true -> comesFirst b a = false.
Proof.
  destruct a as [[a0 a1] a2], b as [[b0 b1] b2]. intros Ha Hb H.
  apply not_true_is_false. intros H'.
  apply (comesFirst_places _ _ _ _ _ _ Ha Hb) in H.
  apply (comesFirst_places _ _ _ _ _ _ Hb Ha) in H'.
  apply numbers_number in Ha. destruct Ha as [A0 [A1 A2]].
  apply numbers_number in Hb. destruct Hb as [B0 [B1 B2]].
  destruct (number_order a0 b0 A0 B0) as [_ [_ [N0 [D0 _]]]].
  destruct (number_order a1 b1 A1 B1) as [_ [_ [N1 [D1 _]]]].
  destruct (number_order a2 b2 A2 B2) as [_ [_ [N2 [D2 _]]]].
  destruct (number_order b0 a0 B0 A0) as [_ [_ [_ [D0' _]]]].
  destruct (number_order b1 a1 B1 A1) as [_ [_ [_ [D1' _]]]].
  destruct H as [H | [E0 [H | [E1 H]]]];
    destruct H' as [H' | [E0' [H' | [E1' H']]]];
    try (exfalso; first [ apply (N0 H H')
                        | apply (D0 H); congruence
                        | apply (D0' H'); congruence
                        | apply (N1 H H')
                        | apply (D1 H); congruence
                        | apply (D1' H'); congruence
                        | apply (N2 H H') ]).
Qed.

Lemma textOf_places (a0 a1 a2 b0 b1 b2 : float) :
  numbers (a0, a1, a2) -> numbers (b0, b1, b2) ->
  (textOf (a0, a1, a2) = textOf (b0, b1, b2) <->
   place a0 = place b0 /\ place a1 = place b1 /\ place a2 = place b2).
Proof.
  intros Ha Hb.
  apply numbers_number in Ha. destruct Ha as [A0 [A1 A2]].
  apply numbers_number in Hb. destruct Hb as [B0 [B1 B2]].
  rewrite <- (text_place a0 b0 A0 B0), <- (text_place a1 b1 A1 B1),
    <- (text_place a2 b2 A2 B2).
  unfold textOf. split.
  - intros H. injection H as -> -> ->. auto.
  - intros [-> [-> ->]]. reflexivity.
Qed.

Lemma comesFirst_neither (a b : Triple float) :
  numbers a -> numbers b ->
  comesFirst a b = false -> comesFirst b a = false -> textOf a = textOf b.
Proof.
  destruct a as [[a0 a1] a2], b as [[b0 b1] b2]. intros Ha Hb H H'.
  apply (textOf_places _ _ _ _ _ _ Ha Hb).
  assert (F : ~ (comesFirst (a0, a1, a2) (b0, b1, b2) = true)) by congruence.
  assert (F' : ~ (comesFirst (b0, b1, b2) (a0, a1, a2) = true)) by congruence.
  rewrite (comesFirst_places _ _ _ _ _ _ Ha Hb) in F.
  rewrite (comesFirst_places _ _ _ _ _ _ Hb Ha) in F'.
  apply numbers_number in Ha. destruct Ha as [A0 [A1 A2]].
  apply numbers_number in Hb. destruct Hb as [B0 [B1 B2]].
  destruct (number_order a0 b0 A0 B0) as [_ [_ [_ [_ [T0 | [T0 | T0]]]]]];
    [tauto | | tauto].
  destruct (number_order a1 b1 A1 B1) as [_ [_ [_ [_ [T1 | [T1 | T1]]]]]];
    [tauto | | exfalso; apply F'; right; split; [congruence | left; exact T1]].
  destruct (number_order a2 b2 A2 B2) as [_ [_ [_ [_ [T2 | [T2 | T2]]]]]];
    [tauto | tauto |].
  exfalso. apply F'. right. split; [congruence|]. right. split; [congruence|].
  exact T2.
Qed.

Lemma comesFirst_text (a b c d : Triple float) :
  numbers a -> numbers b -> numbers c -> numbers d ->
  textOf a = textOf c -> textOf b = textOf d ->
  comesFirst a b = comesFirst c d.
Proof.
  destruct a as [[a0 a1] a2], b as [[b0 b1] b2], c as [[c0 c1] c2], d as [[d0 d1] d2].
  intros Ha Hb Hc Hd Hac Hbd.
  apply (textOf_places _ _ _ _ _ _ Ha Hc) in Hac. destruct Hac as [P0 [P1 P2]].
  apply (textOf_places _ _ _ _ _ _ Hb Hd) in Hbd. destruct Hbd as [Q0 [Q1 Q2]].
  apply eq_true_iff_eq.
  rewrite (comesFirst_places _ _ _ _ _ _ Ha Hb), (comesFirst_places _ _ _ _ _ _ Hc Hd).
  rewrite P0, P1, P2, Q0, Q1, Q2. tauto.
Qed.

(** The key of an edge does not depend on the order of its end
    points, when they hold no NaN. *)
Lemma createEdgeKey_either_order (a b : Triple float) :
  numbers a -> numbers b -> createEdgeKey a b = createEdgeKey b a.
Proof.
  intros Ha Hb. unfold createEdgeKey.
  destruct (comesFirst a b) eqn:E.
  - rewrite (comesFirst_asym a b Ha Hb E). reflexivity.
  - destruct (comesFirst b a) eqn:E'; [reflexivity|].
    rewrite (comesFirst_neither a b Ha Hb E E'). reflexivity.
Qed.

(** Two edges have the same key exactly when they have the same end
    points, in the same or in the other order. *)
Lemma createEdgeKey_same_points (a b c d : Triple float) :
  numbers a -> numbers b -> numbers c -> numbers d ->
  (createEdgeKey a b = createEdgeKey c d <->
   (samePoint a c /\ samePoint b d) \/ (samePoint a d /\ samePoint b c)).
Proof.
  intros Ha Hb Hc Hd. unfold samePoint. split.
  - unfold createEdgeKey.
    destruct (comesFirst a b), (comesFirst c d); intros H; injection H as H1 H2; auto.
  - intros [[H1 H2] | [H1 H2]].
    + unfold createEdgeKey.
      rewrite (comesFirst_text a b c d Ha Hb Hc Hd H1 H2), H1, H2. reflexivity.
    + rewrite (createEdgeKey_either_order c d Hc Hd). unfold createEdgeKey.
      rewrite (comesFirst_text a b d c Ha Hb Hd Hc H1 H2), H1, H2. reflexivity.
Qed.

(** C5, as the code has it.  For every list of triangles, whatever
    numbers it holds, [detectSilhouette] returns one boolean for each
    triangle, true exactly when the triangle has an edge whose key
    ([createEdgeKey] of its end points) occurs exactly twice among the
    edges of all the triangles (an edge that a triangle has twice
    counting twice), in triangles whose facing tests
    [dot(normal, viewDirection) < 0] disagree.  Where no triangle of the
    mesh has an edge twice, that is the edge being shared by exactly two
    triangles whose facing tests disagree.  The key is the unordered
    pair of the end points when they hold no NaN: it is the same for
    the two orders of the end points, and two edges have the same key
    exactly when they have the same end points, in the same or in the
    other order. *)
Theorem detectSilhouette_twice_occurring_edge :
  forall (ts : list (Triangle float)) (viewDirection : Vector3),
    List.length (detectSilhouette ts viewDirection) = List.length ts /\
    (forall (i : nat) (t : Triangle float),
       nth_error ts i = Some t ->
       (nth i (detectSilhouette ts viewDirection) false = true <->
        onTwiceOccurringEdge viewDirection ts t)) /\
    (properMesh ts ->
     forall (i : nat) (t : Triangle float),
       nth_error ts i = Some t ->
       (nth i (detectSilhouette ts viewDirection) false = true <->
        onEdgeOfTwoTriangles viewDirection ts t)) /\
    (forall a b c d : Triple float,
       numbers a -> numbers b -> numbers c -> numbers d ->
       createEdgeKey a b = createEdgeKey b a /\
       (createEdgeKey a b = createEdgeKey c d <->
        (samePoint a c /\ samePoint b d) \/ (samePoint a d /\ samePoint b c))).
Proof.
  intros ts vd. split; [|split; [|split]].
  - apply detectSilhouette_length_b64.
  - intros i t. apply detectSilhouette_flag_b64.
  - intros Hproper i t Hi.
    rewrite (detectSilhouette_flag_b64 ts vd i t Hi).
    apply onEdge_proper_b64. exact Hproper.
  - intros a b c d Ha Hb Hc Hd. split.
    + apply createEdgeKey_either_order; assumption.
    + apply createEdgeKey_same_points; assumption.
Qed.

Lemma detectSilhouette_twice_occurring_edge_witness :
  properMesh foldMesh /\
  detectSilhouette foldMesh fromAbove = [true; true] /\
  onEdgeOfTwoTriangles fromAbove foldMesh proper.
Proof.
  assert (Hp : properMesh foldMesh).
  { intros t [<- | [<- | []]]; repeat split; intros H;
      apply key_eqb_eq_b64 in H; vm_compute in H; discriminate H. }
  split; [exact Hp|]. split; [vm_compute; reflexivity|].
  apply (proj1 (proj2 (proj2 (detectSilhouette_twice_occurring_edge foldMesh fromAbove)))
           Hp 0%nat proper eq_refl).
  vm_compute. reflexivity.
Defined.

(** C5, as the specification states it, fails on a mesh with a sliver:
    the edge from (0,0,0) to (1,0,0) belongs to exactly two triangles,
    the sliver and the proper one, and they face the view direction
    differently, yet the flag of the proper triangle is not set (the
    sliver has that edge twice, so the map holds three indices for
    it). *)
Lemma detectSilhouette_sliver_edge :
  nth_error sliverMesh 1 = Some proper /\
  onEdgeOfTwoTriangles fromAbove sliverMesh proper /\
  owners (edgeKey proper 0) sliverMesh = [0; 0; 1]%nat /\
  detectSilhouette sliverMesh fromAbove = [false; false].
Proof.
  split; [reflexivity|]. split; [|split].
  - exists 0%nat, 0%nat, 1%nat. split; [lia|]. split.
    + vm_compute. reflexivity.
    + exists sliver, proper. repeat split. vm_compute. discriminate.
  - vm_compute. reflexivity.
  - vm_compute. reflexivity.
Qed.

(** X14.  For end points that hold no NaN, the key of an edge is the
    unordered pair of its end points: [createEdgeKey] gives the same key
    for the two orders of the end points, and two edges have the same
    key exactly when they have the same end points (a zero of either
    sign being the same coordinate), in the same or in the other order.
    With a NaN coordinate that fails: the edge from (NaN,0,0) to
    (0,0,0) has another key than the edge from (0,0,0) to (NaN,0,0). *)
Theorem createEdgeKey_unordered_pair :
  (forall a b c d : Triple float,
     numbers a -> numbers b -> numbers c -> numbers d ->
     createEdgeKey a b = createEdgeKey b a /\
     (createEdgeKey a b = createEdgeKey c d <->
      (samePoint a c /\ samePoint b d) \/ (samePoint a d /\ samePoint b c))) /\
  key_eqb (createEdgeKey nanPoint originPoint) (createEdgeKey originPoint nanPoint)
  = false.
Proof.
  split.
  - intros a b c d Ha Hb Hc Hd. split.
    + apply createEdgeKey_either_order; assumption.
    + apply createEdgeKey_same_points; assumption.
  - vm_compute. reflexivity.
Qed.

Lemma createEdgeKey_unordered_pair_witness :
  numbers (1, 0, 0) /\ numbers (0, 2, -0) /\
  createEdgeKey (1, 0, 0) (0, 2, -0) = createEdgeKey (0, 2, -0) (1, 0, 0).
Proof.
  assert (H1 : numbers (1, 0, 0)) by (repeat split).
  assert (H2 : numbers (0, 2, -0)) by (repeat split).
  split; [exact H1|]. split; [exact H2|].
  exact (proj1 (proj1 createEdgeKey_unordered_pair _ _ _ _ H1 H2 H1 H2)).
Defined.
End SilhouetteKeys.

(** ** multiview.ts: the bounds of the mesh *)

Section Bounds64.
Import PrimFloat.
Import SpecFloat FloatOps FloatAxioms FloatOrder.
Import Binary64 Binary64Bounds Binary64BoundsSpec.
#[local] Open Scope float_scope.
#[local] Open Scope list_scope.

Lemma leb_place (x y : float) :
  (x <=? y) = true <-> number x /\ number y /\ ~ below (place y) (place x).
Proof. rewrite leb_spec. apply SFleb_rank. Qed.

(** [Math.min] of two numbers is the one of them that is not above
    the other. *)
Lemma Math_min_number (a b : float) :
  number a -> number b ->
  (Math_min a b = a /\ ~ below (place b) (place a)) \/
  (Math_min a b = b /\ ~ below (place a) (place b)).
Proof.
  intros Ha Hb. unfold Math_min.
  rewrite (proj2 (is_nan_number a) Ha), (proj2 (is_nan_number b) Hb). cbn [orb].
  destruct (a <? b) eqn:Hab.
  - left. split; [reflexivity|]. apply ltb_place in Hab. places. lia.
  - destruct (b <? a) eqn:Hba.
    + right. split; [reflexivity|]. apply ltb_place in Hba. places. lia.
    + assert (N1 : ~ below (place a) (place b)).
      { intros H. rewrite (proj2 (ltb_place a b)) in Hab by tauto. discriminate. }
      assert (N2 : ~ below (place b) (place a)).
      { intros H. rewrite (proj2 (ltb_place b a)) in Hba by tauto. discriminate. }
      destruct (is_zero a && get_sign b); [right | left]; split; auto.
Qed.

Lemma Math_max_number (a b : float) :
  number a -> number b ->
  (Math_max a b = a /\ ~ below (place a) (place b)) \/
  (Math_max a b = b /\ ~ below (place b) (place a)).
Proof.
  intros Ha Hb. unfold Math_max.
  rewrite (proj2 (is_nan_number a) Ha), (proj2 (is_nan_number b) Hb). cbn [orb].
  destruct (a <? b) eqn:Hab.
  - right. split; [reflexivity|]. apply ltb_place in Hab. places. lia.
  - destruct (b <? a) eqn:Hba.
    + left. split; [reflexivity|]. apply ltb_place in Hba. places. lia.
    + assert (N1 : ~ below (place a) (place b)).
      { intros H. rewrite (proj2 (ltb_place a b)) in Hab by tauto. discriminate. }
      assert (N2 : ~ below (place b) (place a)).
      { intros H. rewrite (proj2 (ltb_place b a)) in Hba by tauto. discriminate. }
      destruct (is_zero a && get_sign a); [right | left]; split; auto.
Qed.

(** The minimum is a lower bound, the greatest one. *)
Lemma Math_min_glb (a b : float) :
  number a -> number b ->
  number (Math_min a b) /\
  (Math_min a b <=? a) = true /\ (Math_min a b <=? b) = true /\
  (forall p, (Math_min a b <=? p) = true <-> (a <=? p) = true \/ (b <=? p) = true) /\
  (forall c, (c <=? a) = true -> (c <=? b) = true -> (c <=? Math_min a b) = true).
Proof.
  intros Ha Hb.
  destruct (Math_min_number a b Ha Hb) as [[-> H] | [-> H]].
  - split; [exact Ha|]. split; [apply leb_place; repeat split; auto; places; lia|].
    split; [apply leb_place; repeat split; auto|]. split.
    + intros p. rewrite !leb_place. split; [tauto|].
      intros [H1 | [_ [Hp H1]]]; [exact H1|].
      repeat split; auto. places. lia.
    + intros c Hc _. exact Hc.
  - split; [exact Hb|]. split; [apply leb_place; repeat split; auto|].
    split; [apply leb_place; repeat split; auto; places; lia|]. split.
    + intros p. rewrite !leb_place. split; [tauto|].
      intros [[_ [Hp H1]] | H1]; [|exact H1].
      repeat split; auto. places. lia.
    + intros c _ Hc. exact Hc.
Qed.

Lemma Math_max_lub (a b : float) :
  number a -> number b ->
  number (Math_max a b) /\
  (a <=? Math_max a b) = true /\ (b <=? Math_max a b) = true /\
  (forall p, (p <=? Math_max a b) = true <-> (p <=? a) = true \/ (p <=? b) = true) /\
  (forall c, (a <=? c) = true -> (b <=? c) = true -> (Math_max a b <=? c) = true).
Proof.
  intros Ha Hb.
  destruct (Math_max_number a b Ha Hb) as [[-> H] | [-> H]].
  - split; [exact Ha|]. split; [apply leb_place; repeat split; auto; places; lia|].
    split; [apply leb_place; repeat split; auto|]. split.
    + intros p. rewrite !leb_place. split; [tauto|].
      intros [H1 | [Hp [_ H1]]]; [exact H1|].
      repeat split; auto. places. lia.
    + intros c Hc _. exact Hc.
  - split; [exact Hb|]. split; [apply leb_place; repeat split; auto|].
    split; [apply leb_place; repeat split; auto; places; lia|]. split.
    + intros p. rewrite !leb_place. split; [tauto|].
      intros [[Hp [_ H1]] | H1]; [|exact H1].
      repeat split; auto. places. lia.
    + intros c _ Hc. exact Hc.
Qed.

Lemma rank_top (x : spec_float) : ~ below (rank (S754_infinity false)) (rank x).
Proof. destruct x as [s|s| |s m e]; try destruct s; cbn [rank below]; lia. Qed.

Lemma rank_bottom (x : spec_float) : ~ below (rank x) (rank (S754_infinity true)).
Proof. destruct x as [s|s| |s m e]; try destruct s; cbn [rank below]; lia. Qed.

Lemma leb_infinity (p : float) : number p -> (p <=? infinity) = true.
Proof.
  intros Hp. apply leb_place. repeat split; [exact Hp | discriminate|].
  apply rank_top.
Qed.

Lemma neg_infinity_leb (p : float) : number p -> (neg_infinity <=? p) = true.
Proof.
  intros Hp. apply leb_place. repeat split; [discriminate | exact Hp|].
  apply rank_bottom.
Qed.

Lemma leb_numbers (x y : float) : (x <=? y) = true -> number x /\ number y.
Proof. rewrite leb_place. tauto. Qed.

Lemma isPoint_numbers (v : Vector3) :
  isPoint v <-> number (vx v) /\ number (vy v) /\ number (vz v).
Proof. unfold isPoint. rewrite !is_nan_number. tauto. Qed.

(** One step on one axis: the new lower bound [Math.min(lo, x)] and
    the new upper bound [Math.max(hi, x)]. *)
Lemma grow_axis (lo hi x : float) :
  number lo -> number hi -> number x ->
  number (Math_min lo x) /\ number (Math_max hi x) /\
  ((Math_min lo x <=? x) = true /\ (x <=? Math_max hi x) = true) /\
  (forall p, (lo <=? p) = true /\ (p <=? hi) = true ->
             (Math_min lo x <=? p) = true /\ (p <=? Math_max hi x) = true) /\
  (forall olo ohi,
     (olo <=? x) = true /\ (x <=? ohi) = true ->
     ((olo <=? lo) = true /\ (hi <=? ohi) = true) ->
     ((olo <=? Math_min lo x) = true /\ (Math_max hi x <=? ohi) = true)) /\
  (forall olo ohi,
     (olo <=? x) = true /\ (x <=? ohi) = true ->
     ((Math_min lo x <=? ohi) = true /\ (olo <=? Math_max hi x) = true)).
Proof.
  intros Hlo Hhi Hx.
  destruct (Math_min_glb lo x Hlo Hx) as [N1 [_ [M2 [M3 M4]]]].
  destruct (Math_max_lub hi x Hhi Hx) as [N2 [_ [X2 [X3 X4]]]].
  split; [exact N1|]. split; [exact N2|]. split; [split; assumption|].
  split; [|split].
  - intros p [H1 H2]. split; [apply M3; left; exact H1 | apply X3; left; exact H2].
  - intros olo ohi [H1 H2] [H3 H4]. split; [apply M4 | apply X4]; assumption.
  - intros olo ohi [H1 H2]. split; [apply M3 | apply X3]; right; assumption.
Qed.

Lemma growBounds_grows64 (b : Bounds) (v : Triple float) :
  isPoint (bmin b) -> isPoint (bmax b) -> isPoint (toVector v) ->
  isPoint (bmin (growBounds b v)) /\ isPoint (bmax (growBounds b v)) /\
  within (growBounds b v) (toVector v) /\
  (forall p, within b p -> within (growBounds b v) p) /\
  (forall outer, within outer (toVector v) ->
     (inside b outer -> inside (growBounds b v) outer) /\
     ((forall p, isPoint p ->
         (vx p <=? vx (bmin b)) = true /\ (vy p <=? vy (bmin b)) = true /\
         (vz p <=? vz (bmin b)) = true /\ (vx (bmax b) <=? vx p) = true /\
         (vy (bmax b) <=? vy p) = true /\ (vz (bmax b) <=? vz p) = true) ->
      inside (growBounds b v) outer)).
Proof.
  destruct v as [[x y] z]. rewrite !isPoint_numbers.
  unfold growBounds, inside, within, toVector. cbn [vx vy vz bmin bmax].
  intros [Lx [Ly Lz]] [Hx [Hy Hz]] [Vx [Vy Vz]].
  destruct (grow_axis _ _ _ Lx Hx Vx) as [Ax1 [Ax2 [Ax3 [Ax4 [Ax5 Ax6]]]]].
  destruct (grow_axis _ _ _ Ly Hy Vy) as [Ay1 [Ay2 [Ay3 [Ay4 [Ay5 Ay6]]]]].
  destruct (grow_axis _ _ _ Lz Hz Vz) as [Az1 [Az2 [Az3 [Az4 [Az5 Az6]]]]].
  split; [tauto|]. split; [tauto|]. split; [tauto|]. split.
  - intros p [Px [Py Pz]]. split; [|split]; auto.
  - intros outer [Ox [Oy Oz]]. split.
    + intros [[[I1 I2] [[I3 I4] [I5 I6]]] [[J1 J2] [[J3 J4] [J5 J6]]]].
      pose proof (Ax5 _ _ Ox (conj I1 J2)). pose proof (Ax6 _ _ Ox).
      pose proof (Ay5 _ _ Oy (conj I3 J4)). pose proof (Ay6 _ _ Oy).
      pose proof (Az5 _ _ Oz (conj I5 J6)). pose proof (Az6 _ _ Oz).
      tauto.
    + intros Hall.
      assert (Px : number (vx (bmin outer)) /\ number (vx (bmax outer))).
      { split; [apply (leb_numbers _ _ (proj1 Ox)) | apply (leb_numbers _ _ (proj2 Ox))]. }
      assert (Py : number (vy (bmin outer)) /\ number (vy (bmax outer))).
      { split; [apply (leb_numbers _ _ (proj1 Oy)) | apply (leb_numbers _ _ (proj2 Oy))]. }
      assert (Pz : number (vz (bmin outer)) /\ number (vz (bmax outer))).
      { split; [apply (leb_numbers _ _ (proj1 Oz)) | apply (leb_numbers _ _ (proj2 Oz))]. }
      destruct (Hall (bmin outer)) as [I1 [I3 [I5 _]]];
        [apply isPoint_numbers; tauto|].
      destruct (Hall (bmax outer)) as [_ [_ [_ [J2 [J4 J6]]]]];
        [apply isPoint_numbers; tauto|].
      pose proof (Ax5 _ _ Ox (conj I1 J2)). pose proof (Ax6 _ _ Ox).
      pose proof (Ay5 _ _ Oy (conj I3 J4)). pose proof (Ay6 _ _ Oy).
      pose proof (Az5 _ _ Oz (conj I5 J6)). pose proof (Az6 _ _ Oz).
      tauto.
Qed.

Lemma fold_growBounds_contains64 (vs : list (Triple float)) :
  forall b : Bounds,
    isPoint (bmin b) -> isPoint (bmax b) ->
    (forall v, In v vs -> isPoint (toVector v)) ->
    (forall v, In v vs -> within (fold_left growBounds vs b) (toVector v)) /\
    (forall p, within b p -> within (fold_left growBounds vs b) p).
Proof.
  induction vs as [|v vs IH]; intros b Hlo Hhi Hvs; simpl.
  - split; [intros ? [] | auto].
  - destruct (growBounds_grows64 b v Hlo Hhi (Hvs v (or_introl eq_refl)))
      as [Hlo' [Hhi' [Hv [Hb _]]]].
    destruct (IH (growBounds b v) Hlo' Hhi' (fun u Hu => Hvs u (or_intror Hu)))
      as [Hin Hkeep].
    split.
    + intros u [<- | Hu]; [apply Hkeep; exact Hv | apply Hin; exact Hu].
    + intros p Hp. apply Hkeep. apply Hb. exact Hp.
Qed.

Lemma fold_growBounds_inside64 (vs : list (Triple float)) (outer : Bounds) :
  forall b : Bounds,
    isPoint (bmin b) -> isPoint (bmax b) ->
    (forall v, In v vs -> isPoint (toVector v)) ->
    inside b outer ->
    (forall v, In v vs -> within outer (toVector v)) ->
    inside (fold_left growBounds vs b) outer.
Proof.
  induction vs as [|v vs IH]; intros b Hlo Hhi Hvs Hb Hout; simpl.
  - exact Hb.
  - destruct (growBounds_grows64 b v Hlo Hhi (Hvs v (or_introl eq_refl)))
      as [Hlo' [Hhi' [_ [_ Hin]]]].
    apply IH; try assumption.
    + intros u Hu. apply Hvs. right. exact Hu.
    + apply (proj1 (Hin outer (Hout v (or_introl eq_refl)))). exact Hb.
    + intros u Hu. apply Hout. right. exact Hu.
Qed.

(** X18.  For a mesh that has a triangle and no NaN coordinate,
    [calculateBounds] returns the least box that holds every vertex of
    every triangle: each vertex is in it, and it is inside every box that
    holds them all.  With a NaN coordinate that fails: the bounds on
    that axis are NaN, and no point is in the box. *)
Theorem calculateBounds_least_box :
  (forall ts : list (Triangle float),
     ts <> [] ->
     (forall p, In p (meshVertices ts) -> isPoint p) ->
     (forall p, In p (meshVertices ts) -> within (calculateBounds ts) p) /\
     (forall outer,
        (forall p, In p (meshVertices ts) -> within outer p) ->
        inside (calculateBounds ts) outer)) /\
  is_nan (vx (bmin (calculateBounds [nanTriangle]))) = true /\
  is_nan (vx (bmax (calculateBounds [nanTriangle]))) = true /\
  (forall p, ~ within (calculateBounds [nanTriangle]) p).
Proof.
  split.
  2: { split; [vm_compute; reflexivity|]. split; [vm_compute; reflexivity|].
       intros p [[H _] _]. apply leb_numbers in H. destruct H as [H _].
       apply is_nan_number in H. vm_compute in H. discriminate H. }
  intros ts Hne Hpts. destruct ts as [|t ts]; [contradiction|].
  assert (Hvs : forall v, In v (flat_map triangleVertices (t :: ts)) ->
                          isPoint (toVector v)).
  { intros v Hv. apply Hpts. unfold meshVertices. apply in_map. exact Hv. }
  assert (Hinf : isPoint (vec3 infinity infinity infinity)) by (repeat split).
  assert (Hneg : isPoint (vec3 neg_infinity neg_infinity neg_infinity))
    by (repeat split).
  unfold calculateBounds.
  set (start := {| bmin := vec3 infinity infinity infinity;
                   bmax := vec3 neg_infinity neg_infinity neg_infinity |}).
  split.
  - intros p Hp. unfold meshVertices in Hp. apply in_map_iff in Hp.
    destruct Hp as [v [<- Hv]].
    apply (proj1 (fold_growBounds_contains64 _ start Hinf Hneg Hvs)). exact Hv.
  - intros outer Hall.
    assert (Hout : forall v, In v (flat_map triangleVertices (t :: ts)) ->
                             within outer (toVector v)).
    { intros v Hv. apply Hall. unfold meshVertices. apply in_map. exact Hv. }
    cbn [flat_map triangleVertices app] in *.
    change (inside (fold_left growBounds
                      (vertex t 1 :: vertex t 2 :: flat_map triangleVertices ts)
                      (growBounds start (vertex t 0))) outer).
    destruct (growBounds_grows64 start (vertex t 0) Hinf Hneg (Hvs _ (or_introl eq_refl)))
      as [Hlo [Hhi [_ [_ Hin]]]].
    apply (fold_growBounds_inside64 _ outer (growBounds start (vertex t 0)) Hlo Hhi).
    + intros v Hv. apply Hvs. right. exact Hv.
    + apply (proj2 (Hin outer (Hout _ (or_introl eq_refl)))).
      intros p Hp. apply isPoint_numbers in Hp. destruct Hp as [Px [Py Pz]].
      cbn [vx vy vz bmin bmax].
      repeat split; first [apply leb_infinity | apply neg_infinity_leb]; assumption.
    + intros v Hv. apply Hout. right. exact Hv.
Qed.

Lemma calculateBounds_least_box_witness :
  [floorTriangle] <> [] /\
  (forall p, In p (meshVertices [floorTriangle]) -> isPoint p) /\
  within (calculateBounds [floorTriangle]) (vec3 10 0 0).
Proof.
  assert (Hne : [floorTriangle] <> []) by discriminate.
  assert (Hpts : forall p, In p (meshVertices [floorTriangle]) -> isPoint p).
  { intros p [<- | [<- | [<- | []]]]; repeat split. }
  split; [exact Hne|]. split; [exact Hpts|].
  apply (proj1 (proj1 calculateBounds_least_box [floorTriangle] Hne Hpts)).
  right. left. reflexivity.
Defined.
End Bounds64.
